(** * cJSON: a shallow embedding of cJSON.c and its verification

    The development follows the layout of [cJSON.c]: C strings and
    characters, the string codec ([parse_hex4], [parse_string],
    [print_string_ptr]), the number codec ([parse_number],
    [print_number]), the growable print buffer ([pow2gt], [ensure],
    [update]), the recursive-descent parser, the two serializers (the
    allocating one and the one writing into a [printbuffer]) and the
    sibling-list operations of the tree mutation interface. *)

From Stdlib Require Import ZArith Lia List Ascii String Bool.
From Stdlib Require Import Floats.SpecFloat.
From stdpp Require Import base option list gmap.

Set Warnings "-register-all".
Import ListNotations.

Local Open Scope Z_scope.

(* ================================================================== *)
(** * Part I: the embedding                                             *)
(* ================================================================== *)

(** ** C strings

    A [const char *] is modelled by the bytes of the array from the
    pointer on, without the NUL that ends the array: a read at the end
    of the list yields that terminator.  A NUL written out in the list
    ends the C string before the array does.  Pointer arithmetic
    [p + n] is [drop n p] where the code has seen the [n] characters it
    moves over; where it has not, the pointer may come to lie behind
    the terminator of the array, and [p + n] is [ptr_add n p]. *)

Definition text := list ascii.

Definition NUL : ascii := Ascii.zero.

(** [*p] *)
Definition deref (p : text) : ascii := hd NUL p.

(** [p + n] for a pointer that is read afterwards: [None] when it lies
    behind the terminator of the array, where no read is defined. *)
Definition ptr_add (n : nat) (p : text) : option text :=
  if (n <=? List.length p)%nat then Some (drop n p) else None.

(** The value of a character read as [unsigned char]. *)
Definition code (c : ascii) : Z := Z.of_N (N_of_ascii c).

(** A store of an integer into a [char]: the low eight bits. *)
Definition char_of (z : Z) : ascii := ascii_of_N (Z.to_N (z mod 256)).

Definition lit (s : string) : text := list_ascii_of_string s.

(** The double quote (34) and the backslash (92). *)
Definition dquote : ascii := ascii_of_N 34.
Definition backslash : ascii := ascii_of_N 92.

(** [lo <= c && c <= hi] on characters of the ASCII range: plain [char]
    may be signed, but every bound used below is under 128, where both
    readings agree. *)
Definition in_range (lo hi c : ascii) : bool :=
  (code lo <=? code c) && (code c <=? code hi).

Definition is_digit (c : ascii) : bool := in_range "0" "9" c.

(** The C string starting at a pointer: the bytes before the first NUL. *)
Fixpoint c_str (p : text) : text :=
  match p with
  | [] => []
  | c :: p' => if Ascii.eqb c NUL then [] else c :: c_str p'
  end.

(** [strncmp(value, s, n) == 0] for a literal [s] of [n] bytes. *)
Definition starts_with (s : string) (value : text) : bool :=
  bool_decide (take (List.length (lit s)) value = lit s).

(** ** String codec: [parse_hex4] *)

Definition hex_value (c : ascii) : option Z :=
  if in_range "0" "9" c then Some (code c - code "0")
  else if in_range "A" "F" c then Some (10 + code c - code "A")
  else if in_range "a" "f" c then Some (10 + code c - code "a")
  else None.

Definition parse_hex4 (str : text) : Z :=
  let h := 0 in
  match hex_value (deref str) with
  | None => 0
  | Some d =>
    let h := Z.shiftl (h + d) 4 in
    let str := drop 1 str in
    match hex_value (deref str) with
    | None => 0
    | Some d =>
      let h := Z.shiftl (h + d) 4 in
      let str := drop 1 str in
      match hex_value (deref str) with
      | None => 0
      | Some d =>
        let h := Z.shiftl (h + d) 4 in
        let str := drop 1 str in
        match hex_value (deref str) with
        | None => 0
        | Some d => h + d
        end
      end
    end
  end.

(** ** String codec: [parse_string] *)

Definition firstByteMark (len : Z) : Z :=
  nth (Z.to_nat len) [0x00; 0x00; 0xC0; 0xE0; 0xF0; 0xF8; 0xFC] 0.

(** [((uc | 0x80) & 0xBF)] stored into a [char]. *)
Definition continuation (uc : Z) : ascii :=
  char_of (Z.land (Z.lor uc 0x80) 0xBF).

(** The fall-through [switch (len)] of [parse_string]: the bytes are
    written from the last one back to the lead byte. *)
Definition utf8_bytes (uc : Z) : list ascii :=
  let len := if uc <? 0x80 then 1
             else if uc <? 0x800 then 2
             else if uc <? 0x10000 then 3 else 4 in
  if len =? 4 then
    let b4 := continuation uc in let uc := Z.shiftr uc 6 in
    let b3 := continuation uc in let uc := Z.shiftr uc 6 in
    let b2 := continuation uc in let uc := Z.shiftr uc 6 in
    [char_of (Z.lor uc (firstByteMark len)); b2; b3; b4]
  else if len =? 3 then
    let b3 := continuation uc in let uc := Z.shiftr uc 6 in
    let b2 := continuation uc in let uc := Z.shiftr uc 6 in
    [char_of (Z.lor uc (firstByteMark len)); b2; b3]
  else if len =? 2 then
    let b2 := continuation uc in let uc := Z.shiftr uc 6 in
    [char_of (Z.lor uc (firstByteMark len)); b2]
  else
    [char_of (Z.lor uc (firstByteMark len))].

(** [case 'u'] of the escape switch.  [ptr] points at the [u]; the result
    is the bytes stored and the number of characters [ptr] has been
    moved at the [break]: 4, or 10 once the second escape has been
    read.  The reads on the way end at the terminator at the latest:
    [parse_hex4] stops at the first character that is no digit, a high
    surrogate has its four digits in the text, and the character at
    [ptr + 2] is read only behind a backslash. *)
Definition parse_unicode_escape (ptr : text) : list ascii * nat :=
  let uc := parse_hex4 (drop 1 ptr) in
  let ptr := drop 4 ptr in
  if ((0xDC00 <=? uc) && (uc <=? 0xDFFF)) || (uc =? 0) then ([], 4%nat)
  else if (0xD800 <=? uc) && (uc <=? 0xDBFF) then
    if negb (Ascii.eqb (deref (drop 1 ptr)) backslash)
       || negb (Ascii.eqb (deref (drop 2 ptr)) "u")
    then ([], 4%nat)
    else
      let uc2 := parse_hex4 (drop 3 ptr) in
      if (uc2 <? 0xDC00) || (0xDFFF <? uc2) then ([], 10%nat)
      else
        let uc := 0x10000 + Z.lor (Z.shiftl (Z.land uc 0x3FF) 10)
                                  (Z.land uc2 0x3FF) in
        (utf8_bytes uc, 10%nat)
  else (utf8_bytes uc, 4%nat).

(** One iteration of the decoding [while] loop: the loop stops, or
    bytes are stored in [out] and [ptr] is moved, or [ptr] is moved
    behind the terminator of the array, where the next test of the loop
    reads. *)
Inductive step_result : Type :=
  | Stop
  | Step (emitted : list ascii) (ptr : text)
  | Beyond.

(** An escape moves [ptr] without a look at the characters it moves
    over: by one from the character behind the backslash, and by four
    or ten more for a [u]. *)
Definition parse_string_step (ptr : text) : step_result :=
  let c := deref ptr in
  if Ascii.eqb c dquote || Ascii.eqb c NUL then Stop
  else if negb (Ascii.eqb c backslash) then Step [c] (drop 1 ptr)
  else
    let ptr := drop 1 ptr in
    let c := deref ptr in
    let '(emitted, moved) :=
      if Ascii.eqb c "b" then ([char_of 8], O)
      else if Ascii.eqb c "f" then ([char_of 12], O)
      else if Ascii.eqb c "n" then ([char_of 10], O)
      else if Ascii.eqb c "r" then ([char_of 13], O)
      else if Ascii.eqb c "t" then ([char_of 9], O)
      else if Ascii.eqb c "u" then parse_unicode_escape ptr
      else ([c], O) in
    match ptr_add (S moved) ptr with
    | Some ptr => Step emitted ptr
    | None => Beyond
    end.

(** The decoding loop: the bytes stored in [out] and the pointer at
    which the loop stops, [None] when [ptr] is moved behind the
    terminator. *)
Fixpoint parse_string_loop (fuel : nat) (ptr : text)
  : option (list ascii * text) :=
  match fuel with
  | O => Some ([], ptr)
  | S fuel =>
    match parse_string_step ptr with
    | Stop => Some ([], ptr)
    | Step emitted ptr' =>
      match parse_string_loop fuel ptr' with
      | Some (out, final) => Some (emitted ++ out, final)
      | None => None
      end
    | Beyond => None
    end
  end.

(** The decoding loop run to its end: every iteration consumes at least
    one byte, so [length ptr] iterations are enough. *)
Definition unescape (ptr : text) : option (list ascii * text) :=
  parse_string_loop (List.length ptr) ptr.

(** The first loop of [parse_string], which sizes the allocation: the
    count [len] of the characters up to the first quote or NUL, a
    backslash and the character behind it counting as one ([len] is an
    [int]; the count is that of a text of less than 2^31 characters).
    [None]: the character skipped behind a backslash is the terminator
    of the array, and the loop reads on behind it. *)
Fixpoint sizing_scan (ptr : text) : option nat :=
  match ptr with
  | [] => Some O
  | c :: ptr' =>
    if Ascii.eqb c dquote || Ascii.eqb c NUL then Some O
    else if Ascii.eqb c backslash then
      match ptr' with
      | [] => None
      | _ :: ptr'' => S <$> sizing_scan ptr''
      end
    else S <$> sizing_scan ptr'
  end.

(** ** Doubles

    [double] is IEEE 754 binary64, taken from the Standard Library's
    executable specification of floating-point arithmetic
    ([prec = 53], [emax = 1024]). *)

Definition double := spec_float.

Definition dadd : double -> double -> double := SFadd 53 1024.
Definition dsub : double -> double -> double := SFsub 53 1024.
Definition dmul : double -> double -> double := SFmul 53 1024.
Definition ddiv : double -> double -> double := SFdiv 53 1024.
Definition deqb : double -> double -> bool := SFeqb.
Definition dltb : double -> double -> bool := SFltb.
Definition dleb : double -> double -> bool := SFleb.

(** [(double)i] *)
Definition of_int (i : Z) : double := binary_normalize 53 1024 i 0 false.

(** A decimal floating constant [m e e10] of the source text, correctly
    rounded as a C compiler does. *)
Definition decimal_literal (m : positive) (e10 : Z) : double :=
  if 0 <=? e10 then binary_normalize 53 1024 (Zpos m * 10 ^ e10) 0 false
  else ddiv (S754_finite false m 0)
            (S754_finite false (Z.to_pos (10 ^ (- e10))) 0).

Definition DBL_EPSILON : double := S754_finite false (2 ^ 52) (-104).
Definition INT_MAX : Z := 2147483647.
Definition INT_MIN : Z := -2147483648.

(** Wrap-around of a 32-bit signed [int]. *)
Definition wrap_int (z : Z) : Z := (z + 2 ^ 31) mod 2 ^ 32 - 2 ^ 31.

(** The exact value of a finite double as a fraction [num / den]. *)
Definition fraction_of (m : positive) (e : Z) : Z * Z :=
  if 0 <=? e then (Zpos m * 2 ^ e, 1) else (Zpos m, 2 ^ (- e)).

(** [(int)d]: truncation toward zero.  Outside the range of [int] (and
    for NaN) C leaves the conversion undefined; the model returns
    [INT_MIN], as the x86 conversion instruction does. *)
Definition to_int (d : double) : Z :=
  match d with
  | S754_zero _ => 0
  | S754_finite s m e =>
    let '(num, den) := fraction_of m e in
    let z := cond_Zopp s (num / den) in
    if (INT_MIN <=? z) && (z <=? INT_MAX) then z else INT_MIN
  | _ => INT_MIN
  end.

(** libm's [fabs] and [floor]; both are exact. *)
Definition fabs : double -> double := SFabs.

Definition floor (d : double) : double :=
  match d with
  | S754_finite s m e =>
    let '(num, den) := fraction_of m e in
    if num mod den =? 0 then d
    else if s then of_int (- (num / den) - 1)
    else binary_normalize 53 1024 (num / den) 0 false
  | _ => d
  end.

(** libm's [pow(10.0, y)] at an integral [y], modelled as the correctly
    rounded power of ten; a library whose [pow] is not correctly
    rounded may differ from it in the last bit.  [pow(10.0, 0) = 1] is
    all the theorems below rely on.  Beyond [10^400] the result is an
    infinity and below [10^-400] it is zero, as rounding gives. *)
Definition pow10 (y : Z) : double :=
  if 400 <? y then S754_infinity false
  else if y <? -400 then S754_zero false
  else decimal_literal 1 y.

(** ** libc's [sprintf] conversions *)

Fixpoint decimal_fuel (fuel : nat) (n : Z) (acc : text) : text :=
  match fuel with
  | O => acc
  | S fuel =>
    let acc := char_of (code "0" + n mod 10) :: acc in
    if n <? 10 then acc else decimal_fuel fuel (n / 10) acc
  end.

(** The decimal digits of a natural number, most significant first. *)
Definition decimal (n : Z) : text :=
  decimal_fuel (S (Z.to_nat (Z.log2 n))) n [].

(** [sprintf(str, "%d", i)] *)
Definition sprintf_d (i : Z) : text :=
  if i <? 0 then "-"%char :: decimal (- i) else decimal i.

(** Rounding of [num / den] to the nearest integer, ties to even. *)
Definition round_half_even (num den : Z) : Z :=
  let q := num / den in
  let r := num mod den in
  match 2 * r ?= den with
  | Lt => q
  | Gt => q + 1
  | Eq => if Z.even q then q else q + 1
  end.

Definition sign_text (s : bool) : text := if s then ["-"%char] else [].

(** [n] written with at least [width] digits. *)
Definition zero_padded (width : nat) (n : Z) : text :=
  let ds := decimal n in
  replicate (width - List.length ds) "0"%char ++ ds.

(** [sprintf(str, "%.<digits>f", d)].  [spec_float] keeps no sign for
    a NaN: the text is that of a NaN whose sign bit is clear. *)
Definition sprintf_f (digits : nat) (d : double) : text :=
  match d with
  | S754_nan => lit "nan"
  | S754_infinity s => sign_text s ++ lit "inf"
  | S754_zero s =>
    sign_text s ++ "0"%char ::
      (if digits is O then [] else "."%char :: replicate digits "0"%char)
  | S754_finite s m e =>
    let '(num, den) := fraction_of m e in
    let scale := 10 ^ Z.of_nat digits in
    let n := round_half_even (num * scale) den in
    sign_text s ++ decimal (n / scale) ++
      (if digits is O then [] else "."%char :: zero_padded digits (n mod scale))
  end.

(** The decimal exponent [x] of a positive fraction:
    [10^x <= num/den < 10^(x+1)]. *)
Definition scaled_by (x : Z) (num den : Z) : Z * Z :=
  if 0 <=? x then (num, den * 10 ^ x) else (num * 10 ^ (- x), den).

Fixpoint decimal_exponent_from (fuel : nat) (x : Z) (num den : Z) : Z :=
  match fuel with
  | O => x
  | S fuel =>
    let '(n, d) := scaled_by (x + 1) num den in
    if n <? d then x else decimal_exponent_from fuel (x + 1) num den
  end.

Definition decimal_exponent (num den : Z) : Z :=
  let low := ((Z.log2 num - Z.log2 den - 1) * 30102) / 100000 - 1 in
  decimal_exponent_from 4 low num den.

(** [sprintf(str, "%e", d)], with the same text for a NaN. *)
Definition sprintf_e (d : double) : text :=
  match d with
  | S754_nan => lit "nan"
  | S754_infinity s => sign_text s ++ lit "inf"
  | S754_zero s => sign_text s ++ lit "0.000000e+00"
  | S754_finite s m e =>
    let '(num, den) := fraction_of m e in
    let x := decimal_exponent num den in
    let '(n, dn) := scaled_by (x - 6) num den in
    let r := round_half_even n dn in
    let '(r, x) := if 10000000 <=? r then (r / 10, x + 1) else (r, x) in
    sign_text s ++ decimal (r / 1000000) ++ "."%char ::
      zero_padded 6 (r mod 1000000) ++ "e"%char ::
      (if x <? 0 then "-"%char else "+"%char) :: zero_padded 2 (Z.abs x)
  end.

(** ** Number codec: [parse_number] *)

(** The digit loops of [parse_number]: while the next character is a
    digit, [n = n*10.0 + digit]; the digits read are counted. *)
Fixpoint digits_loop (num : text) (n : double) (count : Z)
  : double * Z * text :=
  match num with
  | c :: num' =>
    if is_digit c
    then digits_loop num' (dadd (dmul n (of_int 10)) (of_int (code c - code "0")))
                     (count + 1)
    else (n, count, num)
  | [] => (n, count, num)
  end.

(** The exponent loop: while the next character is a digit,
    [subscale = subscale*10 + digit], in [int] arithmetic. *)
Fixpoint subscale_loop (num : text) (subscale : Z) : Z * text :=
  match num with
  | c :: num' =>
    if is_digit c
    then subscale_loop num' (wrap_int (wrap_int (subscale * 10) + (code c - code "0")))
    else (subscale, num)
  | [] => (subscale, num)
  end.

(** The result of [parse_number]: the fields [valuedouble] and
    [valueint] and the returned pointer.  [scale] is a [double] in the
    source; it only ever holds the negated count of fraction digits. *)
Definition parse_number_fields (num : text) : double * Z * text :=
  let n := of_int 0 in
  let sign := of_int 1 in
  let scale := 0 in
  let subscale := 0 in
  let signsubscale := 1 in
  let '(sign, num) :=
    if Ascii.eqb (deref num) "-" then (of_int (-1), drop 1 num) else (sign, num) in
  let num := if Ascii.eqb (deref num) "0" then drop 1 num else num in
  let '(n, _, num) :=
    if in_range "1" "9" (deref num) then digits_loop num n 0 else (n, 0, num) in
  let '(n, scale, num) :=
    if Ascii.eqb (deref num) "." && is_digit (deref (drop 1 num))
    then let '(n, count, num) := digits_loop (drop 1 num) n 0 in
         (n, scale - count, num)
    else (n, scale, num) in
  let '(subscale, signsubscale, num) :=
    if Ascii.eqb (deref num) "e" || Ascii.eqb (deref num) "E" then
      let num := drop 1 num in
      let '(signsubscale, num) :=
        if Ascii.eqb (deref num) "+" then (signsubscale, drop 1 num)
        else if Ascii.eqb (deref num) "-" then (-1, drop 1 num)
        else (signsubscale, num) in
      let '(subscale, num) := subscale_loop num subscale in
      (subscale, signsubscale, num)
    else (subscale, signsubscale, num) in
  let n := dmul (dmul sign n) (pow10 (scale + wrap_int (subscale * signsubscale))) in
  (n, to_int n, num).

(** ** Number codec: [print_number] (the allocating path, [p == 0]) *)

Definition print_number_fields (d : double) (valueint : Z) : text :=
  if deqb d (of_int 0) then lit "0"
  else if dleb (fabs (dsub (of_int valueint) d)) DBL_EPSILON
          && dleb d (of_int INT_MAX) && dleb (of_int INT_MIN) d
  then sprintf_d valueint
  else if dleb (fabs (dsub (floor d) d)) DBL_EPSILON
          && dltb (fabs d) (decimal_literal 1 60)
  then sprintf_f 0 d
  else if dltb (fabs d) (decimal_literal 1 (-6))
          || dltb (decimal_literal 1 9) (fabs d)
  then sprintf_e d
  else sprintf_f 6 d.

(** ** The value node

    Modelled from the spec: the header [cJSON.h] is not part of the
    sources at hand, so the type tags are the seven kinds of the data
    model; the two flag bits kept in the same field ([cJSON_IsReference],
    [cJSON_StringIsConst]) are masked away by every function modelled
    here.  The sibling chain [child], [child->next], ... is the list
    [child]; the field [string] is [keystring]. *)

Inductive cJSON_type : Type :=
  | cJSON_False | cJSON_True | cJSON_NULL | cJSON_Number
  | cJSON_String | cJSON_Array | cJSON_Object.

Inductive cJSON : Type := mk_cJSON {
  child : list cJSON;
  type : cJSON_type;
  valuestring : option text;
  valueint : Z;
  valuedouble : double;
  keystring : option text
}.

Definition set_child (item : cJSON) (c : list cJSON) : cJSON :=
  mk_cJSON c (type item) (valuestring item) (valueint item)
           (valuedouble item) (keystring item).
Definition set_type (item : cJSON) (t : cJSON_type) : cJSON :=
  mk_cJSON (child item) t (valuestring item) (valueint item)
           (valuedouble item) (keystring item).
Definition set_valuestring (item : cJSON) (s : option text) : cJSON :=
  mk_cJSON (child item) (type item) s (valueint item)
           (valuedouble item) (keystring item).
Definition set_valueint (item : cJSON) (i : Z) : cJSON :=
  mk_cJSON (child item) (type item) (valuestring item) i
           (valuedouble item) (keystring item).
Definition set_valuedouble (item : cJSON) (d : double) : cJSON :=
  mk_cJSON (child item) (type item) (valuestring item) (valueint item)
           d (keystring item).
Definition set_keystring (item : cJSON) (s : option text) : cJSON :=
  mk_cJSON (child item) (type item) (valuestring item) (valueint item)
           (valuedouble item) s.

(** [cJSON_New_Item]: a node with every field zero. *)
Definition cJSON_New_Item : cJSON :=
  mk_cJSON [] cJSON_False None 0 (S754_zero false) None.

(** ** Parser *)

(** What a parsing function leaves behind: the filled item and the
    returned pointer, or a null return with the error pointer [ep] it
    set.  [Undefined]: the call has written behind the memory it
    allocated or moved its pointer behind the terminator of the text,
    and the C standard gives it no result.  [Unfinished] is the model
    running out of fuel. *)
Inductive parse_result : Type :=
  | Parsed (item : cJSON) (rest : text)
  | Failed (ep : option text)
  | Undefined
  | Unfinished.

Fixpoint skip (inp : text) : text :=
  match inp with
  | c :: inp' =>
    if negb (Ascii.eqb c NUL) && (code c <=? 32) then skip inp' else inp
  | [] => []
  end.

Definition parse_number (item : cJSON) (num : text) : parse_result :=
  let '(n, i, num) := parse_number_fields num in
  Parsed (set_type (set_valueint (set_valuedouble item n) i) cJSON_Number) num.

(** [parse_string], with an allocator that does not fail.  [out] has
    the [len + 1] bytes asked for after the first loop: the stores of
    the decoding loop and the terminator stored after it stay within
    them exactly when the loop stores at most [len] bytes.
    [valuestring] is the C string left in [out]. *)
Definition parse_string (item : cJSON) (str : text) : parse_result :=
  if negb (Ascii.eqb (deref str) dquote) then Failed (Some str)
  else
    match sizing_scan (drop 1 str), unescape (drop 1 str) with
    | Some len, Some (out, ptr) =>
      if (List.length out <=? len)%nat then
        let ptr := if Ascii.eqb (deref ptr) dquote then drop 1 ptr else ptr in
        Parsed (set_type (set_valuestring item (Some (c_str out))) cJSON_String)
               ptr
      else Undefined
    | _, _ => Undefined
    end.

Section ParseContainers.
(** [parse_value], to which [parse_array] and [parse_object] call back. *)
Variable parse_value : cJSON -> text -> parse_result.

(** The sibling loop of [parse_array], entered while the next
    character is a comma, and the closing test after it. *)
Fixpoint parse_array_loop (fuel : nat) (item : cJSON) (children : list cJSON)
         (value : text) : parse_result :=
  match fuel with
  | O => Unfinished
  | S fuel =>
    if Ascii.eqb (deref value) "," then
      match parse_value cJSON_New_Item (skip (drop 1 value)) with
      | Parsed new_item value =>
        parse_array_loop fuel item (children ++ [new_item]) (skip value)
      | Failed ep => Failed ep
      | Undefined => Undefined
      | Unfinished => Unfinished
      end
    else if Ascii.eqb (deref value) "]"
    then Parsed (set_child item children) (drop 1 value)
    else Failed (Some value)
  end.

Definition parse_array (fuel : nat) (item : cJSON) (value : text)
  : parse_result :=
  if negb (Ascii.eqb (deref value) "[") then Failed (Some value)
  else
    let item := set_type item cJSON_Array in
    let value := skip (drop 1 value) in
    if Ascii.eqb (deref value) "]" then Parsed item (drop 1 value)
    else
      match parse_value cJSON_New_Item (skip value) with
      | Parsed child value => parse_array_loop fuel item [child] (skip value)
      | Failed ep => Failed ep
      | Undefined => Undefined
      | Unfinished => Unfinished
      end.

(** One member of an object: the key, the colon and the value.
    [value] is the pointer handed to the inner [skip]; the result
    pointer has been through the outer [skip]. *)
Definition parse_member (value : text) : parse_result :=
  match parse_string cJSON_New_Item (skip value) with
  | Parsed child value =>
    let value := skip value in
    let child := set_valuestring (set_keystring child (valuestring child)) None in
    if negb (Ascii.eqb (deref value) ":") then Failed (Some value)
    else
      match parse_value child (skip (drop 1 value)) with
      | Parsed child value => Parsed child (skip value)
      | Failed ep => Failed ep
      | Undefined => Undefined
      | Unfinished => Unfinished
      end
  | Failed ep => Failed ep
  | Undefined => Undefined
  | Unfinished => Unfinished
  end.

Fixpoint parse_object_loop (fuel : nat) (item : cJSON) (children : list cJSON)
         (value : text) : parse_result :=
  match fuel with
  | O => Unfinished
  | S fuel =>
    if Ascii.eqb (deref value) "," then
      match parse_member (drop 1 value) with
      | Parsed new_item value =>
        parse_object_loop fuel item (children ++ [new_item]) value
      | Failed ep => Failed ep
      | Undefined => Undefined
      | Unfinished => Unfinished
      end
    else if Ascii.eqb (deref value) "}"
    then Parsed (set_child item children) (drop 1 value)
    else Failed (Some value)
  end.

Definition parse_object (fuel : nat) (item : cJSON) (value : text)
  : parse_result :=
  if negb (Ascii.eqb (deref value) "{") then Failed (Some value)
  else
    let item := set_type item cJSON_Object in
    let value := skip (drop 1 value) in
    if Ascii.eqb (deref value) "}" then Parsed item (drop 1 value)
    else
      match parse_member value with
      | Parsed child value => parse_object_loop fuel item [child] value
      | Failed ep => Failed ep
      | Undefined => Undefined
      | Unfinished => Unfinished
      end.
End ParseContainers.

Fixpoint parse_value (fuel : nat) (item : cJSON) (value : text) : parse_result :=
  match fuel with
  | O => Unfinished
  | S fuel =>
    if starts_with "null" value then Parsed (set_type item cJSON_NULL) (drop 4 value)
    else if starts_with "false" value then Parsed (set_type item cJSON_False) (drop 5 value)
    else if starts_with "true" value
    then Parsed (set_valueint (set_type item cJSON_True) 1) (drop 4 value)
    else if Ascii.eqb (deref value) dquote then parse_string item value
    else if Ascii.eqb (deref value) "-" || is_digit (deref value)
    then parse_number item value
    else if Ascii.eqb (deref value) "["
    then parse_array (parse_value fuel) fuel item value
    else if Ascii.eqb (deref value) "{"
    then parse_object (parse_value fuel) fuel item value
    else Failed (Some value)
  end.

(** The outcome of [cJSON_ParseWithOpts]: the returned tree, the error
    pointer [ep] afterwards and what is stored through
    [return_parse_end].  A call without a defined result has none of
    the three. *)
Record parse_outcome : Type := mk_outcome {
  root : option cJSON;
  error_ptr : option text;
  parse_end : option text
}.

Definition cJSON_ParseWithOpts (value : text) (require_null_terminated : bool)
  : parse_outcome :=
  let c := cJSON_New_Item in
  match parse_value (S (List.length value)) c (skip value) with
  | Parsed c end_ =>
    if require_null_terminated then
      let end_ := skip end_ in
      if negb (Ascii.eqb (deref end_) NUL) then mk_outcome None (Some end_) None
      else mk_outcome (Some c) None (Some end_)
    else mk_outcome (Some c) None (Some end_)
  | Failed ep => mk_outcome None ep None
  | Undefined => mk_outcome None None None
  | Unfinished => mk_outcome None None None
  end.

Definition cJSON_Parse (value : text) : option cJSON :=
  root (cJSON_ParseWithOpts value false).

(** The offset of a pointer into [value]. *)
Definition offset_in (value ptr : text) : Z :=
  Z.of_nat (List.length value) - Z.of_nat (List.length ptr).

(** ** String codec: [print_string_ptr] (the allocating path) *)

Definition needs_escape (c : ascii) : bool :=
  ((0 <? code c) && (code c <? 32)) || Ascii.eqb c dquote || Ascii.eqb c backslash.

Definition hex_char (d : Z) : ascii :=
  nth (Z.to_nat d) (lit "0123456789abcdef") "0"%char.

(** [sprintf(ptr2, "u%04x", token)] for a token below 65536. *)
Definition sprintf_u04x (token : Z) : text :=
  "u"%char :: map hex_char
    [token / 4096 mod 16; token / 256 mod 16; token / 16 mod 16; token mod 16].

Definition escape_char (c : ascii) : text :=
  if (31 <? code c) && negb (Ascii.eqb c dquote) && negb (Ascii.eqb c backslash)
  then [c]
  else backslash ::
    (if Ascii.eqb c backslash then [backslash]
     else if Ascii.eqb c dquote then [dquote]
     else if Ascii.eqb c (char_of 8) then ["b"%char]
     else if Ascii.eqb c (char_of 12) then ["f"%char]
     else if Ascii.eqb c (char_of 10) then ["n"%char]
     else if Ascii.eqb c (char_of 13) then ["r"%char]
     else if Ascii.eqb c (char_of 9) then ["t"%char]
     else sprintf_u04x (code c)).

(** The copying loop of the escaping path, up to the terminator. *)
Fixpoint escape_loop (ptr : text) : text :=
  match ptr with
  | [] => []
  | c :: ptr' => if Ascii.eqb c NUL then [] else escape_char c ++ escape_loop ptr'
  end.

Definition print_string_ptr (str : text) : text :=
  let flag := existsb needs_escape (c_str str) in
  if negb flag then dquote :: c_str str ++ [dquote]
  else dquote :: escape_loop str ++ [dquote].

(** ** Serializer (the allocating path, [p == 0])

    [None] is a null return.  With an allocator that does not fail it
    arises only from a null [valuestring] or [string], which the source
    dereferences. *)

Definition print_string (item : cJSON) : option text :=
  print_string_ptr <$> valuestring item.

Definition print_number (item : cJSON) : option text :=
  Some (print_number_fields (valuedouble item) (valueint item)).

Definition tabs (n : Z) : text := replicate (Z.to_nat n) (char_of 9).

(** Gathering [entries]: the first failure makes the whole call fail. *)
Fixpoint all_some {A : Type} (l : list (option A)) : option (list A) :=
  match l with
  | [] => Some []
  | None :: _ => None
  | Some x :: l' => match all_some l' with Some xs => Some (x :: xs) | None => None end
  end.

(** The composing loop of [print_array]: [i != numentries-1] holds when
    entries remain. *)
Fixpoint compose_array (fmt : bool) (entries : list text) : text :=
  match entries with
  | [] => []
  | e :: rest =>
    e ++ (if rest is [] then []
          else ","%char :: (if fmt then [" "%char] else []))
      ++ compose_array fmt rest
  end.

(** The composing loop of [print_object] over [names[i]], [entries[i]];
    [depth] has already been incremented. *)
Fixpoint compose_object (fmt : bool) (depth : Z) (members : list (text * text))
  : text :=
  match members with
  | [] => []
  | (name, entry) :: rest =>
    (if fmt then tabs depth else []) ++ name ++ ":"%char ::
    (if fmt then [char_of 9] else []) ++ entry ++
    (if rest is [] then [] else [","%char]) ++
    (if fmt then [char_of 10] else []) ++
    compose_object fmt depth rest
  end.

Section PrintContainers.
(** [print_value] at the depth and format of the children. *)
Variable print_value : cJSON -> option text.

Definition print_array (item : cJSON) (fmt : bool) : option text :=
  let numentries := List.length (child item) in
  if (numentries =? 0)%nat then Some (lit "[]")
  else
    match all_some (map print_value (child item)) with
    | None => None
    | Some entries => Some ("["%char :: compose_array fmt entries ++ ["]"%char])
    end.

Definition print_object (item : cJSON) (depth : Z) (fmt : bool) : option text :=
  let numentries := List.length (child item) in
  if (numentries =? 0)%nat then
    Some ("{"%char :: (if fmt then char_of 10 :: tabs (depth - 1) else [])
                   ++ ["}"%char])
  else
    let depth := depth + 1 in
    let names := map (fun c => print_string_ptr <$> keystring c) (child item) in
    let entries := map print_value (child item) in
    match all_some names, all_some entries with
    | Some names, Some entries =>
      Some ("{"%char :: (if fmt then [char_of 10] else [])
              ++ compose_object fmt depth (zip names entries)
              ++ (if fmt then tabs (depth - 1) else []) ++ ["}"%char])
    | _, _ => None
    end.
End PrintContainers.

Fixpoint print_value (item : cJSON) (depth : Z) (fmt : bool) {struct item}
  : option text :=
  match type item with
  | cJSON_NULL => Some (lit "null")
  | cJSON_False => Some (lit "false")
  | cJSON_True => Some (lit "true")
  | cJSON_Number => print_number item
  | cJSON_String => print_string item
  | cJSON_Array => print_array (fun c => print_value c (depth + 1) fmt) item fmt
  | cJSON_Object =>
    print_object (fun c => print_value c (depth + 1) fmt) item depth fmt
  end.


(** ** Growable print buffer

    The storage is a list of cells; a cell that was never written since
    its allocation is [None].  A pointer into the storage is an index.
    The field [length] of the source is [buflen]. *)

Definition cell : Type := option ascii.

Record printbuffer : Type := mk_printbuffer {
  buffer : option (list cell);
  buflen : Z;
  offset : Z
}.

(** [pow2gt] on 32-bit [int]; shifting a negative [int] right is
    arithmetic, as compilers implement it. *)
Definition pow2gt (x : Z) : Z :=
  let x := wrap_int (x - 1) in
  let x := Z.lor x (Z.shiftr x 1) in
  let x := Z.lor x (Z.shiftr x 2) in
  let x := Z.lor x (Z.shiftr x 4) in
  let x := Z.lor x (Z.shiftr x 8) in
  let x := Z.lor x (Z.shiftr x 16) in
  wrap_int (x + 1).

(** [memcpy(dst, src, n)] on storages. *)
Definition memcpy (dst src : list cell) (n : Z) : list cell :=
  take (Z.to_nat n) src ++ drop (Z.to_nat n) dst.

Section Ensure.
(** The allocator hook: [cJSON_malloc sz] is the fresh storage or a
    failure. *)
Variable cJSON_malloc : Z -> option (list cell).

(** [ensure]: the returned pointer ([None] for a null return) and the
    buffer afterwards. *)
Definition ensure (p : printbuffer) (needed : Z) : option Z * printbuffer :=
  match buffer p with
  | None => (None, p)
  | Some old =>
    let needed := wrap_int (needed + offset p) in
    if needed <=? buflen p then (Some (offset p), p)
    else
      let newsize := pow2gt needed in
      match cJSON_malloc newsize with
      | None => (None, mk_printbuffer None 0 (offset p))
      | Some newbuffer =>
        let newbuffer := memcpy newbuffer old (buflen p) in
        (Some (offset p), mk_printbuffer (Some newbuffer) newsize (offset p))
      end
  end.
End Ensure.

(** An allocator that returns storage of the requested size whenever it
    returns any. *)
Definition allocator_sound (cJSON_malloc : Z -> option (list cell)) : Prop :=
  forall sz st, cJSON_malloc sz = Some st -> Z.of_nat (List.length st) = sz.

(** The system allocator when memory is available: fresh, unwritten
    storage. *)
Definition fresh_storage (sz : Z) : option (list cell) :=
  if 0 <=? sz then Some (replicate (Z.to_nat sz) None) else None.

(** The bytes free behind the used part of the buffer. *)
Definition available (p : printbuffer) : Z := buflen p - offset p.

(** A buffer whose fields describe its storage. *)
Definition buffer_live (p : printbuffer) (cells : list cell) : Prop :=
  buffer p = Some cells /\ buflen p = Z.of_nat (List.length cells) /\
  0 <= offset p.

(** [n] is the least power of two that is at least [x]. *)
Definition least_pow2_above (x n : Z) : Prop :=
  exists k, 0 <= k /\ n = 2 ^ k /\ x <= n /\
            forall j, 0 <= j -> x <= 2 ^ j -> n <= 2 ^ j.

(** The contract of [ensure] as the specification words it, for any
    buffer state and any size: success leaves at least [needed] free
    bytes, failure leaves storage and capacity cleared. *)
Definition ensure_as_claimed (cJSON_malloc : Z -> option (list cell))
           (p : printbuffer) (needed : Z) : Prop :=
  match ensure cJSON_malloc p needed with
  | (Some _, p') => needed <= available p'
  | (None, p') => buffer p' = None /\ buflen p' = 0
  end.

(** ** Creation and appending on trees

    The functions that build a tree, on the tree model: a node is a
    record and the sibling chain of a parent is its list [child].  The
    same operations on the linked representation, with [next] and
    [prev], are in the module [Links] below. *)

Definition cJSON_CreateNull : cJSON := set_type cJSON_New_Item cJSON_NULL.
Definition cJSON_CreateTrue : cJSON := set_type cJSON_New_Item cJSON_True.
Definition cJSON_CreateFalse : cJSON := set_type cJSON_New_Item cJSON_False.
Definition cJSON_CreateNumber (num : double) : cJSON :=
  set_valueint (set_valuedouble (set_type cJSON_New_Item cJSON_Number) num)
               (to_int num).
(** [cJSON_strdup] copies up to the terminator. *)
Definition cJSON_CreateString (string : text) : cJSON :=
  set_valuestring (set_type cJSON_New_Item cJSON_String) (Some (c_str string)).
Definition cJSON_CreateArray : cJSON := set_type cJSON_New_Item cJSON_Array.
Definition cJSON_CreateObject : cJSON := set_type cJSON_New_Item cJSON_Object.

(** [cJSON_AddItemToArray]: the item goes behind the last child. *)
Definition cJSON_AddItemToArray (array item : cJSON) : cJSON :=
  set_child array (child array ++ [item]).

Definition cJSON_AddItemToObject (object : cJSON) (string : text) (item : cJSON)
  : cJSON :=
  cJSON_AddItemToArray object (set_keystring item (Some (c_str string))).

(** [cJSON_GetArraySize], [cJSON_GetArrayItem]: for a negative or zero
    index the loop does not move and the first child is returned. *)
Definition cJSON_GetArraySize (array : cJSON) : Z :=
  Z.of_nat (List.length (child array)).

Definition cJSON_GetArrayItem (array : cJSON) (item : Z) : option cJSON :=
  child array !! Z.to_nat item.

(** ** Reference notions used by the statements *)

(** UTF-8 as the standard defines it, by the magnitude of the code
    point; stated with division and remainder, independently of the
    shifts and masks of [parse_string]. *)
Definition utf8_encode (cp : Z) : list ascii :=
  if cp <? 0x80 then [char_of cp]
  else if cp <? 0x800 then
    [char_of (0xC0 + cp / 64); char_of (0x80 + cp mod 64)]
  else if cp <? 0x10000 then
    [char_of (0xE0 + cp / 4096); char_of (0x80 + cp / 64 mod 64);
     char_of (0x80 + cp mod 64)]
  else
    [char_of (0xF0 + cp / 262144); char_of (0x80 + cp / 4096 mod 64);
     char_of (0x80 + cp / 64 mod 64); char_of (0x80 + cp mod 64)].

Definition is_hex (c : ascii) : bool :=
  match hex_value c with Some _ => true | None => false end.

Definition high_surrogate (uc : Z) : Prop := 0xD800 <= uc <= 0xDBFF.
Definition low_surrogate (uc : Z) : Prop := 0xDC00 <= uc <= 0xDFFF.

(** The text of an escape: a backslash, [u] and four characters. *)
Definition u_escape (c1 c2 c3 c4 : ascii) : text :=
  [backslash; "u"%char; c1; c2; c3; c4].

(** The characters that stand for themselves inside a string: not the
    quote that ends it, not NUL, not the backslash that starts an
    escape. *)
Definition literal_char (c : ascii) : bool :=
  negb (Ascii.eqb c dquote) && negb (Ascii.eqb c NUL)
  && negb (Ascii.eqb c backslash).

(** A double whose value is an integer. *)
Definition whole_valued (d : double) : bool :=
  match d with
  | S754_zero _ => true
  | S754_finite s m e => let '(num, den) := fraction_of m e in num mod den =? 0
  | _ => false
  end.

Definition finite (d : double) : bool :=
  match d with
  | S754_zero _ | S754_finite _ _ _ => true
  | _ => false
  end.

(** The tests of [print_number]. *)
Definition int_like (d : double) (valueint : Z) : bool :=
  dleb (fabs (dsub (of_int valueint) d)) DBL_EPSILON
  && dleb d (of_int INT_MAX) && dleb (of_int INT_MIN) d.

Definition near_floor (d : double) : bool :=
  dleb (fabs (dsub (floor d) d)) DBL_EPSILON.

(** The policy of [print_number] as the specification words it: the
    third case is taken by the whole-valued doubles. *)
Definition print_number_as_claimed (d : double) (valueint : Z) : text :=
  if deqb d (of_int 0) then lit "0"
  else if int_like d valueint then sprintf_d valueint
  else if whole_valued d && dltb (fabs d) (decimal_literal 1 60) then sprintf_f 0 d
  else if dltb (fabs d) (decimal_literal 1 (-6))
          || dltb (decimal_literal 1 9) (fabs d)
  then sprintf_e d
  else sprintf_f 6 d.

(** A text made of an optional minus sign and decimal digits: no
    decimal point, no exponent. *)
Definition plain_integer (t : text) : Prop :=
  Forall (fun c => c = "-"%char \/ is_digit c = true) t.

(** ** Layout of the pretty output *)

Definition tab : ascii := char_of 9.
Definition newline : ascii := char_of 10.






(** ** Round trip *)

(** The characters that may not follow the text of a number, because
    [parse_number] would read them as part of it: a digit, a point, an
    exponent mark. *)
Definition ends_number (rest : text) : bool :=
  negb (is_digit (deref rest)) && negb (Ascii.eqb (deref rest) ".")
  && negb (Ascii.eqb (deref rest) "e") && negb (Ascii.eqb (deref rest) "E").

(** A number that [parse_number] reads back from what [print_number]
    writes, whatever text follows that cannot continue a number. *)
Definition number_stable (d : double) (valueint : Z) : Prop :=
  forall rest, ends_number rest = true ->
    parse_number_fields (print_number_fields d valueint ++ rest)
    = (d, valueint, rest).

(** The value of a digit string read after the integer [acc]. *)
Definition digits_value (ds : text) (acc : Z) : Z :=
  fold_left (fun a c => a * 10 + (code c - code "0")) ds acc.














(** Helpers of the exactness proofs on doubles: [q] shifted left by [k]
    bits, and the double that holds the integer [v] with sign [s]. *)
Definition pshl (q : positive) (k : nat) : positive := Nat.iter k xO q.

Definition canon (s : bool) (v : positive) : double :=
  S754_finite s (pshl v (Z.to_nat (53 - Zpos (digits2_pos v))))
              (Zpos (digits2_pos v) - 53).

Definition whitespace (c : ascii) : Prop := 0 < code c <= 32.





(** A sample tree: an object with a number member and an array member
    that holds a string with a backslash and a null. *)
Definition sample_tree : cJSON :=
  cJSON_AddItemToObject
    (cJSON_AddItemToObject cJSON_CreateObject (lit "id")
       (cJSON_CreateNumber (of_int (-7))))
    (lit "tags")
    (cJSON_AddItemToArray
       (cJSON_AddItemToArray cJSON_CreateArray (cJSON_CreateString (lit "a\b")))
       cJSON_CreateNull).

(** ** Key comparison *)

(** [tolower] in the C locale. *)
Definition tolower (c : ascii) : ascii :=
  if in_range "A" "Z" c then char_of (code c + 32) else c.

(** The loop of [cJSON_strcasecmp] on two non-null strings: zero when
    they agree up to case, otherwise the difference of the first two
    lowered characters that differ. *)
Fixpoint strcasecmp_loop (s1 s2 : text) {struct s1} : Z :=
  if Ascii.eqb (tolower (deref s1)) (tolower (deref s2)) then
    match s1 with
    | [] => 0
    | c :: s1' => if Ascii.eqb c NUL then 0 else strcasecmp_loop s1' (drop 1 s2)
    end
  else code (tolower (deref s1)) - code (tolower (deref s2)).

(** [cJSON_strcasecmp]; [None] is the null pointer. *)
Definition cJSON_strcasecmp (s1 s2 : option text) : Z :=
  match s1, s2 with
  | None, None => 0
  | None, Some _ => 1
  | Some _, None => 1
  | Some s1, Some s2 => strcasecmp_loop s1 s2
  end.

(** ** The linked representation

    The nodes of a tree in memory: a heap maps the address of a node to
    its link fields, its flags and its key.  [None] is the null
    pointer.  A computation on the heap returns [None] when the code
    would dereference a pointer that is null or not allocated, free a
    node twice, or loop for ever; the loops that follow [next] pointers
    are given as many steps as the heap has nodes plus one, which they
    can only exhaust on a cycle. *)
Module Links.

Abbreviation ptr := nat (only parsing).

Record node : Type := mk_node {
  next : option ptr;
  prev : option ptr;
  child : option ptr;
  is_reference : bool;
  keystring : option text
}.

Abbreviation heap := (gmap nat node) (only parsing).

Definition set_next (v : option ptr) (n : node) : node :=
  mk_node v (prev n) (child n) (is_reference n) (keystring n).
Definition set_prev (v : option ptr) (n : node) : node :=
  mk_node (next n) v (child n) (is_reference n) (keystring n).
Definition set_child (v : option ptr) (n : node) : node :=
  mk_node (next n) (prev n) v (is_reference n) (keystring n).
Definition set_keystring (v : option text) (n : node) : node :=
  mk_node (next n) (prev n) (child n) (is_reference n) v.

(** Computations on the heap. *)
Definition M (A : Type) : Type := heap -> option (A * heap).

Definition ret {A : Type} (a : A) : M A := fun h => Some (a, h).

Definition bind {A B : Type} (m : M A) (f : A -> M B) : M B :=
  fun h => match m h with
           | Some (a, h') => f a h'
           | None => None
           end.

Definition fault {A : Type} : M A := fun _ => None.

#[global] Instance M_ret : MRet M := @ret.
#[global] Instance M_bind : MBind M := fun A B f m => bind m f.

(** A read of a field through a pointer, a write of a field, the
    release of a node. *)
Definition read {A : Type} (p : ptr) (field : node -> A) : M A :=
  fun h => match h !! p with
           | Some n => Some (field n, h)
           | None => None
           end.

Definition write (p : ptr) (f : node -> node) : M unit :=
  fun h => match h !! p with
           | Some n => Some (tt, <[p := f n]> h)
           | None => None
           end.

Definition cJSON_free (p : ptr) : M unit :=
  fun h => match h !! p with
           | Some _ => Some (tt, delete p h)
           | None => None
           end.

(** The steps granted to a loop over [next] pointers. *)
Definition with_steps {A : Type} (loop : nat -> M A) : M A :=
  fun h => loop (S (size h)) h.

(** [cJSON_Delete]: the siblings from [c] on and, unless the node is a
    reference, their children. *)
Fixpoint cJSON_Delete_loop (fuel : nat) (c : option ptr) : M unit :=
  match fuel with
  | O => fault
  | S fuel =>
    match c with
    | None => ret tt
    | Some c =>
      nxt ← read c next;
      ref ← read c is_reference;
      ch ← read c child;
      (if negb ref && bool_decide (ch <> None)
       then cJSON_Delete_loop fuel ch else ret tt) ;;
      cJSON_free c ;;
      cJSON_Delete_loop fuel nxt
    end
  end.

Definition cJSON_Delete (c : option ptr) : M unit :=
  with_steps (fun fuel => cJSON_Delete_loop fuel c).

(** [suffix_object]. *)
Definition suffix_object (prev item : ptr) : M unit :=
  write prev (set_next (Some item)) ;;
  write item (set_prev (Some prev)).

(** The loop of [cJSON_AddItemToArray], from a non-null [c] to the last
    sibling. *)
Fixpoint last_sibling (fuel : nat) (c : ptr) : M ptr :=
  match fuel with
  | O => fault
  | S fuel =>
    nxt ← read c next;
    match nxt with
    | None => ret c
    | Some c' => last_sibling fuel c'
    end
  end.

Definition cJSON_AddItemToArray (array : ptr) (item : option ptr) : M unit :=
  c ← read array child;
  match item with
  | None => ret tt
  | Some item =>
    match c with
    | None => write array (set_child (Some item))
    | Some c =>
      c ← with_steps (fun fuel => last_sibling fuel c);
      suffix_object c item
    end
  end.

(** [cJSON_strdup] is taken to succeed. *)
Definition cJSON_AddItemToObject (object : ptr) (string : text)
           (item : option ptr) : M unit :=
  match item with
  | None => ret tt
  | Some it =>
    write it (set_keystring (Some (c_str string))) ;;
    cJSON_AddItemToArray object item
  end.

(** The loop that steps to the child of index [which]: at most [which]
    steps, none for a negative index. *)
Fixpoint nth_sibling (which : nat) (c : option ptr) : M (option ptr) :=
  match which with
  | O => ret c
  | S which =>
    match c with
    | None => ret None
    | Some p => nxt ← read p next; nth_sibling which nxt
    end
  end.

Definition cJSON_DetachItemFromArray (array : ptr) (which : Z)
  : M (option ptr) :=
  c ← read array child;
  c ← nth_sibling (Z.to_nat which) c;
  match c with
  | None => ret None
  | Some c =>
    c_prev ← read c prev;
    (match c_prev with
     | Some p => c_next ← read c next; write p (set_next c_next)
     | None => ret tt
     end) ;;
    c_next ← read c next;
    (match c_next with
     | Some q => c_prev ← read c prev; write q (set_prev c_prev)
     | None => ret tt
     end) ;;
    first ← read array child;
    (if bool_decide (Some c = first)
     then c_next ← read c next; write array (set_child c_next)
     else ret tt) ;;
    write c (set_next None) ;;
    write c (set_prev None) ;;
    ret (Some c)
  end.

Definition cJSON_DeleteItemFromArray (array : ptr) (which : Z) : M unit :=
  c ← cJSON_DetachItemFromArray array which;
  cJSON_Delete c.

(** The loop that looks for the first child whose key is [string] up to
    case, counting the children passed in an [int]. *)
Fixpoint find_key (fuel : nat) (c : option ptr) (string : text) (i : Z)
  : M (option ptr * Z) :=
  match fuel with
  | O => fault
  | S fuel =>
    match c with
    | None => ret (None, i)
    | Some p =>
      k ← read p keystring;
      if cJSON_strcasecmp k (Some string) =? 0 then ret (Some p, i)
      else nxt ← read p next; find_key fuel nxt string (wrap_int (i + 1))
    end
  end.

Definition cJSON_DetachItemFromObject (object : ptr) (string : text)
  : M (option ptr) :=
  c ← read object child;
  r ← with_steps (fun fuel => find_key fuel c string 0);
  match r.1 with
  | Some _ => cJSON_DetachItemFromArray object r.2
  | None => ret None
  end.

Definition cJSON_DeleteItemFromObject (object : ptr) (string : text) : M unit :=
  c ← cJSON_DetachItemFromObject object string;
  cJSON_Delete c.

Definition cJSON_InsertItemInArray (array : ptr) (which : Z)
           (newitem : option ptr) : M unit :=
  c ← read array child;
  c ← nth_sibling (Z.to_nat which) c;
  match c with
  | None => cJSON_AddItemToArray array newitem
  | Some c =>
    match newitem with
    | None => fault
    | Some newitem =>
      write newitem (set_next (Some c)) ;;
      c_prev ← read c prev;
      write newitem (set_prev c_prev) ;;
      write c (set_prev (Some newitem)) ;;
      first ← read array child;
      if bool_decide (Some c = first)
      then write array (set_child (Some newitem))
      else
        new_prev ← read newitem prev;
        match new_prev with
        | Some p => write p (set_next (Some newitem))
        | None => fault
        end
    end
  end.

Definition cJSON_ReplaceItemInArray (array : ptr) (which : Z)
           (newitem : option ptr) : M unit :=
  c ← read array child;
  c ← nth_sibling (Z.to_nat which) c;
  match c with
  | None => ret tt
  | Some c =>
    match newitem with
    | None => fault
    | Some newitem =>
      c_next ← read c next;
      write newitem (set_next c_next) ;;
      c_prev ← read c prev;
      write newitem (set_prev c_prev) ;;
      new_next ← read newitem next;
      (match new_next with
       | Some q => write q (set_prev (Some newitem))
       | None => ret tt
       end) ;;
      first ← read array child;
      (if bool_decide (Some c = first)
       then write array (set_child (Some newitem))
       else
         new_prev ← read newitem prev;
         match new_prev with
         | Some p => write p (set_next (Some newitem))
         | None => fault
         end) ;;
      write c (set_next None) ;;
      write c (set_prev None) ;;
      cJSON_Delete (Some c)
    end
  end.

Definition cJSON_ReplaceItemInObject (object : ptr) (string : text)
           (newitem : option ptr) : M unit :=
  c ← read object child;
  r ← with_steps (fun fuel => find_key fuel c string 0);
  match r.1 with
  | Some _ =>
    match newitem with
    | None => fault
    | Some it =>
      write it (set_keystring (Some (c_str string))) ;;
      cJSON_ReplaceItemInArray object r.2 newitem
    end
  | None => ret tt
  end.

(** [cJSON_GetArraySize], with its [int] counter, and
    [cJSON_GetArrayItem]. *)
Fixpoint count_siblings (fuel : nat) (c : option ptr) (i : Z) : M Z :=
  match fuel with
  | O => fault
  | S fuel =>
    match c with
    | None => ret i
    | Some p => nxt ← read p next; count_siblings fuel nxt (wrap_int (i + 1))
    end
  end.

Definition cJSON_GetArraySize (array : ptr) : M Z :=
  c ← read array child;
  with_steps (fun fuel => count_siblings fuel c 0).

Definition cJSON_GetArrayItem (array : ptr) (item : Z) : M (option ptr) :=
  c ← read array child;
  nth_sibling (Z.to_nat item) c.

Definition cJSON_GetObjectItem (object : ptr) (string : text) : M (option ptr) :=
  c ← read object child;
  r ← with_steps (fun fuel => find_key fuel c string 0);
  ret r.1.

(** *** The sibling-list invariant *)

(** Modelled from the spec: the nodes of [l], in this order, are linked
    from [first] by [next], each one's [prev] is the node before it
    ([before] for the first), and the [next] of the last is [after]. *)
Fixpoint dlseg (h : heap) (first before : option ptr) (l : list ptr)
         (after : option ptr) : Prop :=
  match l with
  | [] => first = after
  | p :: l' =>
    first = Some p /\
    exists n, h !! p = Some n /\ prev n = before /\
              dlseg h (next n) (Some p) l' after
  end.

(** Modelled from the spec: the children of [parent] are the nodes of
    [l]: a doubly linked list from the [child] pointer, ended by null
    links at both ends, without repetition. *)
Definition siblings (h : heap) (parent : ptr) (l : list ptr) : Prop :=
  exists a, h !! parent = Some a /\ dlseg h (child a) None l None /\ NoDup l.

(** Modelled from the spec: the invariant in the words of the
    specification, for the children [l] of [parent]: [next] and [prev]
    mirror each other, and the first child is the one child whose
    [prev] is unset. *)
Definition linked_as_claimed (h : heap) (parent : ptr) (l : list ptr) : Prop :=
  (forall a b na nb,
     a ∈ l -> b ∈ l -> h !! a = Some na -> h !! b = Some nb ->
     (next na = Some b <-> prev nb = Some a)) /\
  (forall c nc np,
     c ∈ l -> h !! c = Some nc -> h !! parent = Some np ->
     (prev nc = None <-> child np = Some c)).

(** Modelled from the spec: the invariant for every operation, as the
    claim has it: whatever node is handed in. *)
Definition append_preserves_invariant_as_claimed : Prop :=
  forall h array l item h',
    siblings h array l ->
    cJSON_AddItemToArray array (Some item) h = Some (tt, h') ->
    exists l', siblings h' array l'.

(** A node that is in no list: both links are null. *)
Definition detached (h : heap) (item : ptr) : Prop :=
  exists n, h !! item = Some n /\ next n = None /\ prev n = None.

(** What an operation on the children of [array] leaves alone: only
    the nodes of [freed] are released, [child] changes in [array] only,
    the links change only in the nodes of [touched], and no flag
    changes. *)
Definition modifies (h h' : heap) (array : ptr) (touched freed : list ptr)
  : Prop :=
  forall q n, h !! q = Some n -> q ∉ freed ->
    exists n', h' !! q = Some n' /\
      (q <> array -> child n' = child n) /\
      (q ∉ touched -> next n' = next n /\ prev n' = prev n) /\
      is_reference n' = is_reference n.

(** The keys of the nodes of [l]. *)
Definition key_of (h : heap) (p : ptr) : option text :=
  match h !! p with
  | Some n => keystring n
  | None => None
  end.

Definition keys_of (h : heap) (l : list ptr) : list (option text) :=
  map (key_of h) l.

(** The index of the first key of [keys] equal to [string] up to
    case. *)
Fixpoint key_index (keys : list (option text)) (string : text) : option nat :=
  match keys with
  | [] => None
  | k :: keys =>
    if cJSON_strcasecmp k (Some string) =? 0 then Some O
    else S <$> key_index keys string
  end.

(** A chain of siblings with all their descendants, as a tree that
    owns the nodes of [footprint], each one once. *)
Inductive owned (h : heap) : option ptr -> list ptr -> Prop :=
  | owned_null : owned h None []
  | owned_node p n below after :
      h !! p = Some n ->
      owned h (if is_reference n then None else child n) below ->
      owned h (next n) after ->
      p ∉ below ++ after ->
      (forall x, x ∈ below -> x ∉ after) ->
      owned h (Some p) (p :: below ++ after).

(** Helpers of the proofs: the node at [p] changed by [g], when it is
    allocated; the same for a pointer that may be null; the view of one
    field of the heap; the heap without the nodes of [freed]. *)
Definition upd (p : ptr) (g : node -> node) (h : heap) : heap :=
  match h !! p with
  | Some n => <[p := g n]> h
  | None => h
  end.

Definition upd_o (po : option ptr) (g : node -> node) (h : heap) : heap :=
  match po with
  | Some p => upd p g h
  | None => h
  end.

Definition fldf {A : Type} (fld : node -> A) (h : heap) (q : ptr) : option A :=
  fld <$> h !! q.

Definition release (freed : list ptr) (h : heap) : heap :=
  foldr delete h freed.

Definition head_or (e : option ptr) (l : list ptr) : option ptr :=
  match l with
  | p :: _ => Some p
  | [] => e
  end.

Definition last_or (b : option ptr) (l : list ptr) : option ptr :=
  match last l with
  | Some p => Some p
  | None => b
  end.

(** Sample heaps: an array at address 0 whose only child is the node at
    address 1; and an object at address 0 with the members 1 (key a),
    2 (key b, itself the parent of the leaf 5) and 3 (key c), and a
    detached node 4. *)
Definition two_nodes : heap :=
  <[0%nat := mk_node None None (Some 1%nat) false None]>
    (<[1%nat := mk_node None None None false None]> ∅).

Definition sample_heap : heap :=
  <[0%nat := mk_node None None (Some 1%nat) false None]>
    (<[1%nat := mk_node (Some 2%nat) None None false (Some (lit "a"))]>
       (<[2%nat := mk_node (Some 3%nat) (Some 1%nat) (Some 5%nat) false
                           (Some (lit "b"))]>
          (<[3%nat := mk_node None (Some 2%nat) None false (Some (lit "c"))]>
             (<[4%nat := mk_node None None None false None]>
                (<[5%nat := mk_node None None None false None]> ∅))))).

End Links.

(** ** Serializer (the buffered path, [p != 0])

    The printing functions when they are handed a [printbuffer].  A
    pointer into the storage is an index, [None] the null pointer.  A
    computation returns [None] where the code's behaviour is undefined:
    a store outside the storage, a read of a cell that was never
    written, a dereference of a null string, an [int] that overflows.
    Stores through a pointer that is incremented after each one are
    taken together as one store of the characters. *)

Definition Buf (A : Type) : Type := printbuffer -> option (A * printbuffer).

#[global] Instance Buf_ret : MRet Buf := fun A a p => Some (a, p).
#[global] Instance Buf_bind : MBind Buf :=
  fun A B f m p => match m p with
                   | Some (a, p') => f a p'
                   | None => None
                   end.

Definition undefined {A : Type} : Buf A := fun _ => None.

(** The characters [s] stored from the position [ptr] on. *)
Definition store (ptr : Z) (s : text) : Buf unit :=
  fun p =>
    match buffer p with
    | Some cells =>
      if (0 <=? ptr) && (ptr + Z.of_nat (List.length s) <=? Z.of_nat (List.length cells))
      then Some (tt, mk_printbuffer
                       (Some (take (Z.to_nat ptr) cells ++ map Some s
                                ++ drop (Z.to_nat ptr + List.length s) cells))
                       (buflen p) (offset p))
      else None
    | None => None
    end.

(** [p->offset += n] *)
Definition advance (n : Z) : Buf unit :=
  fun p =>
    if (INT_MIN <=? offset p + n) && (offset p + n <=? INT_MAX)
    then Some (tt, mk_printbuffer (buffer p) (buflen p) (offset p + n))
    else None.

Definition get_offset : Buf Z := fun p => Some (offset p, p).

Definition set_offset (o : Z) : Buf unit :=
  fun p => Some (tt, mk_printbuffer (buffer p) (buflen p) o).

(** [strlen] on the cells from a position on. *)
Fixpoint strlen (cells : list cell) : option Z :=
  match cells with
  | Some c :: cells' =>
    if Ascii.eqb c NUL then Some 0
    else match strlen cells' with
         | Some n => Some (n + 1)
         | None => None
         end
  | _ => None
  end.

(** [update] *)
Definition update : Buf Z :=
  fun p =>
    match buffer p with
    | None => Some (0, p)
    | Some cells =>
      if 0 <=? offset p then
        match strlen (drop (Z.to_nat (offset p)) cells) with
        | Some n => Some (wrap_int (offset p + n), p)
        | None => None
        end
      else None
    end.

(** The C string read from the position [ptr] on. *)
Fixpoint string_at (cells : list cell) : option text :=
  match cells with
  | Some c :: cells' =>
    if Ascii.eqb c NUL then Some []
    else match string_at cells' with
         | Some s => Some (c :: s)
         | None => None
         end
  | _ => None
  end.

(** The counting loop of the escaping path of [print_string_ptr]. *)
Fixpoint escaped_length (ptr : text) : Z :=
  match ptr with
  | [] => 0
  | token :: ptr' =>
    if Ascii.eqb token NUL then 0
    else
      1 + (if existsb (Ascii.eqb token)
                      [dquote; backslash; char_of 8; char_of 12; char_of 10;
                       char_of 13; char_of 9]
           then 1
           else if code token <? 32 then 5 else 0)
        + escaped_length ptr'
  end.

Section BufferedPrinter.
(** The allocator hook. *)
Variable cJSON_malloc : Z -> option (list cell).

Definition ensure_b (needed : Z) : Buf (option Z) :=
  fun p => Some (ensure cJSON_malloc p needed).

(** [str = ensure(p, needed); if (str) strcpy(str, s);] and the like:
    the characters of [s] and the terminator. *)
Definition ensure_and_copy (needed : Z) (s : text) : Buf (option Z) :=
  str ← ensure_b needed;
  match str with
  | Some ptr => store ptr (s ++ [NUL]);; mret str
  | None => mret None
  end.

Definition print_number_b (item : cJSON) : Buf (option Z) :=
  let d := valuedouble item in
  if deqb d (of_int 0) then ensure_and_copy 2 (lit "0")
  else if dleb (fabs (dsub (of_int (valueint item)) d)) DBL_EPSILON
          && dleb d (of_int INT_MAX) && dleb (of_int INT_MIN) d
  then ensure_and_copy 21 (sprintf_d (valueint item))
  else
    ensure_and_copy 64
      (if dleb (fabs (dsub (floor d) d)) DBL_EPSILON
          && dltb (fabs d) (decimal_literal 1 60)
       then sprintf_f 0 d
       else if dltb (fabs d) (decimal_literal 1 (-6))
               || dltb (decimal_literal 1 9) (fabs d)
       then sprintf_e d
       else sprintf_f 6 d).

Definition print_string_ptr_b (str : option text) : Buf (option Z) :=
  match str with
  | None => undefined
  | Some str =>
    let flag := existsb needs_escape (c_str str) in
    if negb flag then
      let len := Z.of_nat (List.length (c_str str)) in
      ensure_and_copy (len + 3) (dquote :: c_str str ++ [dquote])
    else
      let len := escaped_length str in
      ensure_and_copy (len + 3) (dquote :: escape_loop str ++ [dquote])
  end.

Definition print_string_b (item : cJSON) : Buf (option Z) :=
  print_string_ptr_b (valuestring item).

Section BufferedContainers.
(** [print_value] on the buffer at the depth and format of the
    children. *)
Variable print_value_b : cJSON -> Buf (option Z).
Variable fmt : bool.

(** The loop of [print_array] over the children; [false] when it
    leaves the function with a null return. *)
Fixpoint print_array_loop_b (children : list cJSON) : Buf bool :=
  match children with
  | [] => mret true
  | child :: rest =>
    print_value_b child;;
    o ← update;
    set_offset o;;
    match rest with
    | [] => mret true
    | _ =>
      let len := if fmt then 2 else 1 in
      ptr ← ensure_b (len + 1);
      match ptr with
      | None => mret false
      | Some ptr =>
        store ptr (","%char :: (if fmt then [" "%char] else []) ++ [NUL]);;
        advance len;;
        print_array_loop_b rest
      end
    end
  end.

Definition print_array_b (item : cJSON) : Buf (option Z) :=
  let numentries := List.length (child item) in
  if (numentries =? 0)%nat then ensure_and_copy 3 (lit "[]")
  else
    i ← get_offset;
    ptr ← ensure_b 1;
    match ptr with
    | None => mret None
    | Some ptr =>
      store ptr ["["%char];;
      advance 1;;
      ok ← print_array_loop_b (child item);
      if (ok : bool) then
        ptr ← ensure_b 2;
        match ptr with
        | None => mret None
        | Some ptr => store ptr ["]"%char; NUL];; mret (Some i)
        end
      else mret None
    end.

(** The loop of [print_object] over the children; [depth] has already
    been incremented. *)
Fixpoint print_object_loop_b (depth : Z) (children : list cJSON) : Buf bool :=
  match children with
  | [] => mret true
  | child :: rest =>
    ok ← (if fmt then
            ptr ← ensure_b depth;
            match ptr with
            | None => mret false
            | Some ptr => store ptr (tabs depth);; advance depth;; mret true
            end
          else mret true);
    if (ok : bool) then
      print_string_ptr_b (keystring child);;
      o ← update;
      set_offset o;;
      let len := if fmt then 2 else 1 in
      ptr ← ensure_b len;
      match ptr with
      | None => mret false
      | Some ptr =>
        store ptr (":"%char :: (if fmt then [char_of 9] else []));;
        advance len;;
        print_value_b child;;
        o ← update;
        set_offset o;;
        let len := (if fmt then 1 else 0) + (if rest is [] then 0 else 1) in
        ptr ← ensure_b (len + 1);
        match ptr with
        | None => mret false
        | Some ptr =>
          store ptr ((if rest is [] then [] else [","%char])
                       ++ (if fmt then [char_of 10] else []) ++ [NUL]);;
          advance len;;
          print_object_loop_b depth rest
        end
      end
    else mret false
  end.

(** In the formatted mode the loop that writes the closing indentation
    runs on the variable [i] that held the start of the object, so the
    returned pointer is the storage plus the count of that loop. *)
Definition print_object_b (item : cJSON) (depth : Z) : Buf (option Z) :=
  let numentries := List.length (child item) in
  if (numentries =? 0)%nat then
    ensure_and_copy (if fmt then depth + 4 else 3)
                    ("{"%char :: (if fmt then char_of 10 :: tabs (depth - 1) else [])
                       ++ ["}"%char])
  else
    i ← get_offset;
    let len := if fmt then 2 else 1 in
    ptr ← ensure_b (len + 1);
    match ptr with
    | None => mret None
    | Some ptr =>
      store ptr ("{"%char :: (if fmt then [char_of 10] else []) ++ [NUL]);;
      advance len;;
      let depth := depth + 1 in
      ok ← print_object_loop_b depth (child item);
      if (ok : bool) then
        ptr ← ensure_b (if fmt then depth + 1 else 2);
        match ptr with
        | None => mret None
        | Some ptr =>
          store ptr ((if fmt then tabs (depth - 1) else []) ++ ["}"%char; NUL]);;
          mret (Some (if fmt then Z.max 0 (depth - 1) else i))
        end
      else mret None
    end.
End BufferedContainers.

Fixpoint print_value_b (item : cJSON) (depth : Z) (fmt : bool) {struct item}
  : Buf (option Z) :=
  match type item with
  | cJSON_NULL => ensure_and_copy 5 (lit "null")
  | cJSON_False => ensure_and_copy 6 (lit "false")
  | cJSON_True => ensure_and_copy 5 (lit "true")
  | cJSON_Number => print_number_b item
  | cJSON_String => print_string_b item
  | cJSON_Array =>
    print_array_b (fun c => print_value_b c (depth + 1) fmt) fmt item
  | cJSON_Object =>
    print_object_b (fun c => print_value_b c (depth + 1) fmt) fmt item depth
  end.

(** [cJSON_PrintBuffered]: the text at the returned pointer; the inner
    [None] is a null return. *)
Definition cJSON_PrintBuffered (item : cJSON) (prebuffer : Z) (fmt : bool)
  : option (option text) :=
  let p := mk_printbuffer (cJSON_malloc prebuffer) prebuffer 0 in
  match print_value_b item 0 fmt p with
  | None => None
  | Some (None, _) => Some None
  | Some (Some out, p') =>
    match buffer p' with
    | Some cells =>
      if 0 <=? out then Some <$> string_at (drop (Z.to_nat out) cells)
      else None
    | None => None
    end
  end.
End BufferedPrinter.

(** Memory is available: the allocator serves every request of up to
    [2^30] bytes. *)
Definition memory_available (cJSON_malloc : Z -> option (list cell)) : Prop :=
  forall sz, 0 <= sz <= 2 ^ 30 -> is_Some (cJSON_malloc sz).

(** The room [print_number] reserves for the text of a number. *)
Definition number_room (d : double) (valueint : Z) : Z :=
  if deqb d (of_int 0) then 2
  else if dleb (fabs (dsub (of_int valueint) d)) DBL_EPSILON
          && dleb d (of_int INT_MAX) && dleb (of_int INT_MIN) d
  then 21
  else 64.

(** The text of every number of the tree, with its terminator, fits
    the room reserved for it: what keeps [sprintf] within the storage
    in either path. *)
Inductive numbers_fit : cJSON -> Prop :=
  | numbers_fit_node t :
      (type t = cJSON_Number ->
       Z.of_nat (List.length (print_number_fields (valuedouble t) (valueint t)))
       < number_room (valuedouble t) (valueint t)) ->
      Forall numbers_fit (child t) ->
      numbers_fit t.

(** Helpers of the proofs: the storage holds the characters [written]
    up to the offset, then [junk]. *)
Definition laid (p : printbuffer) (written : text) (junk : list cell) : Prop :=
  buffer p = Some (map Some written ++ junk) /\
  buflen p = Z.of_nat (List.length written + List.length junk) /\
  offset p = Z.of_nat (List.length written).

(** After a value was printed behind [pre]: the storage holds [pre],
    the text [out] and a terminator; the offset is somewhere in
    [out]. *)
Definition printed (p : printbuffer) (pre out : text) : Prop :=
  exists done rest junk,
    out = done ++ rest /\
    laid p (pre ++ done) (map Some rest ++ Some NUL :: junk).

(** The printer [pvb] of the children writes the text [e] of the child
    [c] behind whatever the storage holds. *)
Definition prints_b (pvb : cJSON -> Buf (option Z)) (c : cJSON) (e : text)
  : Prop :=
  Forall (fun x => x <> NUL) e /\
  forall p w junk,
    laid p w junk ->
    Z.of_nat (List.length w) + Z.of_nat (List.length e) + 64 <= 2 ^ 30 ->
    exists r p', pvb c p = Some (r, p') /\ printed p' w e.

(** ** Copies and minified texts *)

(** [cJSON_Duplicate] on the tree model, with an allocator that does
    not fail: kind and number fields are copied, the two strings go
    through [cJSON_strdup], and the children are copied when [recurse]
    is set. *)
Fixpoint cJSON_Duplicate (item : cJSON) (recurse : bool) {struct item} : cJSON :=
  match item with
  | mk_cJSON ch ty vs vi vd ks =>
    mk_cJSON (if recurse then map (fun c => cJSON_Duplicate c true) ch else [])
             ty (c_str <$> vs) vi vd (c_str <$> ks)
  end.

(** [cJSON_Minify] works in place: [into] never overtakes [json], so
    what is still to be read is never overwritten, and the function is
    modelled by the characters it stores through [into].  [None] stands
    for a pointer moved past the terminator. *)

(** The loop of a line comment: up to the end of the line or of the
    text. *)
Fixpoint minify_line_comment (json : text) : text :=
  match json with
  | c :: json' =>
    if Ascii.eqb c NUL || Ascii.eqb c (char_of 10) then json
    else minify_line_comment json'
  | [] => []
  end.

(** The loop of a block comment, and the two characters skipped after
    it. *)
Fixpoint minify_block_comment (json : text) : option text :=
  match json with
  | c :: json' =>
    if Ascii.eqb c NUL then None
    else if Ascii.eqb c "*" && Ascii.eqb (deref json') "/"
    then Some (drop 1 json')
    else minify_block_comment json'
  | [] => None
  end.

(** The loop of a string literal, entered behind the opening quote, and
    the copy of the closing quote: the characters copied and the
    pointer afterwards. *)
Fixpoint minify_string (json : text) : option (text * text) :=
  match json with
  | c :: json' =>
    if Ascii.eqb c NUL then None
    else if Ascii.eqb c dquote then Some ([c], json')
    else if Ascii.eqb c backslash then
      match json' with
      | c' :: json'' =>
        if Ascii.eqb c' NUL then None
        else match minify_string json'' with
             | Some (out, rest) => Some (c :: c' :: out, rest)
             | None => None
             end
      | [] => None
      end
    else match minify_string json' with
         | Some (out, rest) => Some (c :: out, rest)
         | None => None
         end
  | [] => None
  end.

Fixpoint minify_loop (fuel : nat) (json : text) : option text :=
  match fuel with
  | O => None
  | S fuel =>
    let c := deref json in
    if Ascii.eqb c NUL then Some []
    else if Ascii.eqb c " " then minify_loop fuel (drop 1 json)
    else if Ascii.eqb c (char_of 9) then minify_loop fuel (drop 1 json)
    else if Ascii.eqb c (char_of 13) then minify_loop fuel (drop 1 json)
    else if Ascii.eqb c (char_of 10) then minify_loop fuel (drop 1 json)
    else if Ascii.eqb c "/" && Ascii.eqb (deref (drop 1 json)) "/"
    then minify_loop fuel (minify_line_comment json)
    else if Ascii.eqb c "/" && Ascii.eqb (deref (drop 1 json)) "*"
    then match minify_block_comment json with
         | Some json => minify_loop fuel json
         | None => None
         end
    else if Ascii.eqb c dquote
    then match minify_string (drop 1 json) with
         | Some (copied, json) =>
           match minify_loop fuel json with
           | Some out => Some (c :: copied ++ out)
           | None => None
           end
         | None => None
         end
    else match minify_loop fuel (drop 1 json) with
         | Some out => Some (c :: out)
         | None => None
         end
  end.

(** Every iteration moves [json] by at least one character. *)
Definition cJSON_Minify (json : text) : option text :=
  minify_loop (S (List.length json)) json.

(** The characters [cJSON_Minify] copies one by one: neither blank nor
    the start of a comment or of a string. *)
Definition plain_char (c : ascii) : bool :=
  negb (Ascii.eqb c NUL) && negb (Ascii.eqb c " ")
  && negb (Ascii.eqb c (char_of 9)) && negb (Ascii.eqb c (char_of 13))
  && negb (Ascii.eqb c (char_of 10)) && negb (Ascii.eqb c "/")
  && negb (Ascii.eqb c dquote).

(** The characters dropped as blanks. *)
Definition blank_char (c : ascii) : bool :=
  Ascii.eqb c " " || Ascii.eqb c (char_of 9) || Ascii.eqb c (char_of 13)
  || Ascii.eqb c (char_of 10).

(** The text [pre], wherever it stands, is minified to [pre']: given
    the steps for what follows, there are steps for the whole. *)
Definition minifies (pre pre' : text) : Prop :=
  forall rest fuel r,
    minify_loop fuel rest = Some r ->
    exists fuel', (fuel' <= fuel + List.length pre)%nat /\
                  minify_loop fuel' (pre ++ rest) = Some (pre' ++ r).

(** The characters of the text of a number: digits, signs, the point,
    the exponent mark and the letters of [nan] and [inf]. *)
Definition number_char (c : ascii) : bool :=
  is_digit c || bool_decide (c ∈ lit "-+.enaif").

(** The characters of a printed text: nothing below a space, but for
    the tabs and newlines of the pretty layout. *)
Definition layout_char (fmt : bool) (c : ascii) : bool :=
  (32 <=? code c) || (fmt && (Ascii.eqb c tab || Ascii.eqb c newline)).

(** ** References in the linked representation *)
Module References.
Import Links.

(** [cJSON_New_Item] with an allocator that does not fail: a node at
    an address not in use, every field zero. *)
Definition cJSON_New_Item : M ptr :=
  fun h =>
    let p := fresh (dom h) in
    Some (p, <[p := mk_node None None None false None]> h).

(** [create_reference]: the copy shares the children of [item]; its
    key and its links are cleared and it is flagged as a reference. *)
Definition create_reference (item : ptr) : M ptr :=
  ref ← cJSON_New_Item;
  n ← read item id;
  write ref (fun _ => mk_node None None (child n) true None) ;;
  mret ref.

Definition cJSON_AddItemReferenceToArray (array item : ptr) : M unit :=
  ref ← create_reference item;
  cJSON_AddItemToArray array (Some ref).

End References.

(** ** Arrays made from C arrays *)



(** ** Answers of the parser *)

(** A parsing function has come to an end on [input]: it has not run
    out of steps, the pointer behind a parsed value has not moved
    backwards, and a failure has set the error pointer. *)
Definition answered (input : text) (r : parse_result) : Prop :=
  match r with
  | Parsed _ rest => (List.length rest <= List.length input)%nat
  | Failed ep => ep <> None
  | Undefined => True
  | Unfinished => False
  end.

(** ** The room of [print_number] *)

(** The first guess [sprintf_e] makes of the decimal exponent of a
    value whose binary exponent is [L], and the test that the guess is
    less than five below the decimal exponent: [2^(L+1) <= 10^(low+5)],
    with both sides scaled to integers. *)
Definition low_estimate (L : Z) : Z := ((L - 1) * 30102) / 100000 - 1.

Definition estimate_ok (L : Z) : bool :=
  let k := low_estimate L + 5 in
  2 ^ Z.max (L + 1) 0 * 10 ^ Z.max (- k) 0
  <=? 10 ^ Z.max k 0 * 2 ^ Z.max (- (L + 1)) 0.

(** A tree whose numbers are values of the IEEE 754 binary64 format
    with a cache that is an [int]. *)
Inductive numbers_valid : cJSON -> Prop :=
  | numbers_valid_node t :
      (type t = cJSON_Number ->
       valid_binary 53 1024 (valuedouble t) = true /\
       INT_MIN <= valueint t <= INT_MAX) ->
      Forall numbers_valid (child t) ->
      numbers_valid t.

(* ================================================================== *)
(** * Part II: properties                                               *)
(* ================================================================== *)

(** ** The decoding loop of [parse_string] *)

(** Case analysis on all 256 characters. *)
Ltac each_char c := destruct c as [[] [] [] [] [] [] [] []].

Lemma c_str_idem (s : text) : c_str (c_str s) = c_str s.
Proof.
  induction s as [|c s IH]; simpl; [reflexivity|].
  destruct (Ascii.eqb c NUL) eqn:E; simpl; [reflexivity|].
  rewrite E, IH. reflexivity.
Qed.

Lemma c_str_no_nul (s : text) : Forall (fun c => c <> NUL) s -> c_str s = s.
Proof.
  induction 1 as [|c s Hc _ IH]; simpl; [reflexivity|].
  destruct (Ascii.eqb_spec c NUL); [contradiction|]. now rewrite IH.
Qed.

Lemma c_str_app_nul (s rest : text) :
  Forall (fun c => c <> NUL) s -> c_str (s ++ NUL :: rest) = s.
Proof.
  induction 1 as [|c s Hc _ IH]; simpl; [reflexivity|].
  destruct (Ascii.eqb_spec c NUL); [contradiction|]. now rewrite IH.
Qed.

Lemma length_drop_le {A} (n : nat) (l : list A) :
  (List.length (drop n l) <= List.length l)%nat.
Proof. rewrite length_drop. lia. Qed.

Lemma ptr_add_Some (n : nat) (p q : text) :
  ptr_add n p = Some q <->
  (n <= List.length p)%nat /\ q = drop n p.
Proof.
  unfold ptr_add. destruct (Nat.leb_spec n (List.length p)); split.
  - intros [= <-]. now split.
  - now intros [_ ->].
  - discriminate.
  - intros [H' _]. lia.
Qed.

Lemma ptr_add_app (n : nat) (p rest : text) :
  n = List.length p -> ptr_add n (p ++ rest) = Some rest.
Proof.
  intros ->. apply ptr_add_Some. rewrite length_app, drop_app_length.
  split; [lia|reflexivity].
Qed.

Lemma parse_string_step_shorter (ptr out ptr' : text) :
  parse_string_step ptr = Step out ptr' ->
  (List.length ptr' < List.length ptr)%nat.
Proof.
  unfold parse_string_step.
  destruct ptr as [|c ptr]; [discriminate|].
  cbn [deref hd].
  destruct (Ascii.eqb c dquote || Ascii.eqb c NUL); [discriminate|].
  destruct (negb (Ascii.eqb c backslash)).
  - intros [= <- <-]. simpl. rewrite drop_0. lia.
  - change (drop 1 (c :: ptr)) with ptr.
    match goal with
    | |- context [let '(_, _) := ?x in _] => destruct x as [e m]
    end.
    destruct (ptr_add (S m) ptr) as [q|] eqn:E; [|discriminate].
    apply ptr_add_Some in E as [Hm ->].
    intros [= <- <-]. rewrite length_drop. simpl. lia.
Qed.

Lemma parse_string_loop_fuel2 (n m : nat) (ptr : text) :
  (List.length ptr <= n)%nat -> (List.length ptr <= m)%nat ->
  parse_string_loop n ptr = parse_string_loop m ptr.
Proof.
  revert m ptr.
  induction n as [|n IH]; intros m ptr Hn Hm.
  - destruct ptr; [now destruct m|simpl in Hn; lia].
  - destruct ptr as [|c ptr]; [now destruct m|].
    destruct m as [|m]; [simpl in Hm; lia|].
    cbn [parse_string_loop].
    destruct (parse_string_step (c :: ptr)) as [|em ptr'|] eqn:E;
      [reflexivity| |reflexivity].
    apply parse_string_step_shorter in E. simpl in E, Hn, Hm.
    rewrite (IH m ptr') by lia. reflexivity.
Qed.

Lemma parse_string_loop_fuel (fuel : nat) (ptr : text) :
  (List.length ptr <= fuel)%nat -> parse_string_loop fuel ptr = unescape ptr.
Proof. intros H. now apply parse_string_loop_fuel2. Qed.

(** The loop unfolds by one iteration. *)
Lemma unescape_unfold (ptr : text) :
  unescape ptr =
  match parse_string_step ptr with
  | Stop => Some ([], ptr)
  | Step emitted ptr' =>
    match unescape ptr' with
    | Some (out, final) => Some (emitted ++ out, final)
    | None => None
    end
  | Beyond => None
  end.
Proof.
  destruct ptr as [|c ptr]; [reflexivity|].
  unfold unescape at 1. cbn [List.length parse_string_loop].
  destruct (parse_string_step (c :: ptr)) as [|em ptr'|] eqn:E;
    [reflexivity| |reflexivity].
  apply parse_string_step_shorter in E. simpl in E.
  rewrite parse_string_loop_fuel by lia. reflexivity.
Qed.

Lemma unescape_step (ptr ptr' emitted out final : text) :
  parse_string_step ptr = Step emitted ptr' ->
  unescape ptr' = Some (out, final) ->
  unescape ptr = Some (emitted ++ out, final).
Proof. intros E E'. now rewrite unescape_unfold, E, E'. Qed.

Lemma unescape_stop (ptr : text) :
  parse_string_step ptr = Stop -> unescape ptr = Some ([], ptr).
Proof. intros E. now rewrite unescape_unfold, E. Qed.

Lemma unescape_beyond (ptr : text) :
  parse_string_step ptr = Beyond -> unescape ptr = None.
Proof. intros E. now rewrite unescape_unfold, E. Qed.

(** [parse_string] behind the opening quote. *)
Lemma parse_string_at_quote (item : cJSON) (str out ptr : text) (len : nat) :
  sizing_scan str = Some len ->
  unescape str = Some (out, ptr) ->
  (List.length out <= len)%nat ->
  parse_string item (dquote :: str) =
  Parsed (set_type (set_valuestring item (Some (c_str out))) cJSON_String)
         (if Ascii.eqb (deref ptr) dquote then drop 1 ptr else ptr).
Proof.
  intros Hs Hu Hl. unfold parse_string. cbn [deref hd drop].
  change (Ascii.eqb dquote dquote) with true. cbn [negb].
  rewrite drop_0, Hs, Hu.
  now destruct (Nat.leb_spec (List.length out) len); [|lia].
Qed.

(** ** The escaper and the unescaper are inverse *)


Lemma escape_char_plain (c : ascii) :
  c <> NUL -> needs_escape c = false -> escape_char c = [c].
Proof.
  intros Hc. each_char c; try reflexivity; try discriminate. now elim Hc.
Qed.

(** Without a character to escape, the escaping loop copies the string:
    the two paths of [print_string_ptr] agree. *)
Lemma escape_loop_plain (s : text) :
  existsb needs_escape (c_str s) = false -> escape_loop s = c_str s.
Proof.
  induction s as [|c s IH]; simpl; [reflexivity|].
  destruct (Ascii.eqb_spec c NUL) as [->|Hc]; [reflexivity|].
  simpl. intros [H1 H2]%orb_false_iff.
  now rewrite escape_char_plain, IH.
Qed.

Lemma print_string_ptr_escape_loop (s : text) :
  print_string_ptr s = dquote :: escape_loop s ++ [dquote].
Proof.
  unfold print_string_ptr.
  destruct (existsb needs_escape (c_str s)) eqn:E; simpl; [reflexivity|].
  now rewrite escape_loop_plain.
Qed.






(** ** UTF-8 encoding in [parse_string] *)

Lemma lor_disjoint_add (x m k : Z) :
  0 <= k -> 0 <= x < 2 ^ k -> Z.lor x (m * 2 ^ k) = x + m * 2 ^ k.
Proof.
  intros Hk Hx.
  assert (Hland : Z.land x (m * 2 ^ k) = 0).
  { apply Z.bits_inj'. intros n Hn.
    rewrite Z.land_spec, Z.bits_0.
    destruct (Z.lt_ge_cases n k) as [Hlt|Hge].
    - rewrite Z.mul_pow2_bits_low by lia. apply andb_false_r.
    - rewrite <- (Z.mod_small x (2 ^ k)) by lia.
      rewrite Z.mod_pow2_bits_high by lia. reflexivity. }
  rewrite <- Z.lxor_lor by exact Hland.
  symmetry. apply Z.add_nocarry_lxor. exact Hland.
Qed.

Lemma continuation_spec (uc : Z) :
  Z.land (Z.lor uc 0x80) 0xBF = 0x80 + uc mod 64.
Proof.
  change 0xBF with (Z.lor 63 128).
  rewrite Z.land_lor_distr_r.
  rewrite (Z.land_lor_distr_l uc 128 63), (Z.land_lor_distr_l uc 128 128).
  change (Z.land 128 63) with 0. change (Z.land 128 128) with 128.
  rewrite Z.lor_0_r.
  assert (Habs : Z.lor (Z.land uc 128) 128 = 128).
  { apply Z.bits_inj'. intros n _. rewrite Z.lor_spec, Z.land_spec.
    destruct (Z.testbit uc n), (Z.testbit 128 n); reflexivity. }
  rewrite Habs.
  change 63 with (Z.ones 6). rewrite Z.land_ones by lia.
  change 128 with (2 * 2 ^ 6) at 1.
  rewrite lor_disjoint_add; [change (2 ^ 6) with 64; lia|lia|].
  apply Z.mod_pos_bound. reflexivity.
Qed.

Lemma lead_byte_spec (x mark k : Z) :
  0 <= k -> 0 <= x < 2 ^ k -> Z.lor x (mark * 2 ^ k) = mark * 2 ^ k + x.
Proof. intros. rewrite lor_disjoint_add by assumption. lia. Qed.

(** The bytes written by [parse_string] for a code unit or a combined
    code point are its UTF-8 encoding. *)
Lemma utf8_bytes_spec (cp : Z) :
  0 <= cp < 0x200000 -> utf8_bytes cp = utf8_encode cp.
Proof.
  intros Hcp. unfold utf8_bytes, utf8_encode, continuation.
  rewrite !continuation_spec, !Z.shiftr_div_pow2 by lia.
  change (2 ^ 6) with 64. rewrite !Z.div_div by lia.
  change (64 * 64) with 4096. change (4096 * 64) with 262144.
  destruct (cp <? 128) eqn:E1.
  { cbn [Z.eqb Pos.eqb]. change (firstByteMark 1) with 0.
    rewrite Z.lor_0_r. reflexivity. }
  destruct (cp <? 2048) eqn:E2.
  { cbn [Z.eqb Pos.eqb]. change (firstByteMark 2) with 192.
    change 192 with (3 * 2 ^ 6).
    rewrite lead_byte_spec; [reflexivity|lia|].
    apply Z.ltb_lt in E2. split; [apply Z.div_pos; lia|].
    apply Z.div_lt_upper_bound; lia. }
  destruct (cp <? 65536) eqn:E3.
  { cbn [Z.eqb Pos.eqb]. change (firstByteMark 3) with 224.
    change 224 with (7 * 2 ^ 5).
    rewrite lead_byte_spec; [reflexivity|lia|].
    apply Z.ltb_lt in E3. split; [apply Z.div_pos; lia|].
    apply Z.div_lt_upper_bound; lia. }
  cbn [Z.eqb Pos.eqb]. change (firstByteMark 4) with 240.
  change 240 with (15 * 2 ^ 4).
  rewrite lead_byte_spec; [reflexivity|lia|].
  split; [apply Z.div_pos; lia|]. apply Z.div_lt_upper_bound; lia.
Qed.

(** ** Unicode escapes *)

Lemma hex_value_bound (c : ascii) (d : Z) : hex_value c = Some d -> 0 <= d < 16.
Proof. each_char c; cbv; intros [= <-]; split; congruence. Qed.

Lemma parse_hex4_cons (c1 c2 c3 c4 : ascii) (rest : text) :
  parse_hex4 (c1 :: c2 :: c3 :: c4 :: rest) = parse_hex4 [c1; c2; c3; c4].
Proof. reflexivity. Qed.

Lemma parse_hex4_bound (str : text) : 0 <= parse_hex4 str < 65536.
Proof.
  unfold parse_hex4.
  destruct (hex_value (deref str)) as [d1|] eqn:E1; [|lia].
  destruct (hex_value (deref (drop 1 str))) as [d2|] eqn:E2; [|lia].
  destruct (hex_value (deref (drop 1 (drop 1 str)))) as [d3|] eqn:E3; [|lia].
  destruct (hex_value (deref (drop 1 (drop 1 (drop 1 str))))) as [d4|] eqn:E4; [|lia].
  apply hex_value_bound in E1, E2, E3, E4.
  rewrite !Z.shiftl_mul_pow2 by lia. lia.
Qed.

(** A non-hexadecimal character anywhere among the four makes
    [parse_hex4] return 0, and so does the text 0000. *)
Lemma parse_hex4_invalid (c1 c2 c3 c4 : ascii) :
  is_hex c1 && is_hex c2 && is_hex c3 && is_hex c4 = false \/
  [c1; c2; c3; c4] = lit "0000" ->
  parse_hex4 [c1; c2; c3; c4] = 0.
Proof.
  intros [H|H].
  - unfold parse_hex4, is_hex in *. cbn [deref hd drop] in *.
    destruct (hex_value c1); [|reflexivity].
    destruct (hex_value c2); [|reflexivity].
    destruct (hex_value c3); [|reflexivity].
    destruct (hex_value c4); [discriminate|reflexivity].
  - injection H as -> -> -> ->. reflexivity.
Qed.


Lemma step_u_unfold (c1 c2 c3 c4 : ascii) (rest : text) :
  parse_string_step (u_escape c1 c2 c3 c4 ++ rest) =
  let ptr := "u"%char :: c1 :: c2 :: c3 :: c4 :: rest in
  let '(emitted, moved) := parse_unicode_escape ptr in
  match ptr_add (S moved) ptr with
  | Some ptr => Step emitted ptr
  | None => Beyond
  end.
Proof. reflexivity. Qed.

Lemma parse_unicode_escape_eq (c1 c2 c3 c4 : ascii) (rest : text) :
  parse_unicode_escape ("u"%char :: c1 :: c2 :: c3 :: c4 :: rest) =
  let uc := parse_hex4 [c1; c2; c3; c4] in
  if ((0xDC00 <=? uc) && (uc <=? 0xDFFF)) || (uc =? 0) then ([], 4%nat)
  else if (0xD800 <=? uc) && (uc <=? 0xDBFF) then
    if negb (Ascii.eqb (deref rest) backslash)
       || negb (Ascii.eqb (deref (drop 1 rest)) "u")
    then ([], 4%nat)
    else
      let uc2 := parse_hex4 (drop 2 rest) in
      if (uc2 <? 0xDC00) || (0xDFFF <? uc2) then ([], 10%nat)
      else (utf8_bytes (0x10000 + Z.lor (Z.shiftl (Z.land uc 0x3FF) 10)
                                        (Z.land uc2 0x3FF)), 10%nat)
  else (utf8_bytes uc, 4%nat).
Proof.
  unfold parse_unicode_escape. cbn [drop]. rewrite !drop_0.
  rewrite parse_hex4_cons. reflexivity.
Qed.





(** ** The first loop and the escapes *)

Lemma sizing_scan_literal (c : ascii) (tail : text) :
  literal_char c = true -> sizing_scan (c :: tail) = S <$> sizing_scan tail.
Proof.
  unfold literal_char. intros [[H1 H2]%andb_true_iff H3]%andb_true_iff.
  apply negb_true_iff in H1, H2, H3. cbn [sizing_scan].
  now rewrite H1, H2, H3.
Qed.

Lemma sizing_scan_escape (c : ascii) (tail : text) :
  sizing_scan (backslash :: c :: tail) = S <$> sizing_scan tail.
Proof. reflexivity. Qed.

(** An escape whose four characters stand for themselves counts five. *)
Lemma sizing_scan_u_escape (c1 c2 c3 c4 : ascii) (tail : text) :
  literal_char c1 && literal_char c2 && literal_char c3 && literal_char c4
  = true ->
  sizing_scan (u_escape c1 c2 c3 c4 ++ tail)
  = (fun n => 5 + n)%nat <$> sizing_scan tail.
Proof.
  intros [[[H1 H2]%andb_true_iff H3]%andb_true_iff H4]%andb_true_iff.
  unfold u_escape. cbn [app].
  rewrite sizing_scan_escape, !sizing_scan_literal by assumption.
  now destruct (sizing_scan tail).
Qed.

Lemma is_hex_literal (c : ascii) : is_hex c = true -> literal_char c = true.
Proof. each_char c; vm_compute; congruence. Qed.

Lemma parse_hex4_digits (c1 c2 c3 c4 : ascii) :
  parse_hex4 [c1; c2; c3; c4] <> 0 ->
  is_hex c1 && is_hex c2 && is_hex c3 && is_hex c4 = true.
Proof.
  intros H. destruct (_ && _) eqn:E; [reflexivity|].
  elim H. apply parse_hex4_invalid. now left.
Qed.

Lemma digits_literal (c1 c2 c3 c4 : ascii) :
  is_hex c1 && is_hex c2 && is_hex c3 && is_hex c4 = true ->
  literal_char c1 && literal_char c2 && literal_char c3 && literal_char c4
  = true.
Proof.
  intros [[[H1 H2]%andb_true_iff H3]%andb_true_iff H4]%andb_true_iff.
  now rewrite !is_hex_literal.
Qed.

Lemma utf8_encode_length (cp : Z) : (List.length (utf8_encode cp) <= 4)%nat.
Proof.
  unfold utf8_encode.
  repeat match goal with |- context [if ?b then _ else _] => destruct b end;
    simpl; lia.
Qed.

(** ** Escapes that swallow the closing quote *)

(** C4. Surrogate handling while unescaping: the claim does not hold
    of the code on every string.  The first loop of [parse_string]
    counts the characters up to the first quote that no backslash
    precedes, and the allocation has that many bytes and one more; the
    decoding loop skips a high surrogate together with the six
    characters behind it when they start with a backslash and a [u],
    whatever the four others are.  On the string made of the escape
    D83D, a backslash and a [u], closed by a quote and followed by
    AAA, twenty times B and a quote, the first loop counts 6
    characters, the decoding loop steps over the closing quote and
    stores the twenty B, and the result of the call is undefined: the
    skipped surrogate has not left the parse unharmed. *)
Theorem surrogate_skip_overruns_allocation :
  let str := u_escape "D" "8" "3" "D" ++ lit "\u" ++ dquote :: lit "AAA"
             ++ repeat "B"%char 20 ++ [dquote] in
  sizing_scan str = Some 6%nat /\
  unescape str = Some (repeat "B"%char 20, [dquote]) /\
  parse_string cJSON_New_Item (dquote :: str) = Undefined.
Proof. cbn zeta. repeat split; vm_compute; reflexivity. Qed.

(** C10. Escapes that are not four hexadecimal digits: the claim does
    not hold of the code on every string.  An escape whose four
    characters are not all digits is skipped with its four characters,
    whatever they are, and the first loop of [parse_string] has
    stopped at the first of them that is a quote.  On the string made
    of a backslash and a [u], closed by a quote and followed by ten
    times A and a quote, the first loop counts 1 character, the
    decoding loop steps over the closing quote and stores seven A, and
    the result of the call is undefined. *)
Theorem invalid_escape_overruns_allocation :
  let str := lit "\u" ++ dquote :: repeat "A"%char 10 ++ [dquote] in
  parse_hex4 (dquote :: repeat "A"%char 3) = 0 /\
  sizing_scan str = Some 1%nat /\
  unescape str = Some (repeat "A"%char 7, [dquote]) /\
  parse_string cJSON_New_Item (dquote :: str) = Undefined.
Proof. cbn zeta. repeat split; vm_compute; reflexivity. Qed.

(** ** The growable buffer: [pow2gt] and [ensure] *)

Lemma wrap_int_small (z : Z) : - 2 ^ 31 <= z < 2 ^ 31 -> wrap_int z = z.
Proof. intros H. unfold wrap_int. rewrite Z.mod_small; lia. Qed.

(** One smearing step doubles the window of bits gathered at each
    position. *)
Lemma smear_step (y s w : Z) :
  0 < w ->
  (forall n, 0 <= n ->
     Z.testbit s n = true <-> exists i, 0 <= i < w /\ Z.testbit y (n + i) = true) ->
  forall n, 0 <= n ->
    Z.testbit (Z.lor s (Z.shiftr s w)) n = true <->
    exists i, 0 <= i < 2 * w /\ Z.testbit y (n + i) = true.
Proof.
  intros Hw Hs n Hn.
  rewrite Z.lor_spec, Z.shiftr_spec by lia.
  rewrite orb_true_iff, !Hs by lia. split.
  - intros [[i [Hi Hb]]|[i [Hi Hb]]].
    + exists i. split; [lia|exact Hb].
    + exists (w + i). split; [lia|]. now rewrite Z.add_assoc.
  - intros [i [Hi Hb]].
    destruct (Z.lt_ge_cases i w).
    + left. exists i. split; [lia|exact Hb].
    + right. exists (i - w). split; [lia|].
      now replace (n + w + (i - w)) with (n + i) by lia.
Qed.

Lemma smear_ones (y : Z) :
  0 < y < 2 ^ 31 ->
  let s1 := Z.lor y (Z.shiftr y 1) in
  let s2 := Z.lor s1 (Z.shiftr s1 2) in
  let s3 := Z.lor s2 (Z.shiftr s2 4) in
  let s4 := Z.lor s3 (Z.shiftr s3 8) in
  Z.lor s4 (Z.shiftr s4 16) = Z.ones (Z.log2 y + 1).
Proof.
  intros Hy s1 s2 s3 s4.
  assert (Hk : 0 <= Z.log2 y < 31).
  { split; [apply Z.log2_nonneg|]. apply Z.log2_lt_pow2; lia. }
  assert (H0 : forall n, 0 <= n ->
             Z.testbit y n = true <-> exists i, 0 <= i < 1 /\ Z.testbit y (n + i) = true).
  { intros n Hn. split.
    - intros H. exists 0. split; [lia|]. now rewrite Z.add_0_r.
    - intros [i [Hi H]]. now replace (n + i) with n in H by lia. }
  pose proof (smear_step y y 1 ltac:(lia) H0) as H1.
  pose proof (smear_step y s1 2 ltac:(lia) H1) as H2.
  pose proof (smear_step y s2 4 ltac:(lia) H2) as H3.
  pose proof (smear_step y s3 8 ltac:(lia) H3) as H4.
  pose proof (smear_step y s4 16 ltac:(lia) H4) as H5.
  apply Z.bits_inj'. intros n Hn.
  apply eq_true_iff_eq. rewrite (H5 n Hn). split.
  - intros [i [Hi Hb]].
    destruct (Z.lt_ge_cases n (Z.log2 y + 1)).
    + now apply Z.ones_spec_low.
    + rewrite Z.bits_above_log2 in Hb by lia. discriminate.
  - intros Hb.
    destruct (Z.lt_ge_cases n (Z.log2 y + 1)).
    + exists (Z.log2 y - n). split; [lia|].
      replace (n + (Z.log2 y - n)) with (Z.log2 y) by lia.
      apply Z.bit_log2. lia.
    + rewrite Z.ones_spec_high in Hb by lia. discriminate.
Qed.

(** [pow2gt] returns the least power of two that is at least its
    argument, as long as that power fits an [int]. *)
Lemma pow2gt_spec (x : Z) :
  1 <= x <= 2 ^ 30 -> least_pow2_above x (pow2gt x).
Proof.
  intros Hx.
  destruct (Z.eq_dec x 1) as [->|Hne].
  { change (pow2gt 1) with 1.
    exists 0. split; [lia|]. split; [reflexivity|]. split; [lia|].
    intros j Hj _. pose proof (Z.pow_pos_nonneg 2 j). lia. }
  unfold pow2gt. rewrite (wrap_int_small (x - 1)) by lia.
  cbn zeta. rewrite smear_ones by lia.
  assert (Hk : 0 <= Z.log2 (x - 1) < 30).
  { split; [apply Z.log2_nonneg|]. apply Z.log2_lt_pow2; lia. }
  pose proof (Z.log2_spec (x - 1) ltac:(lia)) as [Hlo Hhi].
  rewrite Z.ones_equiv, <- Z.add_1_r in *.
  assert (Hp : 2 ^ (Z.log2 (x - 1) + 1) <= 2 ^ 30)
    by (apply Z.pow_le_mono_r; lia).
  rewrite wrap_int_small by lia.
  exists (Z.log2 (x - 1) + 1).
  split; [lia|]. split; [lia|]. split; [lia|].
  intros j Hj Hxj.
  destruct (Z.lt_ge_cases j (Z.log2 (x - 1) + 1)) as [Hlt|Hge].
  - assert (2 ^ j <= 2 ^ Z.log2 (x - 1)) by (apply Z.pow_le_mono_r; lia). lia.
  - assert (2 ^ (Z.log2 (x - 1) + 1) <= 2 ^ j) by (apply Z.pow_le_mono_r; lia).
    lia.
Qed.

Lemma length_memcpy (dst src : list cell) (n : Z) :
  (Z.to_nat n <= List.length src)%nat -> (List.length src <= List.length dst)%nat ->
  List.length (memcpy dst src n) = List.length dst.
Proof.
  intros H1 H2. unfold memcpy.
  rewrite length_app, length_take, length_drop. lia.
Qed.

Lemma fresh_storage_sound : allocator_sound fresh_storage.
Proof.
  intros sz st. unfold fresh_storage.
  destruct (0 <=? sz) eqn:E; [|discriminate].
  intros [= <-]. rewrite length_replicate. apply Z.leb_le in E. lia.
Qed.

(** A buffer whose storage is already null fails in [ensure] at the
    entry guard, which returns before anything is cleared: the capacity
    field keeps its value. *)
Lemma ensure_null_buffer_keeps_capacity :
  ensure fresh_storage (mk_printbuffer None 16 0) 1
    = (None, mk_printbuffer None 16 0) /\
  ~ (forall cJSON_malloc p needed, ensure_as_claimed cJSON_malloc p needed).
Proof.
  split; [reflexivity|].
  intros H.
  specialize (H fresh_storage (mk_printbuffer None 16 0) 1).
  unfold ensure_as_claimed in H. cbn in H. destruct H as [_ H]. discriminate.
Qed.

(** C6 (amended). For a buffer with live storage, a request [needed >= 0]
    and [offset + needed <= 2^30] (so that the sum and the next power of
    two fit an [int]), and an allocator that returns storage of the size
    asked for: when [ensure] returns a pointer, it is the position
    [offset], the offset is unchanged, at least [needed] bytes are free
    behind it, all of the old storage is a prefix of the new one, the
    buffer is untouched if the capacity sufficed and otherwise the new
    capacity is the least power of two that is at least
    [offset + needed]; when it returns null, storage and capacity are
    cleared, which happens only when the capacity did not suffice. *)
Theorem ensure_spec (cJSON_malloc : Z -> option (list cell))
        (p : printbuffer) (cells : list cell) (needed : Z) :
  allocator_sound cJSON_malloc ->
  buffer_live p cells ->
  0 <= needed -> offset p + needed <= 2 ^ 30 ->
  match ensure cJSON_malloc p needed with
  | (Some ptr, p') =>
    ptr = offset p /\ offset p' = offset p /\ needed <= available p' /\
    (exists cells', buffer_live p' cells' /\
                    take (List.length cells) cells' = cells) /\
    (offset p + needed <= buflen p -> p' = p) /\
    (buflen p < offset p + needed ->
     least_pow2_above (offset p + needed) (buflen p'))
  | (None, p') =>
    buffer p' = None /\ buflen p' = 0 /\ buflen p < offset p + needed
  end.
Proof.
  intros Hm (Hb & Hlen & Hoff) Hn Hsum. unfold ensure. rewrite Hb.
  rewrite wrap_int_small by lia.
  destruct (needed + offset p <=? buflen p) eqn:E.
  - apply Z.leb_le in E. unfold available.
    repeat split; try lia; try assumption.
    exists cells. split; [now repeat split|]. apply firstn_all.
  - apply Z.leb_gt in E.
    pose proof (pow2gt_spec (needed + offset p) ltac:(lia)) as Hp.
    destruct (cJSON_malloc (pow2gt (needed + offset p))) as [st|] eqn:Ea.
    + apply Hm in Ea. cbn [offset buflen buffer]. unfold available.
      cbn [offset buflen buffer].
      destruct Hp as (k & Hk & Hpk & Hle & Hmin).
      assert (Hcp : List.length (memcpy st cells (buflen p)) = List.length st).
      { apply length_memcpy; lia. }
      repeat split; try lia.
      * exists (memcpy st cells (buflen p)).
        split; [repeat split; cbn [offset buflen buffer]; lia|].
        unfold memcpy. rewrite Hlen, Nat2Z.id, firstn_all.
        now rewrite take_app_length.
      * intros _. exists k. rewrite (Z.add_comm (offset p)).
        repeat split; assumption.
    + cbn [offset buflen buffer]. repeat split; lia.
Qed.

(** A two-byte buffer with one byte used, asked for five more bytes,
    grows to capacity 8. *)
Lemma ensure_spec_witness :
  match ensure fresh_storage (mk_printbuffer (Some [Some "a"%char; None]) 2 1) 5 with
  | (Some ptr, p') =>
    ptr = 1 /\ offset p' = 1 /\ 5 <= available p' /\
    (exists cells', buffer_live p' cells' /\
                    take 2 cells' = [Some "a"%char; None]) /\
    (1 + 5 <= 2 -> p' = mk_printbuffer (Some [Some "a"%char; None]) 2 1) /\
    (2 < 1 + 5 -> least_pow2_above (1 + 5) (buflen p'))
  | (None, p') => buffer p' = None /\ buflen p' = 0 /\ 2 < 1 + 5
  end.
Proof.
  apply (ensure_spec fresh_storage
           (mk_printbuffer (Some [Some "a"%char; None]) 2 1)
           [Some "a"%char; None] 5).
  - exact fresh_storage_sound.
  - repeat split; cbn; lia.
  - lia.
  - cbn. lia.
Defined.

(** ** The number printer *)

Lemma digit_char_is_digit (r : Z) :
  0 <= r < 10 -> is_digit (char_of (code "0" + r)) = true.
Proof.
  intros H.
  assert (r = 0 \/ r = 1 \/ r = 2 \/ r = 3 \/ r = 4 \/ r = 5 \/ r = 6 \/
          r = 7 \/ r = 8 \/ r = 9) as Hr by lia.
  repeat destruct Hr as [->|Hr]; try subst r; reflexivity.
Qed.

Lemma decimal_fuel_digits (fuel : nat) (n : Z) (acc : text) :
  Forall (fun c => is_digit c = true) acc ->
  Forall (fun c => is_digit c = true) (decimal_fuel fuel n acc).
Proof.
  revert n acc. induction fuel as [|fuel IH]; intros n acc Hacc; simpl.
  - exact Hacc.
  - assert (Forall (fun c => is_digit c = true)
                   (char_of (code "0" + n mod 10) :: acc)).
    { constructor; [|exact Hacc]. apply digit_char_is_digit.
      apply Z.mod_pos_bound. lia. }
    destruct (n <? 10); [assumption|]. now apply IH.
Qed.

Lemma decimal_digits (n : Z) : Forall (fun c => is_digit c = true) (decimal n).
Proof. apply decimal_fuel_digits. constructor. Qed.

Lemma plain_integer_digits (t : text) :
  Forall (fun c => is_digit c = true) t -> plain_integer t.
Proof. intros H. eapply Forall_impl; [exact H|]. intros c Hc. now right. Qed.

Lemma plain_integer_sprintf_d (i : Z) : plain_integer (sprintf_d i).
Proof.
  unfold sprintf_d. destruct (i <? 0).
  - constructor; [now left|]. apply plain_integer_digits, decimal_digits.
  - apply plain_integer_digits, decimal_digits.
Qed.

Lemma plain_integer_sprintf_f0 (d : double) :
  finite d = true -> plain_integer (sprintf_f 0 d).
Proof.
  destruct d as [s|s| |s m e]; try discriminate; intros _; cbn [sprintf_f].
  - destruct s; cbn;
      repeat (apply Forall_cons; split;
              [first [left; reflexivity|right; reflexivity]|]);
      apply Forall_nil_2.
  - destruct (fraction_of m e) as [num den].
    rewrite app_nil_r. apply Forall_app. split.
    + destruct s; cbn; [apply Forall_cons; split; [now left|]|]; apply Forall_nil_2.
    + apply plain_integer_digits, decimal_digits.
Qed.

Lemma floor_whole_valued (d : double) : whole_valued d = true -> floor d = d.
Proof.
  destruct d as [s|s| |s m e]; try reflexivity. cbn [whole_valued floor].
  destruct (fraction_of m e) as [num den]. now intros ->.
Qed.

Lemma dsub_diag (d : double) : finite d = true -> dsub d d = S754_zero false.
Proof.
  destruct d as [s|s| |s m e]; try discriminate; intros _.
  - now destruct s.
  - unfold dsub, SFsub, shl_align. rewrite Z.min_id, !Z.sub_diag.
    cbn [fst]. rewrite ?Z.sub_diag. reflexivity.
Qed.

Lemma whole_valued_finite (d : double) : whole_valued d = true -> finite d = true.
Proof. now destruct d. Qed.

Lemma whole_valued_near_floor (d : double) :
  whole_valued d = true -> near_floor d = true.
Proof.
  intros H. unfold near_floor.
  rewrite floor_whole_valued, dsub_diag by auto using whole_valued_finite.
  reflexivity.
Qed.

(** The double just above -1, [-(1 - 2^-53)], with its integer cache 0:
    it is not whole-valued, yet it lies within [DBL_EPSILON] of its
    floor and is printed without decimal digits. *)
Lemma print_number_near_floor_not_whole :
  let d := S754_finite true (2 ^ 53 - 1) (-53) in
  to_int d = 0 /\ whole_valued d = false /\
  print_number_fields d 0 = lit "-1" /\
  print_number_as_claimed d 0 = lit "-1.000000" /\
  ~ (forall d valueint,
       print_number_fields d valueint = print_number_as_claimed d valueint).
Proof.
  cbn zeta.
  assert (E1 : print_number_fields (S754_finite true (2 ^ 53 - 1) (-53)) 0 = lit "-1")
    by (vm_compute; reflexivity).
  assert (E2 : print_number_as_claimed (S754_finite true (2 ^ 53 - 1) (-53)) 0
               = lit "-1.000000") by (vm_compute; reflexivity).
  split; [vm_compute; reflexivity|].
  split; [vm_compute; reflexivity|].
  split; [exact E1|]. split; [exact E2|].
  intros H. specialize (H (S754_finite true (2 ^ 53 - 1) (-53)) 0).
  rewrite E1, E2 in H. discriminate.
Qed.

(** C3 (amended). The printing policy of a Number node.  A double equal
    to zero prints as 0.  Otherwise, when the integer cache differs from
    the double by at most [DBL_EPSILON] and the double lies within the
    32-bit signed range, the cache is printed as a plain integer.
    Otherwise, a double that lies at most [DBL_EPSILON] above its floor
    (every whole-valued double does) and whose magnitude is under 1e60
    prints with no decimal digits; otherwise magnitudes below 1e-6 or
    above 1e9 print in exponential notation, and all other values in
    fixed-point notation with six decimals. *)
Theorem print_number_policy (d : double) (valueint : Z) :
  let out := print_number_fields d valueint in
  (deqb d (of_int 0) = true -> out = lit "0") /\
  (deqb d (of_int 0) = false -> int_like d valueint = true ->
   out = sprintf_d valueint /\ plain_integer out) /\
  (deqb d (of_int 0) = false -> int_like d valueint = false ->
   near_floor d && dltb (fabs d) (decimal_literal 1 60) = true ->
   out = sprintf_f 0 d /\ (finite d = true -> plain_integer out)) /\
  (whole_valued d = true -> near_floor d = true) /\
  (deqb d (of_int 0) = false -> int_like d valueint = false ->
   near_floor d && dltb (fabs d) (decimal_literal 1 60) = false ->
   dltb (fabs d) (decimal_literal 1 (-6))
   || dltb (decimal_literal 1 9) (fabs d) = true ->
   out = sprintf_e d) /\
  (deqb d (of_int 0) = false -> int_like d valueint = false ->
   near_floor d && dltb (fabs d) (decimal_literal 1 60) = false ->
   dltb (fabs d) (decimal_literal 1 (-6))
   || dltb (decimal_literal 1 9) (fabs d) = false ->
   out = sprintf_f 6 d).
Proof.
  cbn zeta. unfold print_number_fields.
  fold (int_like d valueint). fold (near_floor d).
  split; [now intros ->|].
  split; [intros -> ->; split; [reflexivity|apply plain_integer_sprintf_d]|].
  split; [intros -> -> ->; split;
          [reflexivity|intros Hf; now apply plain_integer_sprintf_f0]|].
  split; [apply whole_valued_near_floor|].
  split; intros -> -> -> ->; reflexivity.
Qed.

(** The policy at 2.5e-7 (cache 0): exponential notation. *)
Lemma print_number_policy_witness :
  print_number_fields (decimal_literal 25 (-8)) 0 = lit "2.500000e-07".
Proof.
  refine (proj1 (proj2 (proj2 (proj2 (proj2
            (print_number_policy (decimal_literal 25 (-8)) 0))))) _ _ _ _);
    vm_compute; reflexivity.
Defined.

(** ** Parsing at the boundaries *)

Lemma skip_whitespace (ws : text) : Forall whitespace ws -> skip ws = [].
Proof.
  induction 1 as [|c ws [H1 H2] _ IH]; [reflexivity|].
  cbn [skip]. destruct (Ascii.eqb_spec c NUL) as [->|_]; [cbv in H1; discriminate|].
  cbn [negb andb]. now rewrite (proj2 (Z.leb_le _ _) H2).
Qed.

Lemma parse_value_end (fuel : nat) (item : cJSON) :
  parse_value (S fuel) item [] = Failed (Some []).
Proof. reflexivity. Qed.

(** C5. Parse boundary behaviour.  The texts of an empty object and of
    an empty array parse to an Object and an Array node without
    children.  The empty text and every text made of whitespace only
    fail to parse, and the error position is the end of the text (at or
    past its start).  With [require_null_terminated] the text of an
    empty object followed by garbage is rejected, the error position
    being the garbage; without it the parse succeeds and the reported
    end is the position right behind the closing brace (offset 2). *)
Theorem parse_boundaries :
  (forall strict,
     cJSON_ParseWithOpts (lit "{}") strict =
       mk_outcome (Some (set_type cJSON_New_Item cJSON_Object)) None (Some []) /\
     cJSON_ParseWithOpts (lit "[]") strict =
       mk_outcome (Some (set_type cJSON_New_Item cJSON_Array)) None (Some [])) /\
  child (set_type cJSON_New_Item cJSON_Object) = [] /\
  child (set_type cJSON_New_Item cJSON_Array) = [] /\
  (forall strict,
     cJSON_ParseWithOpts (lit "") strict = mk_outcome None (Some []) None) /\
  (forall ws strict,
     Forall whitespace ws ->
     cJSON_ParseWithOpts ws strict = mk_outcome None (Some []) None /\
     0 <= offset_in ws [] /\ offset_in ws [] = Z.of_nat (List.length ws)) /\
  cJSON_ParseWithOpts (lit "{} garbage") true =
    mk_outcome None (Some (lit "garbage")) None /\
  offset_in (lit "{} garbage") (lit "garbage") = 3 /\
  cJSON_ParseWithOpts (lit "{} garbage") false =
    mk_outcome (Some (set_type cJSON_New_Item cJSON_Object)) None
               (Some (lit " garbage")) /\
  offset_in (lit "{} garbage") (lit " garbage") = 2.
Proof.
  split; [intros []; split; reflexivity|].
  split; [reflexivity|]. split; [reflexivity|].
  split; [intros []; reflexivity|].
  split; [|repeat split; reflexivity].
  intros ws strict Hws. unfold cJSON_ParseWithOpts.
  rewrite skip_whitespace by exact Hws. rewrite parse_value_end.
  unfold offset_in. cbn [List.length]. repeat split; lia.
Qed.

(** Three blanks: the parse fails with the error position at offset 3. *)
Lemma parse_boundaries_witness :
  cJSON_ParseWithOpts (lit "   ") true = mk_outcome None (Some []) None /\
  0 <= offset_in (lit "   ") [] /\ offset_in (lit "   ") [] = 3.
Proof.
  refine (proj1 (proj2 (proj2 (proj2 (proj2 parse_boundaries)))) (lit "   ") true _).
  unfold lit. cbn [list_ascii_of_string].
  repeat first [apply Forall_nil_2
               |apply Forall_cons; split;
                 [vm_compute; split; [reflexivity|discriminate]|]].
Defined.

(** ** Layout of the pretty output *)



Lemma all_some_length {A} (l : list (option A)) (xs : list A) :
  all_some l = Some xs -> List.length xs = List.length l.
Proof.
  revert xs. induction l as [|[x|] l IH]; intros xs; cbn [all_some].
  - now intros [= <-].
  - destruct (all_some l) as [ys|]; [|discriminate].
    intros [= <-]. cbn. now rewrite (IH ys).
  - discriminate.
Qed.




(** ** Exact arithmetic on integer-valued doubles *)

Lemma pshl_Z (q : positive) (k : nat) : Zpos (pshl q k) = Zpos q * 2 ^ Z.of_nat k.
Proof.
  induction k as [|k IH]; [cbn; lia|].
  change (pshl q (S k)) with (xO (pshl q k)).
  rewrite (Pos2Z.inj_xO (pshl q k)), IH, Nat2Z.inj_succ, Z.pow_succ_r by lia. lia.
Qed.

Lemma pshl_inj_Z (p q : positive) : Zpos p = Zpos q -> p = q.
Proof. now intros [= ->]. Qed.

Lemma digits2_pshl (q : positive) (k : nat) :
  Zpos (digits2_pos (pshl q k)) = Zpos (digits2_pos q) + Z.of_nat k.
Proof.
  induction k as [|k IH]; [change (pshl q 0) with q; lia|].
  change (pshl q (S k)) with (xO (pshl q k)). cbn [digits2_pos].
  rewrite Pos2Z.inj_succ, IH. lia.
Qed.

(** The number of binary digits of [p] brackets it between two powers
    of two. *)
Lemma digits2_bounds (p : positive) :
  2 ^ (Zpos (digits2_pos p) - 1) <= Zpos p < 2 ^ Zpos (digits2_pos p).
Proof.
  induction p as [p IH|p IH|].
  - cbn [digits2_pos]. rewrite Pos2Z.inj_succ, (Pos2Z.inj_xI p).
    replace (Z.succ (Zpos (digits2_pos p)) - 1)
      with (Z.succ (Zpos (digits2_pos p) - 1)) by lia.
    rewrite !Z.pow_succ_r by lia. lia.
  - cbn [digits2_pos]. rewrite Pos2Z.inj_succ, (Pos2Z.inj_xO p).
    replace (Z.succ (Zpos (digits2_pos p)) - 1)
      with (Z.succ (Zpos (digits2_pos p) - 1)) by lia.
    rewrite !Z.pow_succ_r by lia. lia.
  - cbn [digits2_pos]. change (2 ^ (1 - 1)) with 1. change (2 ^ 1) with 2. lia.
Qed.

Lemma digits2_unique (p : positive) (d : Z) :
  2 ^ (d - 1) <= Zpos p < 2 ^ d -> 0 < d -> Zpos (digits2_pos p) = d.
Proof.
  intros [Hlo Hhi] Hd. pose proof (digits2_bounds p) as [Hlo' Hhi'].
  destruct (Z.lt_trichotomy (Zpos (digits2_pos p)) d) as [H|[H|H]]; [|exact H|].
  - assert (2 ^ Zpos (digits2_pos p) <= 2 ^ (d - 1))
      by (apply Z.pow_le_mono_r; lia). lia.
  - assert (2 ^ d <= 2 ^ (Zpos (digits2_pos p) - 1))
      by (apply Z.pow_le_mono_r; lia). lia.
Qed.

Lemma digits2_mono (p q : positive) :
  Zpos p <= Zpos q -> Zpos (digits2_pos p) <= Zpos (digits2_pos q).
Proof.
  intros H. pose proof (digits2_bounds p) as [Hlo _].
  pose proof (digits2_bounds q) as [_ Hhi].
  destruct (Z.le_gt_cases (Zpos (digits2_pos p)) (Zpos (digits2_pos q)));
    [assumption|].
  assert (2 ^ Zpos (digits2_pos q) <= 2 ^ (Zpos (digits2_pos p) - 1))
    by (apply Z.pow_le_mono_r; lia). lia.
Qed.

Lemma iter_pos_nat {A} (f : A -> A) (n : positive) (x : A) :
  SpecFloat.iter_pos f n x = Nat.iter (Pos.to_nat n) f x.
Proof.
  revert x. induction n as [n IH|n IH|]; intros x; cbn [SpecFloat.iter_pos].
  - rewrite !IH, Pos2Nat.inj_xI.
    replace (S (2 * Pos.to_nat n)) with (Pos.to_nat n + (Pos.to_nat n + 1))%nat by lia.
    rewrite !Nat.iter_add. reflexivity.
  - rewrite !IH, Pos2Nat.inj_xO.
    replace (2 * Pos.to_nat n)%nat with (Pos.to_nat n + Pos.to_nat n)%nat by lia.
    rewrite Nat.iter_add. reflexivity.
  - reflexivity.
Qed.

Lemma pos_iter_nat {A} (f : A -> A) (n : positive) (x : A) :
  Pos.iter f x n = Nat.iter (Pos.to_nat n) f x.
Proof.
  rewrite Pos2Nat.inj_iter. induction (Pos.to_nat n); cbn; congruence.
Qed.

Lemma shr_1_iter (k : nat) (q : positive) :
  Nat.iter k shr_1 (Build_shr_record (Zpos (pshl q k)) false false)
  = Build_shr_record (Zpos q) false false.
Proof.
  induction k as [|k IH]; [reflexivity|].
  rewrite Nat.iter_succ_r. change (pshl q (S k)) with (xO (pshl q k)).
  cbn [shr_1 orb]. exact IH.
Qed.

(** Rounding a 53-digit mantissa followed by [k] zero bits is exact. *)
Lemma round_exact (s : bool) (q : positive) (k : nat) (e : Z) :
  Zpos (digits2_pos q) = 53 ->
  -1074 <= e + Z.of_nat k <= 971 ->
  binary_round_aux 53 1024 s (Zpos (pshl q k)) e loc_Exact
  = S754_finite s q (e + Z.of_nat k).
Proof.
  intros Hq He. unfold binary_round_aux.
  assert (E1 : shr_fexp 53 1024 (Zpos (pshl q k)) e loc_Exact
               = (Build_shr_record (Zpos q) false false, e + Z.of_nat k)).
  { unfold shr_fexp, fexp, emin. cbn [Zdigits2 shr_record_of_loc].
    rewrite digits2_pshl, Hq.
    replace (Z.max (53 + Z.of_nat k + e - 53) (3 - 1024 - 53) - e)
      with (Z.of_nat k) by lia.
    destruct k as [|k].
    - change (pshl q 0) with q. change (Z.of_nat 0) with 0.
      cbn [shr]. f_equal. lia.
    - change (Z.of_nat (S k)) with (Zpos (Pos.of_succ_nat k)).
      cbn [shr]. rewrite iter_pos_nat, SuccNat2Pos.id_succ.
      now rewrite shr_1_iter. }
  rewrite E1. cbn [shr_m loc_of_shr_record round_nearest_even].
  assert (E2 : shr_fexp 53 1024 (Zpos q) (e + Z.of_nat k) loc_Exact
               = (Build_shr_record (Zpos q) false false, e + Z.of_nat k)).
  { unfold shr_fexp, fexp, emin. cbn [Zdigits2 shr_record_of_loc]. rewrite Hq.
    replace (Z.max (53 + (e + Z.of_nat k) - 53) (3 - 1024 - 53) - (e + Z.of_nat k))
      with 0 by lia.
    reflexivity. }
  rewrite E2. cbn [shr_m].
  replace (e + Z.of_nat k <=? 1024 - 53) with true; [reflexivity|].
  symmetry. apply Z.leb_le. lia.
Qed.

Lemma pshl_pshl (v : positive) (a b : nat) : pshl (pshl v a) b = pshl v (a + b).
Proof.
  apply pshl_inj_Z. rewrite !pshl_Z, Nat2Z.inj_add, Z.pow_add_r by lia. lia.
Qed.

Lemma digits2_le_53 (v : positive) : Zpos v < 2 ^ 53 -> Zpos (digits2_pos v) <= 53.
Proof.
  intros H. pose proof (digits2_bounds v) as [Hlo _].
  destruct (Z.le_gt_cases (Zpos (digits2_pos v)) 53); [assumption|].
  assert (2 ^ 53 <= 2 ^ (Zpos (digits2_pos v) - 1)) by (apply Z.pow_le_mono_r; lia).
  lia.
Qed.

Lemma digits2_canon_mantissa (v : positive) :
  Zpos (digits2_pos v) <= 53 ->
  Zpos (digits2_pos (pshl v (Z.to_nat (53 - Zpos (digits2_pos v))))) = 53.
Proof. intros H. rewrite digits2_pshl. lia. Qed.

(** Rounding the integer [v], given with [j] trailing zero bits,
    yields its canonical double. *)
Lemma binary_round_canon (s : bool) (v : positive) (j : nat) :
  Zpos v < 2 ^ 53 -> Z.of_nat j <= 1074 ->
  binary_round 53 1024 s (pshl v j) (- Z.of_nat j) = canon s v.
Proof.
  intros Hv Hj. pose proof (digits2_le_53 v Hv) as Hd.
  unfold binary_round, shl_align, fexp, emin.
  rewrite digits2_pshl.
  replace (Z.max (Zpos (digits2_pos v) + Z.of_nat j + - Z.of_nat j - 53)
                 (3 - 1024 - 53) - - Z.of_nat j)
    with (Zpos (digits2_pos v) - 53 + Z.of_nat j) by lia.
  replace (Z.max (Zpos (digits2_pos v) + Z.of_nat j + - Z.of_nat j - 53)
                 (3 - 1024 - 53))
    with (Zpos (digits2_pos v) - 53) by lia.
  set (a := Z.to_nat (53 - Zpos (digits2_pos v))).
  destruct (Zpos (digits2_pos v) - 53 + Z.of_nat j) as [|d|d] eqn:E.
  - replace (pshl v j) with (pshl (pshl v a) 0)
      by (rewrite pshl_pshl; f_equal; lia).
    rewrite round_exact by (try apply digits2_canon_mantissa; lia).
    unfold canon. fold a. f_equal. lia.
  - replace (pshl v j) with (pshl (pshl v a) (Pos.to_nat d))
      by (rewrite pshl_pshl; f_equal; lia).
    rewrite round_exact by (try apply digits2_canon_mantissa; lia).
    unfold canon. fold a. f_equal. lia.
  - rewrite pos_iter_nat. fold (pshl (pshl v j) (Pos.to_nat d)).
    replace (pshl (pshl v j) (Pos.to_nat d)) with (pshl (pshl v a) 0)
      by (rewrite !pshl_pshl; f_equal; lia).
    rewrite round_exact by (try apply digits2_canon_mantissa; lia).
    unfold canon. fold a. f_equal. lia.
Qed.

Lemma of_int_pos (v : positive) : Zpos v < 2 ^ 53 -> of_int (Zpos v) = canon false v.
Proof.
  intros Hv. unfold of_int. cbn [binary_normalize].
  apply (binary_round_canon false v 0 Hv). lia.
Qed.

Lemma of_int_neg (v : positive) : Zpos v < 2 ^ 53 -> of_int (Zneg v) = canon true v.
Proof.
  intros Hv. unfold of_int. cbn [binary_normalize].
  apply (binary_round_canon true v 0 Hv). lia.
Qed.

(** Products of integers are exact while they stay below [2^53]. *)
Lemma dmul_canon (s1 s2 : bool) (a b : positive) :
  Zpos (a * b) < 2 ^ 53 ->
  dmul (canon s1 a) (canon s2 b) = canon (xorb s1 s2) (a * b).
Proof.
  intros Hab.
  pose proof (digits2_bounds a) as [Ha1 Ha2].
  pose proof (digits2_bounds b) as [Hb1 Hb2].
  pose proof (digits2_bounds (a * b)) as [Hc1 Hc2].
  pose proof (digits2_le_53 _ Hab) as Hdc.
  set (da := Zpos (digits2_pos a)) in *. set (db := Zpos (digits2_pos b)) in *.
  set (dc := Zpos (digits2_pos (a * b))) in *.
  assert (Hda : 0 < da) by (unfold da; lia).
  assert (Hdb : 0 < db) by (unfold db; lia).
  rewrite Pos2Z.inj_mul in *.
  assert (Hlow : da + db - 2 < dc).
  { destruct (Z.lt_ge_cases (da + db - 2) dc); [assumption|].
    assert (2 ^ dc <= 2 ^ (da + db - 2)) by (apply Z.pow_le_mono_r; lia).
    assert (2 ^ (da + db - 2) = 2 ^ (da - 1) * 2 ^ (db - 1))
      by (rewrite <- Z.pow_add_r by lia; f_equal; lia).
    nia. }
  assert (Hhigh : dc <= da + db).
  { destruct (Z.le_gt_cases dc (da + db)); [assumption|].
    assert (2 ^ (da + db) <= 2 ^ (dc - 1)) by (apply Z.pow_le_mono_r; lia).
    assert (2 ^ (da + db) = 2 ^ da * 2 ^ db) by (apply Z.pow_add_r; lia).
    nia. }
  assert (Hda53 : da <= 53).
  { apply digits2_le_53. nia. }
  assert (Hdb53 : db <= 53).
  { apply digits2_le_53. nia. }
  unfold dmul, canon at 1 2, SFmul. fold da db.
  replace (pshl a (Z.to_nat (53 - da)) * pshl b (Z.to_nat (53 - db)))%positive
    with (pshl (pshl (a * b) (Z.to_nat (53 - dc))) (Z.to_nat (53 + dc - da - db))).
  - rewrite round_exact.
    + unfold canon. fold dc. f_equal. lia.
    + apply digits2_canon_mantissa. fold dc. lia.
    + lia.
  - apply pshl_inj_Z. rewrite Pos2Z.inj_mul, !pshl_Z, Pos2Z.inj_mul.
    rewrite !Z2Nat.id by lia.
    replace (53 - da) with ((53 - dc) + (53 + dc - da - db) - (53 - db)) at 1 by lia.
    rewrite <- !Z.mul_assoc. f_equal.
    rewrite (Z.mul_comm (2 ^ _) (Zpos b * _)), <- !Z.mul_assoc. f_equal.
    rewrite <- !Z.pow_add_r by lia. f_equal. lia.
Qed.

Lemma shl_align_Z (m : positive) (e ez : Z) :
  ez <= e ->
  Zpos (shl_align m e ez).1 = Zpos m * 2 ^ (e - ez).
Proof.
  intros H. unfold shl_align.
  destruct (ez - e) as [|d|d] eqn:E; cbn [fst].
  - replace (e - ez) with 0 by lia. lia.
  - lia.
  - rewrite pos_iter_nat. fold (pshl m (Pos.to_nat d)). rewrite pshl_Z.
    f_equal. f_equal. lia.
Qed.

(** Sums of positive integers are exact while they stay below [2^53]. *)
Lemma dadd_canon (a b : positive) :
  Zpos (a + b) < 2 ^ 53 ->
  dadd (canon false a) (canon false b) = canon false (a + b).
Proof.
  intros Hab. rewrite Pos2Z.inj_add in Hab.
  pose proof (digits2_le_53 a ltac:(lia)) as Hda.
  pose proof (digits2_le_53 b ltac:(lia)) as Hdb.
  unfold dadd, canon at 1 2, SFadd. cbn [cond_Zopp].
  set (da := Zpos (digits2_pos a)) in *. set (db := Zpos (digits2_pos b)) in *.
  assert (Hda0 : 0 < da) by (unfold da; lia).
  assert (Hdb0 : 0 < db) by (unfold db; lia).
  set (ez := Z.min (da - 53) (db - 53)).
  set (x := (shl_align (pshl a (Z.to_nat (53 - da))) (da - 53) ez).1).
  set (y := (shl_align (pshl b (Z.to_nat (53 - db))) (db - 53) ez).1).
  assert (Hx : Zpos x = Zpos a * 2 ^ (- ez)).
  { unfold x. rewrite shl_align_Z, pshl_Z, Z2Nat.id by lia.
    rewrite <- Z.mul_assoc, <- Z.pow_add_r by lia. f_equal. f_equal. lia. }
  assert (Hy : Zpos y = Zpos b * 2 ^ (- ez)).
  { unfold y. rewrite shl_align_Z, pshl_Z, Z2Nat.id by lia.
    rewrite <- Z.mul_assoc, <- Z.pow_add_r by lia. f_equal. f_equal. lia. }
  change (Zpos x + Zpos y) with (Zpos (x + y)). cbn [binary_normalize].
  replace (x + y)%positive with (pshl (a + b) (Z.to_nat (- ez))).
  - replace ez with (- Z.of_nat (Z.to_nat (- ez))) at 2 by lia.
    apply binary_round_canon; lia.
  - apply pshl_inj_Z. rewrite pshl_Z, !Pos2Z.inj_add, Hx, Hy, Z2Nat.id by lia. lia.
Qed.

Lemma of_int_0 : of_int 0 = S754_zero false.
Proof. reflexivity. Qed.

Lemma of_int_nonneg_cases (a : Z) :
  0 <= a < 2 ^ 53 ->
  a = 0 /\ of_int a = S754_zero false \/
  exists v, a = Zpos v /\ of_int a = canon false v.
Proof.
  intros H. destruct a as [|v|v]; [left; split; reflexivity| |lia].
  right. exists v. split; [reflexivity|]. apply of_int_pos. lia.
Qed.

Lemma dadd_of_int (a b : Z) :
  0 <= a -> 0 <= b -> a + b < 2 ^ 53 ->
  dadd (of_int a) (of_int b) = of_int (a + b).
Proof.
  intros Ha Hb Hab.
  destruct (of_int_nonneg_cases a ltac:(lia)) as [[-> Ea]|[u [-> Ea]]];
    destruct (of_int_nonneg_cases b ltac:(lia)) as [[-> Eb]|[v [-> Eb]]].
  - reflexivity.
  - change (0 + Zpos v) with (Zpos v). rewrite Ea, Eb. reflexivity.
  - rewrite Z.add_0_r, Ea, Eb. reflexivity.
  - rewrite Ea, Eb. change (Zpos u + Zpos v) with (Zpos (u + v)).
    rewrite of_int_pos by (rewrite Pos2Z.inj_add; lia).
    apply dadd_canon. rewrite Pos2Z.inj_add. lia.
Qed.

Lemma dmul_of_int (a b : Z) :
  0 <= a < 2 ^ 53 -> 0 <= b < 2 ^ 53 -> a * b < 2 ^ 53 ->
  dmul (of_int a) (of_int b) = of_int (a * b).
Proof.
  intros Ha Hb Hab.
  destruct b as [|v|v]; [| |lia].
  { rewrite Z.mul_0_r, of_int_0.
    destruct a as [|u|u]; [reflexivity| |lia].
    rewrite of_int_pos by lia. reflexivity. }
  destruct a as [|u|u]; [|clear Hb|lia].
  - change (0 * Zpos v) with 0. rewrite of_int_0, of_int_pos by lia. reflexivity.
  - change (Zpos u * Zpos v) with (Zpos (u * v)) in *.
    rewrite !of_int_pos by lia.
    now apply dmul_canon.
Qed.

(** Comparison of integer-valued doubles is comparison of the integers. *)
Lemma canon_compare (u v : positive) :
  Zpos u < 2 ^ 53 -> Zpos v < 2 ^ 53 ->
  match Zpos (digits2_pos u) - 53 ?= Zpos (digits2_pos v) - 53 with
  | Eq => Pos.compare_cont Eq (pshl u (Z.to_nat (53 - Zpos (digits2_pos u))))
                              (pshl v (Z.to_nat (53 - Zpos (digits2_pos v))))
  | c => c
  end = (Zpos u ?= Zpos v).
Proof.
  intros Hu Hv.
  pose proof (digits2_bounds u) as [Hu1 Hu2].
  pose proof (digits2_bounds v) as [Hv1 Hv2].
  pose proof (digits2_le_53 u Hu) as Hdu.
  pose proof (digits2_le_53 v Hv) as Hdv.
  set (du := Zpos (digits2_pos u)) in *. set (dv := Zpos (digits2_pos v)) in *.
  destruct (Z.compare_spec (du - 53) (dv - 53)) as [E|E|E].
  - replace dv with du by lia.
    change (Pos.compare_cont Eq ?a ?b) with (Pos.compare a b).
    rewrite Pos2Z.inj_compare, !pshl_Z.
    assert (0 < 2 ^ Z.of_nat (Z.to_nat (53 - du))) by (apply Z.pow_pos_nonneg; lia).
    destruct (Z.compare_spec (Zpos u) (Zpos v)) as [F|F|F].
    + apply Z.compare_eq_iff. now rewrite F.
    + apply Z.compare_lt_iff. nia.
    + apply Z.compare_gt_iff. nia.
  - symmetry. apply Z.compare_lt_iff.
    assert (2 ^ du <= 2 ^ (dv - 1)) by (apply Z.pow_le_mono_r; unfold du; lia).
    lia.
  - symmetry. apply Z.compare_gt_iff.
    assert (2 ^ dv <= 2 ^ (du - 1)) by (apply Z.pow_le_mono_r; unfold dv; lia).
    lia.
Qed.

Lemma of_int_cases (a : Z) :
  - 2 ^ 53 < a < 2 ^ 53 ->
  a = 0 /\ of_int a = S754_zero false \/
  (exists v, a = Zpos v /\ of_int a = canon false v) \/
  (exists v, a = Zneg v /\ of_int a = canon true v).
Proof.
  intros H. destruct a as [|v|v].
  - left. split; reflexivity.
  - right. left. exists v. split; [reflexivity|]. apply of_int_pos. lia.
  - right. right. exists v. split; [reflexivity|]. apply of_int_neg. lia.
Qed.

Lemma SFcompare_of_int (a b : Z) :
  - 2 ^ 53 < a < 2 ^ 53 -> - 2 ^ 53 < b < 2 ^ 53 ->
  SFcompare (of_int a) (of_int b) = Some (a ?= b).
Proof.
  intros Ha Hb.
  destruct (of_int_cases a Ha) as [[-> Ea]|[[u [-> Ea]]|[u [-> Ea]]]];
    destruct (of_int_cases b Hb) as [[-> Eb]|[[v [-> Eb]]|[v [-> Eb]]]];
    rewrite ?Ea, ?Eb; try reflexivity.
  - unfold canon. cbn [SFcompare]. f_equal. apply canon_compare; lia.
  - unfold canon. cbn [SFcompare]. f_equal.
    pose proof (canon_compare u v ltac:(lia) ltac:(lia)) as H.
    change (Zneg u ?= Zneg v) with (CompOpp (Zpos u ?= Zpos v)).
    rewrite <- H.
    destruct (Zpos (digits2_pos u) - 53 ?= Zpos (digits2_pos v) - 53); reflexivity.
Qed.

Lemma dleb_of_int (a b : Z) :
  - 2 ^ 53 < a < 2 ^ 53 -> - 2 ^ 53 < b < 2 ^ 53 ->
  dleb (of_int a) (of_int b) = (a <=? b).
Proof.
  intros Ha Hb. unfold dleb, SFleb. rewrite SFcompare_of_int by assumption.
  unfold Z.leb. now destruct (a ?= b).
Qed.

Lemma deqb_of_int (a b : Z) :
  - 2 ^ 53 < a < 2 ^ 53 -> - 2 ^ 53 < b < 2 ^ 53 ->
  deqb (of_int a) (of_int b) = (a =? b).
Proof.
  intros Ha Hb. unfold deqb, SFeqb. rewrite SFcompare_of_int by assumption.
  destruct (Z.eqb_spec a b) as [->|Hne].
  - now rewrite Z.compare_refl.
  - destruct (Z.compare_spec a b); [contradiction|reflexivity|reflexivity].
Qed.

Lemma finite_of_int (a : Z) : - 2 ^ 53 < a < 2 ^ 53 -> finite (of_int a) = true.
Proof.
  intros Ha.
  destruct (of_int_cases a Ha) as [[-> Ea]|[[u [-> Ea]]|[u [-> Ea]]]];
    now rewrite Ea.
Qed.

(** [(int)(double)i = i] on the range of [int]. *)
Lemma to_int_of_int (i : Z) : INT_MIN <= i <= INT_MAX -> to_int (of_int i) = i.
Proof.
  unfold INT_MIN, INT_MAX. intros Hi.
  assert (Hb : - 2 ^ 53 < i < 2 ^ 53) by lia.
  assert (Hc : forall s v, Zpos v <= 2 ^ 31 ->
             INT_MIN <= cond_Zopp s (Zpos v) <= INT_MAX ->
             to_int (canon s v) = cond_Zopp s (Zpos v)).
  { intros s v Hv Hr.
    pose proof (digits2_bounds v) as [Hv1 Hv2].
    set (dv := Zpos (digits2_pos v)) in *.
    assert (Hdv : 0 < dv <= 32).
    { split; [unfold dv; lia|].
      destruct (Z.le_gt_cases dv 32); [assumption|].
      assert (2 ^ 32 <= 2 ^ (dv - 1)) by (apply Z.pow_le_mono_r; lia). lia. }
    unfold to_int, canon, fraction_of. fold dv.
    replace (0 <=? dv - 53) with false by (symmetry; apply Z.leb_gt; lia).
    rewrite pshl_Z, Z2Nat.id by lia.
    replace (- (dv - 53)) with (53 - dv) by lia.
    rewrite Z.div_mul by (apply Z.pow_nonzero; lia).
    replace ((INT_MIN <=? cond_Zopp s (Zpos v)) && (cond_Zopp s (Zpos v) <=? INT_MAX))
      with true; [reflexivity|].
    symmetry. apply andb_true_iff. split; apply Z.leb_le; lia. }
  destruct (of_int_cases i Hb) as [[-> Ea]|[[u [-> Ea]]|[u [-> Ea]]]];
    rewrite Ea; [reflexivity| |].
  - apply (Hc false u); unfold INT_MIN, INT_MAX; cbn [cond_Zopp]; lia.
  - apply (Hc true u); unfold INT_MIN, INT_MAX; cbn [cond_Zopp]; lia.
Qed.

(** ** Integers survive printing and parsing *)

Lemma digit_code (c : ascii) : is_digit c = true -> 0 <= code c - code "0" <= 9.
Proof.
  unfold is_digit, in_range. intros [H1 H2]%andb_true_iff.
  apply Z.leb_le in H1, H2. change (code "0") with 48 in *.
  change (code "9") with 57 in *. lia.
Qed.

Lemma code_digit_char (r : Z) :
  0 <= r < 10 -> code (char_of (code "0" + r)) - code "0" = r.
Proof.
  intros H.
  assert (r = 0 \/ r = 1 \/ r = 2 \/ r = 3 \/ r = 4 \/ r = 5 \/ r = 6 \/
          r = 7 \/ r = 8 \/ r = 9) as Hr by lia.
  repeat destruct Hr as [->|Hr]; try subst r; reflexivity.
Qed.

Lemma digits_value_app (l : text) (c : ascii) (a : Z) :
  digits_value (l ++ [c]) a = digits_value l a * 10 + (code c - code "0").
Proof. unfold digits_value. now rewrite fold_left_app. Qed.

Lemma digits_value_ge (ds : text) (a : Z) :
  Forall (fun c => is_digit c = true) ds -> 0 <= a -> a <= digits_value ds a.
Proof.
  intros H. revert a. induction H as [|c ds Hc _ IH]; intros a Ha; [cbn; lia|].
  cbn [digits_value fold_left]. fold (digits_value ds (a * 10 + (code c - code "0"))).
  apply digit_code in Hc.
  specialize (IH (a * 10 + (code c - code "0")) ltac:(lia)). lia.
Qed.

(** The digit loop of [parse_number] computes the value of the digits
    exactly, as long as it stays below [2^53]. *)
Lemma digits_loop_value (ds rest : text) (a count : Z) :
  Forall (fun c => is_digit c = true) ds ->
  is_digit (deref rest) = false ->
  0 <= a -> digits_value ds a < 2 ^ 53 ->
  digits_loop (ds ++ rest) (of_int a) count
  = (of_int (digits_value ds a), count + Z.of_nat (List.length ds), rest).
Proof.
  intros H Hrest. revert a count.
  induction H as [|c ds Hc Hds IH]; intros a count Ha Hv.
  - cbn [app digits_value fold_left List.length].
    replace (count + Z.of_nat 0) with count by lia.
    destruct rest as [|c r]; [reflexivity|].
    cbn [digits_loop]. cbn [deref hd] in Hrest. now rewrite Hrest.
  - cbn [app digits_loop]. rewrite Hc.
    cbn [digits_value fold_left] in *.
    fold (digits_value ds (a * 10 + (code c - code "0"))) in *.
    pose proof (digit_code c Hc) as Hd.
    pose proof (digits_value_ge ds (a * 10 + (code c - code "0")) Hds ltac:(lia)).
    rewrite dmul_of_int, dadd_of_int by lia.
    rewrite IH by lia. f_equal. f_equal. cbn [List.length]. lia.
Qed.

Lemma decimal_fuel_app (fuel : nat) (n : Z) (acc : text) :
  decimal_fuel fuel n acc = decimal_fuel fuel n [] ++ acc.
Proof.
  revert n acc. induction fuel as [|fuel IH]; intros n acc; [reflexivity|].
  cbn [decimal_fuel]. destruct (n <? 10); [reflexivity|].
  rewrite IH, (IH _ [_]), <- app_assoc. reflexivity.
Qed.

Lemma decimal_fuel_value (fuel : nat) (n : Z) :
  0 <= n < 10 ^ Z.of_nat fuel ->
  digits_value (decimal_fuel fuel n []) 0 = n.
Proof.
  revert n. induction fuel as [|fuel IH]; intros n Hn.
  - change (10 ^ Z.of_nat 0) with 1 in Hn. replace n with 0 by lia. reflexivity.
  - cbn [decimal_fuel]. destruct (Z.ltb_spec n 10) as [Hlt|Hge].
    + cbn. rewrite code_digit_char; [rewrite Z.mod_small; lia|].
      apply Z.mod_pos_bound. lia.
    + rewrite decimal_fuel_app, digits_value_app, IH.
      * rewrite code_digit_char by (apply Z.mod_pos_bound; lia).
        pose proof (Z.div_mod n 10 ltac:(lia)). lia.
      * rewrite Nat2Z.inj_succ, Z.pow_succ_r in Hn by lia.
        split; [apply Z.div_pos; lia|]. apply Z.div_lt_upper_bound; lia.
Qed.

Lemma decimal_fuel_head (fuel : nat) (n : Z) :
  0 < n < 10 ^ Z.of_nat fuel ->
  exists c tl, decimal_fuel fuel n [] = c :: tl /\ in_range "1" "9" c = true.
Proof.
  revert n. induction fuel as [|fuel IH]; intros n Hn.
  - change (10 ^ Z.of_nat 0) with 1 in Hn. lia.
  - cbn [decimal_fuel]. destruct (Z.ltb_spec n 10) as [Hlt|Hge].
    + eexists _, []. split; [reflexivity|]. rewrite Z.mod_small by lia.
      assert (n = 1 \/ n = 2 \/ n = 3 \/ n = 4 \/ n = 5 \/ n = 6 \/
              n = 7 \/ n = 8 \/ n = 9) as Hr by lia.
      repeat destruct Hr as [->|Hr]; try subst n; reflexivity.
    + rewrite decimal_fuel_app.
      destruct (IH (n / 10)) as (c & tl & E & Hc).
      * rewrite Nat2Z.inj_succ, Z.pow_succ_r in Hn by lia.
        split; [apply Z.div_str_pos; lia|]. apply Z.div_lt_upper_bound; lia.
      * rewrite E. eexists _, _. split; [reflexivity|exact Hc].
Qed.

Lemma decimal_fuel_enough (n : Z) :
  0 <= n -> n < 10 ^ Z.of_nat (S (Z.to_nat (Z.log2 n))).
Proof.
  intros Hn. destruct (Z.eq_dec n 0) as [->|Hne]; [reflexivity|].
  pose proof (Z.log2_spec n ltac:(lia)) as [_ Hhi].
  pose proof (Z.log2_nonneg n).
  rewrite Nat2Z.inj_succ, Z2Nat.id by lia.
  assert (2 ^ Z.succ (Z.log2 n) <= 10 ^ Z.succ (Z.log2 n))
    by (apply Z.pow_le_mono_l; lia).
  lia.
Qed.

Lemma decimal_value (n : Z) : 0 <= n -> digits_value (decimal n) 0 = n.
Proof.
  intros Hn. apply decimal_fuel_value. split; [lia|now apply decimal_fuel_enough].
Qed.

Lemma decimal_head (n : Z) :
  0 < n -> exists c tl, decimal n = c :: tl /\ in_range "1" "9" c = true.
Proof.
  intros Hn. apply decimal_fuel_head. split; [lia|apply decimal_fuel_enough; lia].
Qed.

Lemma ends_number_facts (rest : text) :
  ends_number rest = true ->
  is_digit (deref rest) = false /\ Ascii.eqb (deref rest) "." = false /\
  Ascii.eqb (deref rest) "e" = false /\ Ascii.eqb (deref rest) "E" = false /\
  Ascii.eqb (deref rest) "0" = false /\ in_range "1" "9" (deref rest) = false.
Proof.
  unfold ends_number. generalize (deref rest). intros c.
  each_char c; cbv; intros H; try discriminate H; repeat split.
Qed.

Lemma pow10_0 : pow10 (0 + wrap_int (0 * 1)) = of_int 1.
Proof. reflexivity. Qed.

Lemma dmul_sign_of_int (s : bool) (v : positive) :
  Zpos v < 2 ^ 53 ->
  dmul (dmul (of_int (cond_Zopp s 1)) (of_int (Zpos v))) (of_int 1)
  = of_int (cond_Zopp s (Zpos v)).
Proof.
  intros Hv.
  rewrite (of_int_pos v Hv), (of_int_pos 1) by reflexivity.
  assert (E : of_int (cond_Zopp s 1) = canon s 1) by now destruct s.
  rewrite E, dmul_canon by (rewrite Pos.mul_1_l; exact Hv).
  rewrite dmul_canon by (rewrite Pos.mul_1_l, Pos.mul_1_r; exact Hv).
  rewrite Pos.mul_1_l, Pos.mul_1_r.
  destruct s; cbn [xorb cond_Zopp]; symmetry;
    [now apply of_int_neg|now apply of_int_pos].
Qed.

Lemma not_sign_or_zero (c : ascii) :
  in_range "1" "9" c = true ->
  Ascii.eqb c "-" = false /\ Ascii.eqb c "0" = false.
Proof. each_char c; intros H; try discriminate H; split; reflexivity. Qed.

(** [parse_number] on a run of digits that does not start with 0,
    after an optional minus sign. *)
Lemma parse_number_digits (s : bool) (c : ascii) (tl rest : text) (v : positive) :
  in_range "1" "9" c = true ->
  Forall (fun c => is_digit c = true) (c :: tl) ->
  ends_number rest = true ->
  digits_value (c :: tl) 0 = Zpos v -> Zpos v < 2 ^ 53 ->
  parse_number_fields (sign_text s ++ (c :: tl) ++ rest)
  = (of_int (cond_Zopp s (Zpos v)), to_int (of_int (cond_Zopp s (Zpos v))), rest).
Proof.
  intros Hc Hds Hrest Hv Hb.
  apply ends_number_facts in Hrest as (R1 & R2 & R3 & R4 & R5 & R6).
  destruct (not_sign_or_zero c Hc) as [E1 E2].
  assert (E : parse_number_fields (sign_text s ++ (c :: tl) ++ rest)
              = let n := dmul (dmul (of_int (cond_Zopp s 1)) (of_int (Zpos v)))
                              (of_int 1) in (n, to_int n, rest)).
  { unfold parse_number_fields.
    destruct s; cbn [sign_text app deref hd drop cond_Zopp].
    - change (Ascii.eqb "-" "-") with true. cbv iota. rewrite ?drop_0.
      cbn [deref hd]. rewrite E2. cbn [deref hd]. rewrite Hc.
      change (c :: tl ++ rest) with ((c :: tl) ++ rest).
      rewrite digits_loop_value by (try assumption; lia).
      rewrite R2. cbn [andb]. rewrite R3, R4. cbn [orb].
      rewrite pow10_0, Hv. reflexivity.
    - rewrite E1. cbn [deref hd]. rewrite E2. cbn [deref hd]. rewrite Hc.
      change (c :: tl ++ rest) with ((c :: tl) ++ rest).
      rewrite digits_loop_value by (try assumption; lia).
      rewrite R2. cbn [andb]. rewrite R3, R4. cbn [orb].
      rewrite pow10_0, Hv. reflexivity. }
  rewrite E. cbn zeta. now rewrite dmul_sign_of_int.
Qed.

Lemma sprintf_d_shape (i : Z) :
  i <> 0 ->
  exists s v c tl,
    i = cond_Zopp s (Zpos v) /\ sprintf_d i = sign_text s ++ c :: tl /\
    in_range "1" "9" c = true /\ Forall (fun c => is_digit c = true) (c :: tl) /\
    digits_value (c :: tl) 0 = Zpos v.
Proof.
  intros Hi. unfold sprintf_d.
  destruct i as [|v|v]; [contradiction| |].
  - destruct (decimal_head (Zpos v) ltac:(lia)) as (c & tl & E & Hc).
    exists false, v, c, tl. change (Zpos v <? 0) with false. cbv iota.
    rewrite <- E. repeat split; try assumption.
    + apply decimal_digits.
    + apply decimal_value. lia.
  - destruct (decimal_head (Zpos v) ltac:(lia)) as (c & tl & E & Hc).
    exists true, v, c, tl. change (Zneg v <? 0) with true. cbv iota.
    change (- Zneg v) with (Zpos v).
    rewrite <- E. repeat split; try assumption.
    + apply decimal_digits.
    + apply decimal_value. lia.
Qed.

(** An integer of the 32-bit range prints through the first two cases
    of [print_number]. *)
Lemma print_number_int (i : Z) :
  INT_MIN <= i <= INT_MAX ->
  print_number_fields (of_int i) i = if i =? 0 then lit "0" else sprintf_d i.
Proof.
  unfold INT_MIN, INT_MAX. intros Hi. unfold print_number_fields.
  rewrite deqb_of_int by lia. destruct (i =? 0) eqn:E; [reflexivity|].
  rewrite dsub_diag by (apply finite_of_int; lia).
  rewrite !dleb_of_int by (unfold INT_MIN, INT_MAX; lia).
  replace (i <=? INT_MAX) with true by (symmetry; apply Z.leb_le; unfold INT_MAX; lia).
  replace (INT_MIN <=? i) with true by (symmetry; apply Z.leb_le; unfold INT_MIN; lia).
  reflexivity.
Qed.

(** Every integer of the 32-bit range, held by a Number node together
    with its cache, is read back exactly from its printed text. *)
Lemma int_number_stable (i : Z) :
  INT_MIN <= i <= INT_MAX -> number_stable (of_int i) i.
Proof.
  intros Hi rest Hrest. rewrite print_number_int by exact Hi.
  destruct (Z.eqb_spec i 0) as [->|Hne].
  - apply ends_number_facts in Hrest as (R1 & R2 & R3 & R4 & R5 & R6).
    unfold parse_number_fields.
    change (lit "0" ++ rest) with ("0"%char :: rest).
    change (deref ("0"%char :: rest)) with "0"%char.
    change (Ascii.eqb "0" "-") with false. change (Ascii.eqb "0" "0") with true.
    cbv iota. change (deref ("0"%char :: rest)) with "0"%char.
    change (Ascii.eqb "0" "0") with true. cbv iota.
    change (drop 1 ("0"%char :: rest)) with (drop 0 rest).
    rewrite drop_0, R6, R2. cbn [andb]. rewrite R3, R4. cbn [orb].
    reflexivity.
  - destruct (sprintf_d_shape i Hne) as (s & v & c & tl & -> & E & Hc & Hds & Hv).
    rewrite E, <- app_assoc.
    assert (Hb : Zpos v < 2 ^ 53).
    { unfold INT_MIN, INT_MAX in Hi. destruct s; cbn [cond_Zopp] in Hi; lia. }
    rewrite (parse_number_digits s c tl rest v) by assumption.
    now rewrite to_int_of_int.
Qed.

(** ** Round trip of trees: auxiliary facts on texts *)


Lemma skip_nonspace (value : text) :
  (32 <? code (deref value)) || Ascii.eqb (deref value) NUL = true ->
  skip value = value.
Proof.
  destruct value as [|c value]; [reflexivity|]. cbn [deref hd skip].
  intros [H|H]%orb_true_iff.
  - apply Z.ltb_lt in H. replace (code c <=? 32) with false
      by (symmetry; apply Z.leb_gt; lia).
    now rewrite andb_false_r.
  - now rewrite H.
Qed.

Lemma skip_app_whitespace (ws value : text) :
  Forall whitespace ws -> skip (ws ++ value) = skip value.
Proof.
  induction 1 as [|c ws [H1 H2] _ IH]; [reflexivity|].
  cbn [app skip].
  destruct (Ascii.eqb_spec c NUL) as [->|_]; [cbv in H1; discriminate|].
  cbn [negb andb]. now rewrite (proj2 (Z.leb_le _ _) H2).
Qed.




Lemma whitespace_tab : whitespace tab.
Proof. split; [reflexivity|discriminate]. Qed.

Lemma whitespace_space : whitespace " ".
Proof. split; [reflexivity|discriminate]. Qed.




Lemma ends_number_cons (c : ascii) (tl : text) :
  ends_number [c] = true -> ends_number (c :: tl) = true.
Proof. intros H. exact H. Qed.








(** ** Round trip of trees: the loops of [parse_array] and [parse_object] *)

Lemma cJSON_tree_ind (P : cJSON -> Prop) :
  (forall t, Forall P (child t) -> P t) -> forall t, P t.
Proof.
  intros H.
  refine (fix F (t : cJSON) : P t :=
            match t with
            | mk_cJSON ch ty vs vi vd ks =>
              H (mk_cJSON ch ty vs vi vd ks)
                ((fix G (l : list cJSON) : Forall P l :=
                    match l with
                    | [] => @List.Forall_nil _ P
                    | c :: l' => @List.Forall_cons _ P c l' (F c) (G l')
                    end) ch)
            end).
Qed.





(** ** Round trip of trees: the induction *)

















(** ** Round trip of trees: from the API to the parser and back *)










(** * Sibling lists in the linked representation *)

Section SiblingLists.
Import Links.

(** ** Fields of updated heaps *)

Lemma upd_lookup (p : ptr) (g : node -> node) (h : heap) (q : ptr) :
  upd p g h !! q = if decide (q = p) then g <$> h !! p else h !! q.
Proof.
  unfold upd. destruct (h !! p) as [n|] eqn:E.
  - rewrite lookup_insert. destruct (decide (p = q)) as [->|Hne].
    + now rewrite decide_True by reflexivity.
    + now rewrite decide_False by congruence.
  - destruct (decide (q = p)) as [->|Hne]; [exact E|reflexivity].
Qed.

Lemma upd_alloc (p : ptr) (g : node -> node) (h : heap) (q : ptr) :
  is_Some (upd p g h !! q) <-> is_Some (h !! q).
Proof.
  rewrite upd_lookup. destruct (decide (q = p)) as [->|Hne]; [|reflexivity].
  now rewrite fmap_is_Some.
Qed.

Lemma upd_o_alloc (po : option ptr) (g : node -> node) (h : heap) (q : ptr) :
  is_Some (upd_o po g h !! q) <-> is_Some (h !! q).
Proof. destruct po; [apply upd_alloc|reflexivity]. Qed.

Lemma fldf_upd_same {A} (fld : node -> A) (g : node -> node) (p : ptr)
      (h : heap) (q : ptr) :
  (forall n, fld (g n) = fld n) -> fldf fld (upd p g h) q = fldf fld h q.
Proof.
  intros Hg. unfold fldf. rewrite upd_lookup.
  destruct (decide (q = p)) as [->|Hne]; [|reflexivity].
  destruct (h !! p); cbn; [now rewrite Hg|reflexivity].
Qed.

Lemma fldf_upd_set {A} (fld : node -> A) (g : node -> node) (v : A) (p : ptr)
      (h : heap) (q : ptr) :
  (forall n, fld (g n) = v) -> is_Some (h !! p) ->
  fldf fld (upd p g h) q = if decide (q = p) then Some v else fldf fld h q.
Proof.
  intros Hg [n Hn]. unfold fldf. rewrite upd_lookup.
  destruct (decide (q = p)) as [->|Hne]; [|reflexivity].
  rewrite Hn. cbn. now rewrite Hg.
Qed.

Lemma fldf_upd_o_same {A} (fld : node -> A) (g : node -> node) (po : option ptr)
      (h : heap) (q : ptr) :
  (forall n, fld (g n) = fld n) -> fldf fld (upd_o po g h) q = fldf fld h q.
Proof. destruct po; [apply fldf_upd_same|reflexivity]. Qed.

Lemma fldf_upd_o_set {A} (fld : node -> A) (g : node -> node) (v : A)
      (po : option ptr) (h : heap) (q : ptr) :
  (forall n, fld (g n) = v) -> (forall p, po = Some p -> is_Some (h !! p)) ->
  fldf fld (upd_o po g h) q
  = if decide (po = Some q) then Some v else fldf fld h q.
Proof.
  intros Hg Hp. destruct po as [p|]; cbn [upd_o].
  - rewrite (fldf_upd_set fld g v) by auto.
    destruct (decide (q = p)) as [->|Hne].
    + now rewrite decide_True.
    + rewrite decide_False; [reflexivity|congruence].
  - now rewrite decide_False.
Qed.

Lemma fldf_alloc {A} (fld : node -> A) (h : heap) (q : ptr) :
  is_Some (fldf fld h q) <-> is_Some (h !! q).
Proof. unfold fldf. apply fmap_is_Some. Qed.

Lemma fldf_lookup {A} (fld : node -> A) (h : heap) (q : ptr) (n : node) :
  h !! q = Some n -> fldf fld h q = Some (fld n).
Proof. unfold fldf. now intros ->. Qed.

(** ** Running reads and writes *)

Lemma read_run {A} (p : ptr) (fld : node -> A) (h : heap) (v : A) :
  fldf fld h p = Some v -> read p fld h = Some (v, h).
Proof.
  unfold fldf, read. destruct (h !! p); cbn; [|discriminate].
  now intros [= ->].
Qed.

Lemma write_run (p : ptr) (g : node -> node) (h : heap) :
  is_Some (h !! p) -> write p g h = Some (tt, upd p g h).
Proof. intros [n Hn]. unfold write, upd. now rewrite Hn. Qed.

Lemma write_o_run (po : option ptr) (g : node -> node) (h : heap) :
  (forall p, po = Some p -> is_Some (h !! p)) ->
  match po with
  | Some p => write p g
  | None => ret tt
  end h = Some (tt, upd_o po g h).
Proof.
  intros Hp. destruct po as [p|]; [|reflexivity]. now apply write_run, Hp.
Qed.

Lemma bind_run {A B} (m : M A) (f : A -> M B) (h h1 : heap) (a : A) :
  m h = Some (a, h1) -> (m ≫= f) h = f a h1.
Proof. unfold mbind, M_bind, bind. now intros ->. Qed.

(** ** Segments of sibling lists *)

Lemma dlseg_cons (h : heap) (f b : option ptr) (p : ptr) (l : list ptr)
      (e : option ptr) :
  dlseg h f b (p :: l) e <->
  f = Some p /\ fldf prev h p = Some b /\
  exists nx, fldf next h p = Some nx /\ dlseg h nx (Some p) l e.
Proof.
  cbn [dlseg]. unfold fldf. split.
  - intros [-> (n & Hn & Hp & Hl)]. rewrite Hn. cbn. rewrite Hp. eauto.
  - intros [-> [Hp (nx & Hnx & Hl)]].
    destruct (h !! p) as [n|]; [|discriminate]. cbn in Hp, Hnx.
    split; [reflexivity|]. exists n. split; [reflexivity|].
    split; congruence.
Qed.

Lemma dlseg_frame (h h' : heap) (l : list ptr) :
  (forall p, p ∈ l ->
             fldf next h' p = fldf next h p /\ fldf prev h' p = fldf prev h p) ->
  forall f b e, dlseg h f b l e -> dlseg h' f b l e.
Proof.
  induction l as [|p l IH]; intros Hl f b e; [exact id|].
  rewrite !dlseg_cons. intros [-> [Hp (nx & Hnx & Hseg)]].
  destruct (Hl p ltac:(left)) as [E1 E2].
  split; [reflexivity|]. split; [congruence|]. exists nx. split; [congruence|].
  apply IH; [|exact Hseg]. intros q Hq. apply Hl. now right.
Qed.

Lemma dlseg_head (h : heap) (f b : option ptr) (l : list ptr) (e : option ptr) :
  dlseg h f b l e -> f = head_or e l.
Proof. destruct l; cbn; [easy|now intros [-> _]]. Qed.

Lemma dlseg_alloc (h : heap) (l : list ptr) :
  forall f b e, dlseg h f b l e -> forall p, p ∈ l -> is_Some (h !! p).
Proof.
  induction l as [|q l IH]; intros f b e Hseg p Hp; [inversion Hp|].
  cbn in Hseg. destruct Hseg as [-> (n & Hn & _ & Hl)].
  apply elem_of_cons in Hp as [->|Hp]; [eauto|]. eapply IH; eassumption.
Qed.

Lemma last_or_cons (b : option ptr) (p : ptr) (l : list ptr) :
  last_or b (p :: l) = last_or (Some p) l.
Proof.
  unfold last_or. destruct l as [|q l]; [reflexivity|].
  rewrite last_cons. now destruct (last (q :: l)).
Qed.

Lemma dlseg_app (h : heap) (l1 l2 : list ptr) :
  forall f b e,
    dlseg h f b (l1 ++ l2) e <->
    dlseg h f b l1 (head_or e l2) /\
    dlseg h (head_or e l2) (last_or b l1) l2 e.
Proof.
  induction l1 as [|p l1 IH]; intros f b e.
  - cbn [app]. change (last_or b []) with b. split.
    + intros H. split; [exact (dlseg_head _ _ _ _ _ H)|].
      now rewrite <- (dlseg_head _ _ _ _ _ H).
    + intros [H1 H2]. cbn in H1. now subst f.
  - cbn [app]. rewrite !dlseg_cons, last_or_cons. split.
    + intros [-> [Hp (nx & Hnx & Hseg)]]. apply IH in Hseg as [H1 H2].
      split; [|exact H2]. eauto 6.
    + intros [[-> [Hp (nx & Hnx & H1)]] H2].
      split; [reflexivity|]. split; [exact Hp|]. exists nx.
      split; [exact Hnx|]. apply IH. now split.
Qed.

(** The links of the node of index [i]. *)
Lemma dlseg_lookup (h : heap) (l : list ptr) :
  forall f b e i p,
    dlseg h f b l e -> l !! i = Some p ->
    fldf next h p = Some (head_or e (drop (S i) l)) /\
    fldf prev h p = Some (match i with
                          | O => b
                          | S j => l !! j
                          end).
Proof.
  induction l as [|q l IH]; intros f b e i p Hseg Hi; [discriminate|].
  apply dlseg_cons in Hseg as [-> [Hp (nx & Hnx & Hseg)]].
  destruct i as [|i]; cbn in Hi.
  - injection Hi as ->. cbn [drop]. rewrite drop_0.
    split; [|exact Hp]. now rewrite <- (dlseg_head _ _ _ _ _ Hseg).
  - destruct (IH _ _ _ _ _ Hseg Hi) as [E1 E2]. split; [exact E1|].
    rewrite E2. destruct i; reflexivity.
Qed.

(** A segment whose last node gets a new successor. *)
Lemma dlseg_set_after (h h' : heap) (e' : option ptr) (l : list ptr) :
  NoDup l ->
  (forall p, p ∈ l ->
     fldf prev h' p = fldf prev h p /\
     fldf next h' p = if decide (last l = Some p) then Some e'
                      else fldf next h p) ->
  forall f b e,
    dlseg h f b l e -> dlseg h' (head_or e' l) b l e'.
Proof.
  induction l as [|p l IH]; intros Hnd Hl f b e Hseg; [reflexivity|].
  apply dlseg_cons in Hseg as [-> [Hp (nx & Hnx & Hseg)]].
  apply NoDup_cons in Hnd as [Hpl Hnd].
  destruct (Hl p ltac:(left)) as [E1 E2].
  apply dlseg_cons. split; [reflexivity|]. split; [congruence|].
  destruct l as [|q l].
  - cbn in Hseg. exists e'. split; [|reflexivity].
    rewrite E2. now rewrite decide_True.
  - exists (Some q). split.
    + rewrite E2, decide_False.
      * rewrite Hnx. now rewrite (dlseg_head _ _ _ _ _ Hseg).
      * change (last (p :: q :: l)) with (last (q :: l)). intros E.
        apply Hpl. now apply last_Some_elem_of.
    + change (Some q) with (head_or e' (q :: l)).
      apply (IH Hnd) with (f := nx) (e := e); [|exact Hseg].
      intros x Hx. destruct (Hl x ltac:(now right)) as [F1 F2].
      split; [exact F1|]. rewrite F2. reflexivity.
Qed.

(** A segment whose first node gets a new predecessor. *)
Lemma dlseg_set_before (h h' : heap) (b' : option ptr) (l : list ptr) :
  NoDup l ->
  (forall p, p ∈ l ->
     fldf next h' p = fldf next h p /\
     fldf prev h' p = if decide (head l = Some p) then Some b'
                      else fldf prev h p) ->
  forall f b e,
    dlseg h f b l e -> dlseg h' f b' l e.
Proof.
  destruct l as [|p l]; intros Hnd Hl f b e Hseg; [exact Hseg|].
  apply dlseg_cons in Hseg as [-> [Hp (nx & Hnx & Hseg)]].
  apply NoDup_cons in Hnd as [Hpl Hnd].
  destruct (Hl p ltac:(left)) as [E1 E2].
  apply dlseg_cons. split; [reflexivity|]. split.
  - rewrite E2. now rewrite decide_True.
  - exists nx. split; [congruence|]. apply (dlseg_frame h); [|exact Hseg].
    intros x Hx. destruct (Hl x ltac:(now right)) as [F1 F2].
    split; [exact F1|]. rewrite F2, decide_False; [reflexivity|].
    cbn. intros [= ->]. contradiction.
Qed.

Lemma siblings_fields (h : heap) (parent : ptr) (l : list ptr) :
  siblings h parent l <->
  exists f, fldf child h parent = Some f /\ dlseg h f None l None /\ NoDup l.
Proof.
  unfold siblings, fldf. split.
  - intros (a & Ha & Hseg & Hnd). exists (child a). now rewrite Ha.
  - intros (f & Hf & Hseg & Hnd). destruct (h !! parent) as [a|]; [|discriminate].
    injection Hf as <-. eauto.
Qed.

Lemma dlseg_length (h : heap) (l : list ptr) (f b e : option ptr) :
  dlseg h f b l e -> NoDup l -> (List.length l <= size h)%nat.
Proof.
  intros Hseg Hnd.
  rewrite <- (size_list_to_set (C := gset nat) l Hnd), <- (size_dom h).
  apply subseteq_size. intros x Hx. apply elem_of_list_to_set in Hx.
  apply elem_of_dom. eapply dlseg_alloc; eassumption.
Qed.

(** ** The loops over siblings *)

Lemma nth_sibling_run (h : heap) (l : list ptr) :
  forall f b k, dlseg h f b l None -> nth_sibling k f h = Some (l !! k, h).
Proof.
  induction l as [|p l IH]; intros f b k Hseg.
  - cbn in Hseg. subst f. now destruct k.
  - apply dlseg_cons in Hseg as [-> [_ (nx & Hnx & Hseg)]].
    destruct k as [|k]; [reflexivity|]. cbn [nth_sibling].
    rewrite (bind_run _ _ _ _ _ (read_run _ _ _ _ Hnx)).
    now rewrite (IH _ _ k Hseg).
Qed.

Lemma last_sibling_run (h : heap) (l : list ptr) :
  forall p0 b fuel,
    dlseg h (Some p0) b l None -> (List.length l <= fuel)%nat ->
    exists x, last l = Some x /\ last_sibling fuel p0 h = Some (x, h).
Proof.
  induction l as [|p l IH]; intros p0 b fuel Hseg Hfuel; [discriminate|].
  apply dlseg_cons in Hseg as [[= ->] [_ (nx & Hnx & Hseg)]].
  destruct fuel as [|fuel]; [cbn in Hfuel; lia|]. cbn [last_sibling].
  rewrite (bind_run _ _ _ _ _ (read_run _ _ _ _ Hnx)).
  destruct l as [|q l].
  - cbn in Hseg. subst nx. exists p. now split.
  - pose proof (dlseg_head _ _ _ _ _ Hseg) as E. cbn in E. subst nx.
    destruct (IH q (Some p) fuel Hseg) as (x & Hx & Hrun);
      [cbn in Hfuel |- *; lia|].
    exists x. split; [exact Hx|exact Hrun].
Qed.

(** ** From fields to [modifies] *)

Lemma modifies_fields (h h' : heap) (array : ptr) (touched freed : list ptr) :
  (forall q, q ∉ freed -> is_Some (h !! q) -> is_Some (h' !! q)) ->
  (forall q, q ∉ freed -> q <> array -> fldf child h' q = fldf child h q) ->
  (forall q, q ∉ freed -> q ∉ touched ->
             fldf next h' q = fldf next h q /\ fldf prev h' q = fldf prev h q) ->
  (forall q, q ∉ freed -> fldf is_reference h' q = fldf is_reference h q) ->
  modifies h h' array touched freed.
Proof.
  intros Ha Hc Hl Hr q n Hq Hf.
  destruct (Ha q Hf ltac:(eauto)) as [n' Hn']. exists n'.
  split; [exact Hn'|].
  specialize (Hc q Hf). specialize (Hl q Hf). specialize (Hr q Hf).
  unfold fldf in Hc, Hl, Hr. rewrite Hq, Hn' in Hc, Hl, Hr. cbn in Hc, Hl, Hr.
  split; [intros H; specialize (Hc H); congruence|].
  split; [intros H; destruct (Hl H); split; congruence|congruence].
Qed.

Lemma modifies_siblings (h h' : heap) (array : ptr) (touched freed : list ptr)
      (parent : ptr) (l : list ptr) :
  modifies h h' array touched freed ->
  siblings h parent l -> parent <> array -> parent ∉ freed ->
  (forall x, x ∈ l -> (x ∉ touched) /\ (x ∉ freed)) ->
  siblings h' parent l.
Proof.
  intros Hm (a & Ha & Hseg & Hnd) Hpa Hpf Hl.
  destruct (Hm parent a Ha Hpf) as (a' & Ha' & Hc & _).
  exists a'. split; [exact Ha'|]. split; [|exact Hnd].
  rewrite (Hc Hpa). apply (dlseg_frame h); [|exact Hseg].
  intros p Hp. destruct (Hl p Hp) as [Ht Hf].
  destruct (dlseg_alloc _ _ _ _ _ Hseg p Hp) as [n Hn].
  destruct (Hm p n Hn Hf) as (n' & Hn' & _ & Hlk & _).
  destruct (Hlk Ht) as [E1 E2]. unfold fldf. rewrite Hn, Hn'. cbn.
  split; congruence.
Qed.

Ltac alloc :=
  intros;
  repeat match goal with
         | x := _ : gmap _ _ |- _ => subst x
         end;
  repeat first [rewrite upd_alloc | rewrite upd_o_alloc];
  first [ solve [eauto]
        | match goal with
          | A : forall q, is_Some (_ !! q) <-> is_Some (_ !! q) |- _ =>
            apply A; solve [eauto]
          end ].

Ltac fields :=
  repeat match goal with
         | |- context [fldf ?fld (upd ?p ?g ?h) ?q] =>
           first [ rewrite (fldf_upd_same fld g p h q) by (intros; reflexivity)
                 | erewrite (fldf_upd_set fld g _ p h q)
                     by first [solve [intros; cbn; reflexivity] | solve [alloc]] ]
         | |- context [fldf ?fld (upd_o ?p ?g ?h) ?q] =>
           first [ rewrite (fldf_upd_o_same fld g p h q) by (intros; reflexivity)
                 | erewrite (fldf_upd_o_set fld g _ p h q)
                     by first [solve [intros; cbn; reflexivity] | solve [alloc]] ]
         end.

Ltac decides :=
  repeat match goal with
         | |- context [decide ?P] =>
           first [ rewrite (decide_True (P := P))
                     by first [reflexivity | congruence | assumption]
                 | rewrite (decide_False (P := P))
                     by first [congruence | assumption] ]
         end.

(** ** Appending *)

Lemma AddItemToArray_run (h : heap) (array : ptr) (l : list ptr) (item : ptr) :
  siblings h array l -> detached h item -> item ∉ l ->
  exists h',
    cJSON_AddItemToArray array (Some item) h = Some (tt, h') /\
    siblings h' array (l ++ [item]) /\
    modifies h h' array (item :: l) [] /\
    (forall q, fldf keystring h' q = fldf keystring h q).
Proof.
  intros Hs (ni & Hi & Hin & Hip) Hil.
  assert (Hia : is_Some (h !! item)) by eauto.
  assert (Hfn : fldf next h item = Some None) by (unfold fldf; now rewrite Hi, <- Hin).
  assert (Hfp : fldf prev h item = Some None) by (unfold fldf; now rewrite Hi, <- Hip).
  apply siblings_fields in Hs as (f & Hf & Hseg & Hnd).
  assert (Haa : is_Some (h !! array)) by (apply (fldf_alloc child); eauto).
  unfold cJSON_AddItemToArray.
  rewrite (bind_run _ _ _ _ _ (read_run _ _ _ _ Hf)).
  pose proof (dlseg_head _ _ _ _ _ Hseg) as Ehd.
  destruct l as [|p0 l0]; cbn in Ehd; subst f.
  - rewrite write_run by exact Haa. eexists. split; [reflexivity|].
    split; [|split; [|intros q; now fields]].
    + apply siblings_fields. exists (Some item). split; [|split].
      * fields. now decides.
      * apply dlseg_cons. split; [reflexivity|]. split; [now fields|].
        exists None. split; [now fields|reflexivity].
      * apply NoDup_singleton.
    + apply modifies_fields.
      * alloc.
      * intros q _ Hq. fields. now decides.
      * intros q _ Hq. now fields.
      * intros q _. now fields.
  - pose proof (dlseg_length _ _ _ _ _ Hseg Hnd) as Hlen.
    destruct (last_sibling_run h (p0 :: l0) p0 None (S (size h)) Hseg ltac:(lia))
      as (x & Hx & Hrun).
    assert (Hxl : x ∈ p0 :: l0) by now apply last_Some_elem_of.
    assert (Hxa : is_Some (h !! x)) by (eapply dlseg_alloc; eassumption).
    assert (Hxi : x <> item) by (intros ->; contradiction).
    rewrite (bind_run (with_steps (fun fuel => last_sibling fuel p0)) _ _ _ _ Hrun).
    unfold suffix_object.
    rewrite (bind_run _ _ _ _ _ (write_run _ _ _ Hxa)).
    rewrite write_run by alloc.
    eexists. split; [reflexivity|]. split; [|split; [|intros q; now fields]].
    + apply siblings_fields. exists (Some p0). split; [|split].
      * now fields.
      * apply dlseg_app. split.
        -- apply (dlseg_set_after h _ (Some item) (p0 :: l0) Hnd)
             with (e := None) (f := Some p0); [|exact Hseg].
           intros p Hp. assert (p <> item) by (intros ->; contradiction).
           fields. rewrite Hx. decides. split; [reflexivity|].
           destruct (decide (p = x)) as [->|Hpx]; now decides.
        -- apply dlseg_cons. split; [reflexivity|]. split.
           ++ fields. decides. unfold last_or. now rewrite Hx.
           ++ exists None. split; [|reflexivity]. fields. now decides.
      * apply NoDup_app. split; [exact Hnd|]. split; [|apply NoDup_singleton].
        intros y Hy Hy'. apply list_elem_of_singleton in Hy'. now subst y.
    + apply modifies_fields.
      * alloc.
      * intros q _ Hq. now fields.
      * intros q _ Hq. apply not_elem_of_cons in Hq as [Hq1 Hq2].
        assert (q <> x) by (intros ->; contradiction).
        fields. now decides.
      * intros q _. now fields.
Qed.

Lemma head_or_None (l : list ptr) : head_or None l = head l.
Proof. now destruct l. Qed.

Lemma last_or_None (l : list ptr) : last_or None l = last l.
Proof. unfold last_or. now destruct (last l). Qed.

Lemma head_or_elem (l : list ptr) (p : ptr) : head_or None l = Some p -> p ∈ l.
Proof. destruct l; [discriminate|]. intros [= ->]. now left. Qed.

Lemma last_or_elem (l : list ptr) (p : ptr) : last_or None l = Some p -> p ∈ l.
Proof. rewrite last_or_None. apply last_Some_elem_of. Qed.

Lemma detached_fields (h : heap) (c : ptr) :
  fldf next h c = Some None -> fldf prev h c = Some None -> detached h c.
Proof.
  unfold fldf, detached. destruct (h !! c) as [n|]; [|discriminate].
  cbn. intros [= E1] [= E2]. eauto.
Qed.

Lemma detached_fields_inv (h : heap) (c : ptr) :
  detached h c ->
  fldf next h c = Some None /\ fldf prev h c = Some None /\ is_Some (h !! c).
Proof.
  intros (n & Hn & E1 & E2). unfold fldf. rewrite Hn. cbn.
  rewrite E1, E2. eauto.
Qed.

Lemma modifies_refl (h : heap) (array : ptr) (touched freed : list ptr) :
  modifies h h array touched freed.
Proof. intros q n Hq _. exists n. auto. Qed.

(** The parts of a list of siblings around the child [c]. *)
Lemma dlseg_middle (h : heap) (f : option ptr) (l1 : list ptr) (c : ptr)
      (l2 : list ptr) :
  dlseg h f None (l1 ++ c :: l2) None -> NoDup (l1 ++ c :: l2) ->
  dlseg h f None l1 (Some c) /\
  fldf prev h c = Some (last_or None l1) /\
  fldf next h c = Some (head_or None l2) /\
  dlseg h (head_or None l2) (Some c) l2 None /\
  f = head_or (Some c) l1 /\
  NoDup l1 /\ NoDup l2 /\ (c ∉ l1) /\ (c ∉ l2) /\
  (forall x, x ∈ l1 -> x ∉ l2) /\
  (forall x, x ∈ l1 ++ c :: l2 -> is_Some (h !! x)).
Proof.
  intros Hseg Hnd. pose proof (dlseg_alloc _ _ _ _ _ Hseg) as Ha.
  apply dlseg_app in Hseg as [H1 H2]. cbn [head_or] in H1, H2.
  apply dlseg_cons in H2 as [_ [Hp (nx & Hnx & H2)]].
  pose proof (dlseg_head _ _ _ _ _ H2) as ->.
  pose proof (dlseg_head _ _ _ _ _ H1) as Hf.
  apply NoDup_app in Hnd as (N1 & N12 & N2).
  apply NoDup_cons in N2 as [Nc N2].
  repeat split; try assumption.
  - intros Hc. apply (N12 c Hc). now left.
  - intros x Hx Hx'. apply (N12 x Hx). now right.
Qed.

(** ** Detaching *)

Lemma DetachItemFromArray_run (h : heap) (array : ptr) (l : list ptr)
      (which : Z) :
  siblings h array l ->
  exists h',
    cJSON_DetachItemFromArray array which h = Some (l !! Z.to_nat which, h') /\
    siblings h' array (delete (Z.to_nat which) l) /\
    modifies h h' array l [] /\
    (forall c, l !! Z.to_nat which = Some c -> detached h' c) /\
    (forall q, fldf keystring h' q = fldf keystring h q).
Proof.
  intros Hs. pose proof Hs as Hs0.
  apply siblings_fields in Hs as (f & Hf & Hseg & Hnd).
  unfold cJSON_DetachItemFromArray.
  rewrite (bind_run _ _ _ _ _ (read_run _ _ _ _ Hf)).
  rewrite (bind_run _ _ _ _ _ (nth_sibling_run _ _ _ _ (Z.to_nat which) Hseg)).
  destruct (l !! Z.to_nat which) as [c|] eqn:Hc.
  2:{ exists h. split; [reflexivity|]. split.
      - rewrite delete_take_drop, take_ge, drop_ge, app_nil_r;
          [exact Hs0| |]; apply lookup_ge_None in Hc; lia.
      - split; [apply modifies_refl|]. split; [discriminate|reflexivity]. }
  rewrite delete_take_drop.
  pose proof (take_drop_middle l _ c Hc) as El.
  remember (take (Z.to_nat which) l) as l1 eqn:E1.
  remember (drop (S (Z.to_nat which)) l) as l2 eqn:E2.
  clear E1 E2 Hc Hs0. subst l.
  destruct (dlseg_middle _ _ _ _ _ Hseg Hnd)
    as (H1 & Hp & Hn & H2 & Ef & N1 & N2 & Nc1 & Nc2 & N12 & Ha).
  set (pl := last_or None l1) in *. set (nx := head_or None l2) in *.
  assert (Hpl : forall p, pl = Some p -> p ∈ l1) by apply last_or_elem.
  assert (Hnx : forall p, nx = Some p -> p ∈ l2) by apply head_or_elem.
  assert (Hpa : forall p, pl = Some p -> is_Some (h !! p)).
  { intros p E. apply Ha, elem_of_app. left. now apply Hpl. }
  assert (Hna : forall p, nx = Some p -> is_Some (h !! p)).
  { intros p E. apply Ha, elem_of_app. right. right. now apply Hnx. }
  assert (Hca : is_Some (h !! c)).
  { apply Ha, elem_of_app. right. now left. }
  assert (Haa : is_Some (h !! array)) by (apply (fldf_alloc child); eauto).
  assert (Hplc : pl <> Some c) by (intros E; apply Nc1; now apply Hpl).
  assert (Hnxc : nx <> Some c) by (intros E; apply Nc2; now apply Hnx).
  (* the predecessor is unlinked *)
  rewrite (bind_run _ _ _ _ _ (read_run _ _ _ _ Hp)).
  assert (R1 : (match pl with
                | Some p => c_next ← read c next; write p (set_next c_next)
                | None => ret tt
                end) h = Some (tt, upd_o pl (set_next nx) h)).
  { destruct pl as [p|]; [|reflexivity].
    rewrite (bind_run _ _ _ _ _ (read_run _ _ _ _ Hn)).
    now rewrite write_run by auto. }
  rewrite (bind_run _ _ _ _ _ R1). clear R1.
  (* the successor is unlinked *)
  set (h1 := upd_o pl (set_next nx) h).
  assert (Hn1 : fldf next h1 c = Some nx) by (subst h1; fields; now decides).
  assert (Hp1 : fldf prev h1 c = Some pl) by (subst h1; now fields).
  rewrite (bind_run _ _ _ _ _ (read_run _ _ _ _ Hn1)).
  assert (R2 : (match nx with
                | Some q => c_prev ← read c prev; write q (set_prev c_prev)
                | None => ret tt
                end) h1 = Some (tt, upd_o nx (set_prev pl) h1)).
  { destruct nx as [q|]; [|reflexivity].
    rewrite (bind_run _ _ _ _ _ (read_run _ _ _ _ Hp1)).
    rewrite write_run; [reflexivity|]. subst h1. alloc. }
  rewrite (bind_run _ _ _ _ _ R2). clear R2.
  (* the first child *)
  set (h2 := upd_o nx (set_prev pl) h1).
  assert (Hf2 : fldf child h2 array = Some f) by (subst h2 h1; now fields).
  assert (Hn2 : fldf next h2 c = Some nx) by (subst h2; now fields).
  rewrite (bind_run _ _ _ _ _ (read_run _ _ _ _ Hf2)).
  set (f' := if bool_decide (Some c = f) then nx else f).
  set (h3 := if bool_decide (Some c = f) then upd array (set_child nx) h2 else h2).
  assert (R3 : (if bool_decide (Some c = f)
                then c_next ← read c next; write array (set_child c_next)
                else ret tt) h2 = Some (tt, h3)).
  { subst h3. destruct (bool_decide (Some c = f)); [|reflexivity].
    rewrite (bind_run _ _ _ _ _ (read_run _ _ _ _ Hn2)).
    rewrite write_run; [reflexivity|]. subst h2 h1. alloc. }
  rewrite (bind_run _ _ _ _ _ R3). clear R3.
  assert (A3 : forall q, is_Some (h3 !! q) <-> is_Some (h !! q)).
  { intros q. subst h3 h2 h1. destruct (bool_decide (Some c = f));
      now repeat first [rewrite upd_alloc | rewrite upd_o_alloc]. }
  assert (N3 : forall q, fldf next h3 q = fldf next h2 q).
  { intros q. subst h3. destruct (bool_decide (Some c = f)); now fields. }
  assert (P3 : forall q, fldf prev h3 q = fldf prev h2 q).
  { intros q. subst h3. destruct (bool_decide (Some c = f)); now fields. }
  assert (C3 : fldf child h3 array = Some f').
  { subst h3 f'. destruct (bool_decide (Some c = f)); [|exact Hf2].
    fields. now decides. }
  rewrite (bind_run _ _ _ _ _ (write_run c (set_next None) h3 ltac:(now apply A3))).
  rewrite (bind_run _ _ _ _ _ (write_run c (set_prev None) _
                                 ltac:(now apply upd_alloc, A3))).
  eexists. split; [reflexivity|].
  assert (Ef' : f' = head_or nx l1).
  { subst f'. rewrite Ef. destruct l1 as [|p1 l1]; cbn [head_or].
    - now rewrite bool_decide_true.
    - rewrite bool_decide_false; [reflexivity|]. intros [= ->].
      apply Nc1. now left. }
  split; [|split; [|split]].
  - apply siblings_fields. exists f'. split; [|split].
    + fields. exact C3.
    + apply dlseg_app. split.
      * rewrite Ef'. apply (dlseg_set_after h _ nx l1 N1) with (e := Some c) (f := f);
          [|exact H1].
        intros p Hpin.
        assert (p <> c) by (intros ->; contradiction).
        assert (nx <> Some p) by (intros E; apply (N12 p Hpin); now apply Hnx).
        fields; try (now apply A3).
        rewrite N3, P3. subst h2 h1. fields. decides.
        split; [reflexivity|]. subst pl. now rewrite last_or_None.
      * apply (dlseg_set_before h _ pl l2 N2) with (b := Some c); [|exact H2].
        intros p Hpin.
        assert (p <> c) by (intros ->; contradiction).
        assert (pl <> Some p).
        { intros E. apply (N12 p); [now apply Hpl|exact Hpin]. }
        fields; try (now apply A3).
        rewrite N3, P3. subst h2 h1. fields. decides.
        split; [reflexivity|]. subst nx. now rewrite head_or_None.
    + apply NoDup_app. split; [exact N1|]. split; [exact N12|exact N2].
  - apply modifies_fields.
    + intros q _ Hq. apply upd_alloc, upd_alloc, A3, Hq.
    + intros q _ Hq. fields. subst h3.
      destruct (bool_decide (Some c = f)); subst h2 h1; fields; now decides.
    + intros q _ Hq.
      assert (q <> c).
      { intros ->. apply Hq, elem_of_app. right. now left. }
      assert (pl <> Some q).
      { intros E. apply Hq, elem_of_app. left. now apply Hpl. }
      assert (nx <> Some q).
      { intros E. apply Hq, elem_of_app. right. right. now apply Hnx. }
      fields; try (now apply A3). rewrite N3, P3. subst h2 h1. fields.
      now decides.
    + intros q _. fields. subst h3.
      destruct (bool_decide (Some c = f)); subst h2 h1; now fields.
  - intros c' [= <-]. apply detached_fields.
    + fields. now decides.
    + fields. now decides.
  - intros q. fields. subst h3.
    destruct (bool_decide (Some c = f)); subst h2 h1; now fields.
Qed.

(** ** Inserting *)

Lemma InsertItemInArray_run (h : heap) (array : ptr) (l : list ptr)
      (which : Z) (item : ptr) :
  siblings h array l -> detached h item -> item ∉ l ->
  exists h',
    cJSON_InsertItemInArray array which (Some item) h = Some (tt, h') /\
    siblings h' array (take (Z.to_nat which) l ++ item :: drop (Z.to_nat which) l) /\
    modifies h h' array (item :: l) [] /\
    (forall q, fldf keystring h' q = fldf keystring h q).
Proof.
  intros Hs Hd Hil. pose proof Hs as Hs0.
  destruct (detached_fields_inv _ _ Hd) as (Hin & Hip & Hia).
  apply siblings_fields in Hs as (f & Hf & Hseg & Hnd).
  unfold cJSON_InsertItemInArray.
  rewrite (bind_run _ _ _ _ _ (read_run _ _ _ _ Hf)).
  rewrite (bind_run _ _ _ _ _ (nth_sibling_run _ _ _ _ (Z.to_nat which) Hseg)).
  destruct (l !! Z.to_nat which) as [c|] eqn:Hc.
  2:{ apply lookup_ge_None in Hc.
      rewrite take_ge, drop_ge by lia.
      now apply AddItemToArray_run. }
  rewrite (drop_S l c _ Hc).
  pose proof (take_drop_middle l _ c Hc) as El.
  remember (take (Z.to_nat which) l) as l1 eqn:E1.
  remember (drop (S (Z.to_nat which)) l) as l2 eqn:E2.
  clear E1 E2 Hc Hs0. subst l.
  destruct (dlseg_middle _ _ _ _ _ Hseg Hnd)
    as (H1 & Hp & Hn & H2 & Ef & N1 & N2 & Nc1 & Nc2 & N12 & Ha).
  set (pl := last_or None l1) in *. set (nx := head_or None l2) in *.
  assert (Hpl : forall p, pl = Some p -> p ∈ l1) by apply last_or_elem.
  assert (Hpa : forall p, pl = Some p -> is_Some (h !! p)).
  { intros p E. apply Ha, elem_of_app. left. now apply Hpl. }
  assert (Hca : is_Some (h !! c)).
  { apply Ha, elem_of_app. right. now left. }
  assert (Haa : is_Some (h !! array)) by (apply (fldf_alloc child); eauto).
  assert (Hplc : pl <> Some c) by (intros E; apply Nc1; now apply Hpl).
  assert (Hic : item <> c).
  { intros ->. apply Hil, elem_of_app. right. now left. }
  assert (Hpli : pl <> Some item).
  { intros E. apply Hil, elem_of_app. left. now apply Hpl. }
  rewrite (bind_run _ _ _ _ _ (write_run item (set_next (Some c)) h Hia)).
  set (h1 := upd item (set_next (Some c)) h).
  assert (Hp1 : fldf prev h1 c = Some pl) by (subst h1; now fields).
  rewrite (bind_run _ _ _ _ _ (read_run _ _ _ _ Hp1)).
  rewrite (bind_run _ _ _ _ _ (write_run item (set_prev pl) h1 ltac:(alloc))).
  set (h2 := upd item (set_prev pl) h1).
  rewrite (bind_run _ _ _ _ _ (write_run c (set_prev (Some item)) h2 ltac:(alloc))).
  set (h3 := upd c (set_prev (Some item)) h2).
  assert (Hf3 : fldf child h3 array = Some f) by (subst h3 h2 h1; now fields).
  rewrite (bind_run _ _ _ _ _ (read_run _ _ _ _ Hf3)).
  assert (Hp3 : fldf prev h3 item = Some pl).
  { subst h3 h2 h1. fields. now decides. }
  set (h4 := if bool_decide (Some c = f)
             then upd array (set_child (Some item)) h3
             else upd_o pl (set_next (Some item)) h3).
  assert (Efirst : bool_decide (Some c = f) = bool_decide (l1 = [])).
  { rewrite Ef. destruct l1 as [|p1 l1]; cbn [head_or].
    - now rewrite !bool_decide_true.
    - rewrite !bool_decide_false; [reflexivity|discriminate|].
      intros [= ->]. apply Nc1. now left. }
  assert (R4 : (if bool_decide (Some c = f)
                then write array (set_child (Some item))
                else new_prev ← read item prev;
                     match new_prev with
                     | Some p => write p (set_next (Some item))
                     | None => fault
                     end) h3 = Some (tt, h4)).
  { subst h4. rewrite Efirst. destruct l1 as [|p1 l1].
    - rewrite bool_decide_true by reflexivity. apply write_run. alloc.
    - rewrite bool_decide_false by discriminate.
      rewrite (bind_run _ _ _ _ _ (read_run _ _ _ _ Hp3)).
      destruct pl as [p|] eqn:Epl.
      + cbn [upd_o]. apply write_run. alloc.
      + subst pl. rewrite last_or_None in Epl.
        apply last_None in Epl. discriminate. }
  rewrite R4. clear R4.
  assert (A4 : forall q, is_Some (h4 !! q) <-> is_Some (h !! q)).
  { intros q. subst h4 h3 h2 h1. destruct (bool_decide (Some c = f));
      now repeat first [rewrite upd_alloc | rewrite upd_o_alloc]. }
  assert (P4 : forall q, fldf prev h4 q = fldf prev h3 q).
  { intros q. subst h4. destruct (bool_decide (Some c = f)); now fields. }
  assert (N4 : forall q, fldf next h4 q
                         = if decide (pl = Some q) then Some (Some item)
                           else fldf next h3 q).
  { intros q. subst h4. rewrite Efirst. destruct l1 as [|p1 l1].
    - rewrite bool_decide_true by reflexivity. fields.
      now rewrite decide_False by discriminate.
    - rewrite bool_decide_false by discriminate. now fields. }
  assert (C4 : fldf child h4 array = Some (head_or (Some item) l1)).
  { subst h4. rewrite Efirst. destruct l1 as [|p1 l1].
    - rewrite bool_decide_true by reflexivity. fields. now decides.
    - rewrite bool_decide_false by discriminate. fields.
      rewrite Hf3, Ef. reflexivity. }
  exists h4. split; [reflexivity|]. split; [|split].
  - apply siblings_fields. exists (head_or (Some item) l1). split; [exact C4|].
    split.
    + apply dlseg_app. split.
      * apply (dlseg_set_after h _ (Some item) l1 N1) with (e := Some c) (f := f);
          [|exact H1].
        intros p Hpin.
        assert (p <> c) by (intros ->; contradiction).
        assert (p <> item).
        { intros ->. apply Hil, elem_of_app. now left. }
        rewrite N4, P4. subst h3 h2 h1. fields. decides.
        split; [reflexivity|]. subst pl. rewrite last_or_None.
        destruct (decide (last l1 = Some p)); reflexivity.
      * cbn [head_or]. apply dlseg_cons. split; [reflexivity|]. split.
        -- rewrite P4. exact Hp3.
        -- exists (Some c). split.
           ++ rewrite N4. subst h3 h2 h1. fields. now decides.
           ++ apply (dlseg_set_before h _ (Some item) (c :: l2)) with (b := pl).
              ** apply NoDup_cons. now split.
              ** intros p Hpin.
                 assert (p <> item).
                 { intros ->. apply Hil, elem_of_app. now right. }
                 assert (pl <> Some p).
                 { intros E. apply Hpl in E.
                   apply elem_of_cons in Hpin as [->|Hpin];
                     [contradiction|]. now apply (N12 p). }
                 rewrite N4, P4. subst h3 h2 h1. fields. decides.
                 split; [reflexivity|]. cbn [head].
                 destruct (decide (p = c)) as [->|Hpc]; now decides.
              ** apply dlseg_cons. split; [reflexivity|]. split; [exact Hp|].
                 exists nx. now split.
    + apply NoDup_app. split; [exact N1|]. split.
      * intros x Hx Hx'. apply elem_of_cons in Hx' as [->|Hx'].
        -- apply Hil, elem_of_app. now left.
        -- apply elem_of_cons in Hx' as [->|Hx']; [contradiction|].
           now apply (N12 x).
      * apply NoDup_cons. split.
        -- intros Hx. apply Hil, elem_of_app. now right.
        -- apply NoDup_cons. now split.
  - apply modifies_fields.
    + intros q _ Hq. now apply A4.
    + intros q _ Hq. subst h4.
      destruct (bool_decide (Some c = f)); subst h3 h2 h1; fields; now decides.
    + intros q _ Hq. apply not_elem_of_cons in Hq as [Hq1 Hq2].
      assert (q <> c).
      { intros ->. apply Hq2, elem_of_app. right. now left. }
      assert (pl <> Some q).
      { intros E. apply Hq2, elem_of_app. left. now apply Hpl. }
      rewrite N4, P4. subst h3 h2 h1. fields. now decides.
    + intros q _. subst h4.
      destruct (bool_decide (Some c = f)); subst h3 h2 h1; now fields.
  - intros q. subst h4.
    destruct (bool_decide (Some c = f)); subst h3 h2 h1; now fields.
Qed.

(** ** Releasing a tree *)

Lemma owned_alloc (h : heap) (c : option ptr) (F : list ptr) :
  owned h c F -> NoDup F /\ forall q, q ∈ F -> is_Some (h !! q).
Proof.
  induction 1 as [|p n below after Hn _ [N1 A1] _ [N2 A2] Hp Hd].
  - split; [constructor|]. intros q Hq. inversion Hq.
  - split.
    + apply NoDup_cons. split; [exact Hp|]. apply NoDup_app. now split.
    + intros q Hq. apply elem_of_cons in Hq as [->|Hq]; [eauto|].
      apply elem_of_app in Hq as [Hq|Hq]; auto.
Qed.

Lemma owned_frame (h h' : heap) (c : option ptr) (F : list ptr) :
  owned h c F -> (forall q, q ∈ F -> h' !! q = h !! q) -> owned h' c F.
Proof.
  induction 1 as [|p n below after Hn _ IH1 _ IH2 Hp Hd]; intros Hq.
  - constructor.
  - apply (owned_node h' p n below after).
    + rewrite Hq; [exact Hn|now left].
    + apply IH1. intros q Hin. apply Hq. right. apply elem_of_app. now left.
    + apply IH2. intros q Hin. apply Hq. right. apply elem_of_app. now right.
    + exact Hp.
    + exact Hd.
Qed.

Lemma owned_null_inv (h : heap) (F : list ptr) : owned h None F -> F = [].
Proof. now inversion 1. Qed.

Lemma Delete_loop_run (h : heap) (c : option ptr) (F : list ptr) :
  owned h c F ->
  forall h2 fuel,
    (forall q, q ∈ F -> h2 !! q = h !! q) -> (List.length F < fuel)%nat ->
    exists h',
      cJSON_Delete_loop fuel c h2 = Some (tt, h') /\
      forall q, h' !! q = if decide (q ∈ F) then None else h2 !! q.
Proof.
  induction 1 as [|p n below after Hn Hb IH1 Ha IH2 Hp Hd];
    intros h2 fuel Hq Hfuel.
  - destruct fuel as [|fuel]; [cbn in Hfuel; lia|].
    exists h2. split; [reflexivity|]. intros q.
    rewrite decide_False; [reflexivity|]. intros Hin. inversion Hin.
  - destruct fuel as [|fuel]; [cbn in Hfuel; lia|].
    cbn [List.length] in Hfuel. rewrite length_app in Hfuel.
    assert (Hn2 : h2 !! p = Some n) by (rewrite Hq; [exact Hn|now left]).
    cbn [cJSON_Delete_loop].
    rewrite (bind_run _ _ _ _ _ (read_run p next h2 _ (fldf_lookup _ _ _ _ Hn2))).
    rewrite (bind_run _ _ _ _ _
               (read_run p is_reference h2 _ (fldf_lookup _ _ _ _ Hn2))).
    rewrite (bind_run _ _ _ _ _ (read_run p child h2 _ (fldf_lookup _ _ _ _ Hn2))).
    assert (R1 : exists h3,
               (if negb (is_reference n) && bool_decide (child n <> None)
                then cJSON_Delete_loop fuel (child n) else ret tt) h2
               = Some (tt, h3) /\
               forall q, h3 !! q = if decide (q ∈ below) then None else h2 !! q).
    { destruct (is_reference n) eqn:Eref; cbn [negb andb].
      - apply owned_null_inv in Hb. subst below. exists h2.
        split; [reflexivity|]. intros q.
        rewrite decide_False; [reflexivity|]. intros Hin. inversion Hin.
      - destruct (bool_decide (child n <> None)) eqn:Ech.
        + apply (IH1 h2 fuel); [|lia]. intros q Hin. apply Hq. right.
          apply elem_of_app. now left.
        + apply bool_decide_eq_false in Ech.
          assert (Ec : child n = None) by (destruct (child n); [exfalso; apply Ech|]; easy).
          rewrite Ec in Hb. apply owned_null_inv in Hb. subst below. exists h2.
          split; [reflexivity|]. intros q.
          rewrite decide_False; [reflexivity|]. intros Hin. inversion Hin. }
    destruct R1 as (h3 & R1 & L3).
    rewrite (bind_run _ _ _ _ _ R1).
    assert (Hpb : p ∉ below).
    { intros Hin. apply Hp, elem_of_app. now left. }
    assert (Hpa : p ∉ after).
    { intros Hin. apply Hp, elem_of_app. now right. }
    assert (Hn3 : h3 !! p = Some n).
    { rewrite L3, decide_False by exact Hpb. exact Hn2. }
    assert (R2 : cJSON_free p h3 = Some (tt, delete p h3)).
    { unfold cJSON_free. now rewrite Hn3. }
    rewrite (bind_run _ _ _ _ _ R2).
    destruct (IH2 (delete p h3) fuel) as (h5 & R3 & L5); [|lia|].
    { intros q Hin.
      assert (q <> p) by (intros ->; contradiction).
      rewrite lookup_delete_ne by congruence.
      rewrite L3, decide_False by (intros Hb'; now apply (Hd q)).
      apply Hq. right. apply elem_of_app. now right. }
    exists h5. split; [exact R3|]. intros q. rewrite L5.
    destruct (decide (q ∈ after)) as [Hqa|Hqa].
    + rewrite decide_True; [reflexivity|]. right. apply elem_of_app. now right.
    + destruct (decide (q = p)) as [->|Hqp].
      * rewrite lookup_delete_eq, decide_True; [reflexivity|now left].
      * rewrite lookup_delete_ne by congruence. rewrite L3.
        destruct (decide (q ∈ below)) as [Hqb|Hqb].
        -- rewrite decide_True; [reflexivity|]. right. apply elem_of_app. now left.
        -- rewrite decide_False; [reflexivity|].
           intros Hin. apply elem_of_cons in Hin as [->|Hin]; [easy|].
           apply elem_of_app in Hin as [?|?]; contradiction.
Qed.

Lemma Delete_run (h : heap) (c : option ptr) (F : list ptr) :
  owned h c F ->
  exists h',
    cJSON_Delete c h = Some (tt, h') /\
    forall q, h' !! q = if decide (q ∈ F) then None else h !! q.
Proof.
  intros Ho. destruct (owned_alloc _ _ _ Ho) as [Hnd Ha].
  destruct (Delete_loop_run h c F Ho h (S (size h))) as (h' & R & L);
    [reflexivity| |exists h'; split; [exact R|exact L]].
  rewrite <- (size_list_to_set (C := gset nat) F Hnd), <- (size_dom h).
  apply Nat.lt_succ_r, subseteq_size. intros x Hx.
  apply elem_of_list_to_set in Hx. apply elem_of_dom. now apply Ha.
Qed.

(** ** Replacing *)

Lemma upd_lookup_ne (p : ptr) (g : node -> node) (h : heap) (q : ptr) :
  q <> p -> upd p g h !! q = h !! q.
Proof. intros H. now rewrite upd_lookup, decide_False. Qed.

Lemma upd_o_lookup_ne (po : option ptr) (g : node -> node) (h : heap) (q : ptr) :
  po <> Some q -> upd_o po g h !! q = h !! q.
Proof.
  destruct po as [p|]; [|reflexivity]. intros H. apply upd_lookup_ne. congruence.
Qed.

Lemma ReplaceItemInArray_missing (h : heap) (array : ptr) (l : list ptr)
      (which : Z) (newitem : option ptr) :
  siblings h array l -> l !! Z.to_nat which = None ->
  cJSON_ReplaceItemInArray array which newitem h = Some (tt, h).
Proof.
  intros Hs Hc. apply siblings_fields in Hs as (f & Hf & Hseg & Hnd).
  unfold cJSON_ReplaceItemInArray.
  rewrite (bind_run _ _ _ _ _ (read_run _ _ _ _ Hf)).
  rewrite (bind_run _ _ _ _ _ (nth_sibling_run _ _ _ _ (Z.to_nat which) Hseg)).
  now rewrite Hc.
Qed.

Lemma ReplaceItemInArray_run (h : heap) (array : ptr) (l : list ptr)
      (which : Z) (item c : ptr) (nc : node) (Fc : list ptr) :
  siblings h array l -> detached h item -> item ∉ l ->
  l !! Z.to_nat which = Some c -> c <> array ->
  h !! c = Some nc ->
  owned h (if is_reference nc then None else child nc) Fc ->
  (forall x, x ∈ Fc -> x <> array /\ x <> item /\ (x ∉ l)) ->
  exists h',
    cJSON_ReplaceItemInArray array which (Some item) h = Some (tt, h') /\
    siblings h' array (<[Z.to_nat which := item]> l) /\
    modifies h h' array (item :: l) (c :: Fc) /\
    (forall x, x ∈ c :: Fc -> h' !! x = None) /\
    (forall q, q ∉ c :: Fc -> fldf keystring h' q = fldf keystring h q).
Proof.
  intros Hs Hd Hil Hc Hcarr Hnc Hown HFc.
  destruct (detached_fields_inv _ _ Hd) as (Hin & Hip & Hia).
  apply siblings_fields in Hs as (f & Hf & Hseg & Hnd).
  unfold cJSON_ReplaceItemInArray.
  rewrite (bind_run _ _ _ _ _ (read_run _ _ _ _ Hf)).
  rewrite (bind_run _ _ _ _ _ (nth_sibling_run _ _ _ _ (Z.to_nat which) Hseg)).
  rewrite Hc.
  rewrite insert_take_drop by (now apply lookup_lt_Some in Hc).
  pose proof (take_drop_middle l _ c Hc) as El.
  remember (take (Z.to_nat which) l) as l1 eqn:E1.
  remember (drop (S (Z.to_nat which)) l) as l2 eqn:E2.
  clear E1 E2 Hc. subst l.
  destruct (dlseg_middle _ _ _ _ _ Hseg Hnd)
    as (H1 & Hp & Hn & H2 & Ef & N1 & N2 & Nc1 & Nc2 & N12 & Ha).
  set (pl := last_or None l1) in *. set (nx := head_or None l2) in *.
  assert (Hpl : forall p, pl = Some p -> p ∈ l1) by apply last_or_elem.
  assert (Hnx : forall p, nx = Some p -> p ∈ l2) by apply head_or_elem.
  assert (Hpa : forall p, pl = Some p -> is_Some (h !! p)).
  { intros p E. apply Ha, elem_of_app. left. now apply Hpl. }
  assert (Hna : forall p, nx = Some p -> is_Some (h !! p)).
  { intros p E. apply Ha, elem_of_app. right. right. now apply Hnx. }
  assert (Hca : is_Some (h !! c)) by eauto.
  assert (Haa : is_Some (h !! array)) by (apply (fldf_alloc child); eauto).
  assert (Hplc : pl <> Some c) by (intros E; apply Nc1; now apply Hpl).
  assert (Hnxc : nx <> Some c) by (intros E; apply Nc2; now apply Hnx).
  assert (Hic : item <> c).
  { intros ->. apply Hil, elem_of_app. right. now left. }
  assert (Hpli : pl <> Some item).
  { intros E. apply Hil, elem_of_app. left. now apply Hpl. }
  assert (Hnxi : nx <> Some item).
  { intros E. apply Hil, elem_of_app. right. right. now apply Hnx. }
  rewrite (bind_run _ _ _ _ _ (read_run _ _ _ _ Hn)).
  rewrite (bind_run _ _ _ _ _ (write_run item (set_next nx) h Hia)).
  set (h1 := upd item (set_next nx) h).
  assert (Hp1 : fldf prev h1 c = Some pl) by (subst h1; now fields).
  rewrite (bind_run _ _ _ _ _ (read_run _ _ _ _ Hp1)).
  rewrite (bind_run _ _ _ _ _ (write_run item (set_prev pl) h1 ltac:(alloc))).
  set (h2 := upd item (set_prev pl) h1).
  assert (Hn2 : fldf next h2 item = Some nx).
  { subst h2 h1. fields. now decides. }
  rewrite (bind_run _ _ _ _ _ (read_run _ _ _ _ Hn2)).
  rewrite (bind_run _ _ _ _ _
             (write_o_run nx (set_prev (Some item)) h2 ltac:(alloc))).
  set (h3 := upd_o nx (set_prev (Some item)) h2).
  assert (Hf3 : fldf child h3 array = Some f) by (subst h3 h2 h1; now fields).
  rewrite (bind_run _ _ _ _ _ (read_run _ _ _ _ Hf3)).
  assert (Hp3 : fldf prev h3 item = Some pl).
  { subst h3 h2 h1. fields. now decides. }
  set (h4 := if bool_decide (Some c = f)
             then upd array (set_child (Some item)) h3
             else upd_o pl (set_next (Some item)) h3).
  assert (Efirst : bool_decide (Some c = f) = bool_decide (l1 = [])).
  { rewrite Ef. destruct l1 as [|p1 l1]; cbn [head_or].
    - now rewrite !bool_decide_true.
    - rewrite !bool_decide_false; [reflexivity|discriminate|].
      intros [= ->]. apply Nc1. now left. }
  assert (R4 : (if bool_decide (Some c = f)
                then write array (set_child (Some item))
                else new_prev ← read item prev;
                     match new_prev with
                     | Some p => write p (set_next (Some item))
                     | None => fault
                     end) h3 = Some (tt, h4)).
  { subst h4. rewrite Efirst. destruct l1 as [|p1 l1].
    - rewrite bool_decide_true by reflexivity. apply write_run. alloc.
    - rewrite bool_decide_false by discriminate.
      rewrite (bind_run _ _ _ _ _ (read_run _ _ _ _ Hp3)).
      destruct pl as [p|] eqn:Epl.
      + cbn [upd_o]. apply write_run. alloc.
      + subst pl. rewrite last_or_None in Epl.
        apply last_None in Epl. discriminate. }
  rewrite (bind_run _ _ _ _ _ R4). clear R4.
  assert (A4 : forall q, is_Some (h4 !! q) <-> is_Some (h !! q)).
  { intros q. subst h4 h3 h2 h1. destruct (bool_decide (Some c = f));
      now repeat first [rewrite upd_alloc | rewrite upd_o_alloc]. }
  assert (P4 : forall q, fldf prev h4 q = fldf prev h3 q).
  { intros q. subst h4. destruct (bool_decide (Some c = f)); now fields. }
  assert (N4 : forall q, fldf next h4 q
                         = if decide (pl = Some q) then Some (Some item)
                           else fldf next h3 q).
  { intros q. subst h4. rewrite Efirst. destruct l1 as [|p1 l1].
    - rewrite bool_decide_true by reflexivity. fields.
      now rewrite decide_False by discriminate.
    - rewrite bool_decide_false by discriminate. now fields. }
  assert (C4 : fldf child h4 array = Some (head_or (Some item) l1)).
  { subst h4. rewrite Efirst. destruct l1 as [|p1 l1].
    - rewrite bool_decide_true by reflexivity. fields. now decides.
    - rewrite bool_decide_false by discriminate. fields.
      rewrite Hf3, Ef. reflexivity. }
  assert (K4 : forall q, q <> array -> fldf child h4 q = fldf child h q).
  { intros q Hq. subst h4.
    destruct (bool_decide (Some c = f)); subst h3 h2 h1; fields; now decides. }
  assert (F4 : forall q, fldf is_reference h4 q = fldf is_reference h q).
  { intros q. subst h4.
    destruct (bool_decide (Some c = f)); subst h3 h2 h1; now fields. }
  assert (L4 : forall q, q ∈ Fc -> h4 !! q = h !! q).
  { intros q Hq. destruct (HFc q Hq) as (Q1 & Q2 & Q3).
    assert (pl <> Some q).
    { intros E. apply Q3, elem_of_app. left. now apply Hpl. }
    assert (nx <> Some q).
    { intros E. apply Q3, elem_of_app. right. right. now apply Hnx. }
    subst h4. destruct (bool_decide (Some c = f)); subst h3 h2 h1;
      now rewrite ?upd_lookup_ne, ?upd_o_lookup_ne, ?upd_lookup_ne by assumption. }
  rewrite (bind_run _ _ _ _ _ (write_run c (set_next None) h4 ltac:(now apply A4))).
  rewrite (bind_run _ _ _ _ _ (write_run c (set_prev None) _
                                 ltac:(now apply upd_alloc, A4))).
  set (h6 := upd c (set_prev None) (upd c (set_next None) h4)).
  assert (HcFc : c ∉ Fc).
  { intros Hcin. destruct (HFc c Hcin) as (_ & _ & Q3). apply Q3, elem_of_app.
    right. now left. }
  assert (Ho6 : owned h6 (Some c) (c :: Fc ++ [])).
  { assert (A6 : is_Some (h6 !! c)) by (subst h6; now apply upd_alloc, upd_alloc, A4).
    destruct A6 as [n6 Hn6].
    assert (Ec : fldf child h6 c = fldf child h c).
    { subst h6. fields. now apply K4. }
    assert (Er : fldf is_reference h6 c = fldf is_reference h c).
    { subst h6. fields. now apply F4. }
    assert (En : fldf next h6 c = Some None).
    { subst h6. fields. now decides. }
    unfold fldf in Ec, Er, En. rewrite Hn6 in Ec, Er, En. rewrite Hnc in Ec, Er.
    cbn in Ec, Er, En. injection Ec as Ec. injection Er as Er. injection En as En.
    apply (owned_node h6 c n6 Fc []); [exact Hn6| | | |].
    - rewrite Er, Ec. apply (owned_frame h); [exact Hown|].
      intros q Hq. assert (q <> c) by (intros ->; contradiction).
      subst h6. rewrite !upd_lookup_ne by assumption. now apply L4.
    - rewrite En. constructor.
    - now rewrite app_nil_r.
    - intros x _ Hx. inversion Hx. }
  destruct (Delete_run _ _ _ Ho6) as (h7 & R7 & L7).
  rewrite app_nil_r in L7.
  exists h7. split; [exact R7|].
  assert (T7 : forall A (fld : node -> A) q,
             q ∉ c :: Fc -> fldf fld h7 q = fldf fld h6 q).
  { intros A fld q Hq. unfold fldf. now rewrite L7, decide_False. }
  assert (Hl1 : forall p, p ∈ l1 -> p ∉ c :: Fc).
  { intros p Hp1' Hx. apply elem_of_cons in Hx as [->|Hx]; [contradiction|].
    destruct (HFc p Hx) as (_ & _ & Q3). apply Q3, elem_of_app. now left. }
  assert (Hl2 : forall p, p ∈ l2 -> p ∉ c :: Fc).
  { intros p Hp2' Hx. apply elem_of_cons in Hx as [->|Hx]; [contradiction|].
    destruct (HFc p Hx) as (_ & _ & Q3). apply Q3, elem_of_app. right. now right. }
  assert (Hi7 : item ∉ c :: Fc).
  { intros Hx. apply elem_of_cons in Hx as [->|Hx]; [congruence|].
    now destruct (HFc item Hx) as (_ & Q2 & _). }
  assert (Ha7 : array ∉ c :: Fc).
  { intros Hx. apply elem_of_cons in Hx as [->|Hx]; [congruence|].
    now destruct (HFc array Hx) as (Q1 & _ & _). }
  split; [|split; [|split]].
  - apply siblings_fields. exists (head_or (Some item) l1). split; [|split].
    + rewrite T7 by exact Ha7. subst h6. fields. exact C4.
    + apply dlseg_app. split.
      * apply (dlseg_set_after h _ (Some item) l1 N1) with (e := Some c) (f := f);
          [|exact H1].
        intros p Hpin.
        assert (p <> c) by (intros ->; contradiction).
        assert (p <> item).
        { intros ->. apply Hil, elem_of_app. now left. }
        assert (nx <> Some p) by (intros E; apply (N12 p Hpin); now apply Hnx).
        rewrite !T7 by now apply Hl1. subst h6. fields.
        rewrite N4, P4. subst h3 h2 h1. fields. decides.
        split; [reflexivity|]. subst pl. rewrite last_or_None.
        destruct (decide (last l1 = Some p)); reflexivity.
      * cbn [head_or]. apply dlseg_cons. split; [reflexivity|]. split.
        -- rewrite T7 by exact Hi7. subst h6. fields. decides.
           rewrite P4. exact Hp3.
        -- exists nx. split.
           ++ rewrite T7 by exact Hi7. subst h6. fields. decides.
              rewrite N4. decides. subst h3. fields. exact Hn2.
           ++ apply (dlseg_set_before h _ (Some item) l2 N2) with (b := Some c);
                [|exact H2].
              intros p Hpin.
              assert (p <> item).
              { intros ->. apply Hil, elem_of_app. right. now right. }
              assert (p <> c) by (intros ->; contradiction).
              assert (pl <> Some p).
              { intros E. apply (N12 p); [now apply Hpl|exact Hpin]. }
              rewrite !T7 by now apply Hl2. subst h6. fields.
              rewrite N4, P4. subst h3 h2 h1. fields. decides.
              split; [reflexivity|]. subst nx. rewrite head_or_None.
              destruct (decide (head l2 = Some p)); reflexivity.
    + apply NoDup_app. split; [exact N1|]. split.
      * intros x Hx Hx'. apply elem_of_cons in Hx' as [->|Hx'].
        -- apply Hil, elem_of_app. now left.
        -- now apply (N12 x).
      * apply NoDup_cons. split; [|exact N2].
        intros Hx. apply Hil, elem_of_app. right. now right.
  - apply modifies_fields.
    + intros q Hq Hqa. rewrite L7, decide_False by exact Hq.
      subst h6. now apply upd_alloc, upd_alloc, A4.
    + intros q Hq Hqa. rewrite T7 by exact Hq. subst h6. fields. now apply K4.
    + intros q Hq Hqt. apply not_elem_of_cons in Hqt as [Hq1 Hq2].
      assert (q <> c).
      { intros ->. apply Hq2, elem_of_app. right. now left. }
      assert (pl <> Some q).
      { intros E. apply Hq2, elem_of_app. left. now apply Hpl. }
      assert (nx <> Some q).
      { intros E. apply Hq2, elem_of_app. right. right. now apply Hnx. }
      rewrite !T7 by exact Hq. subst h6. fields.
      rewrite N4, P4. subst h3 h2 h1. fields. now decides.
    + intros q Hq. rewrite T7 by exact Hq. subst h6. fields. now apply F4.
  - intros x Hx. now rewrite L7, decide_True.
  - intros q Hq. rewrite T7 by exact Hq. subst h6. fields. subst h4.
    destruct (bool_decide (Some c = f)); subst h3 h2 h1; now fields.
Qed.

(** ** Members by key *)

Lemma key_of_fldf (h h' : heap) (q : ptr) :
  fldf keystring h' q = fldf keystring h q -> key_of h' q = key_of h q.
Proof.
  unfold fldf, key_of. destruct (h' !! q), (h !! q); cbn; congruence.
Qed.

Lemma fldf_keystring (h : heap) (p : ptr) :
  is_Some (h !! p) -> fldf keystring h p = Some (key_of h p).
Proof. intros [n Hn]. unfold fldf, key_of. now rewrite Hn. Qed.

Lemma key_index_lt (keys : list (option text)) (string : text) (k : nat) :
  key_index keys string = Some k -> (k < List.length keys)%nat.
Proof.
  revert k. induction keys as [|key keys IH]; intros k; [discriminate|].
  cbn [key_index List.length].
  destruct (cJSON_strcasecmp key (Some string) =? 0); [intros [= <-]; lia|].
  destruct (key_index keys string) as [k'|]; [|discriminate].
  intros [= <-]. specialize (IH k' eq_refl). lia.
Qed.

Lemma find_key_run (h : heap) (string : text) (l : list ptr) :
  forall f b fuel i0,
    dlseg h f b l None -> (List.length l < fuel)%nat ->
    0 <= i0 -> i0 + Z.of_nat (List.length l) <= INT_MAX ->
    find_key fuel f string i0 h
    = Some (match key_index (keys_of h l) string with
            | Some k => (l !! k, i0 + Z.of_nat k)
            | None => (None, i0 + Z.of_nat (List.length l))
            end, h).
Proof.
  induction l as [|p l IH]; intros f b fuel i0 Hseg Hfuel Hi0 Hmax.
  - cbn in Hseg. subst f. destruct fuel as [|fuel]; [cbn in Hfuel; lia|].
    cbn. now rewrite Z.add_0_r.
  - pose proof (dlseg_alloc _ _ _ _ _ Hseg p ltac:(left)) as Hpa.
    apply dlseg_cons in Hseg as [-> [_ (nx & Hnx & Hseg)]].
    destruct fuel as [|fuel]; [cbn in Hfuel; lia|].
    cbn [List.length] in Hfuel, Hmax.
    cbn [find_key keys_of map key_index].
    rewrite (bind_run _ _ _ _ _ (read_run _ _ _ _ (fldf_keystring _ _ Hpa))).
    destruct (cJSON_strcasecmp (key_of h p) (Some string) =? 0).
    + cbn. now rewrite Z.add_0_r.
    + rewrite (bind_run _ _ _ _ _ (read_run _ _ _ _ Hnx)).
      rewrite wrap_int_small by (unfold INT_MAX in Hmax; lia).
      rewrite (IH nx (Some p) fuel (i0 + 1) Hseg) by lia.
      fold (keys_of h l).
      destruct (key_index (keys_of h l) string) as [k|];
        cbn [fmap option_fmap option_map List.length];
        rewrite Nat2Z.inj_succ.
      * now replace (i0 + 1 + Z.of_nat k) with (i0 + Z.succ (Z.of_nat k)) by lia.
      * now replace (i0 + 1 + Z.of_nat (List.length l))
          with (i0 + Z.succ (Z.of_nat (List.length l))) by lia.
Qed.

Lemma modifies_trans (h h0 h' : heap) (array : ptr) (touched freed : list ptr) :
  modifies h h0 array touched [] -> modifies h0 h' array touched freed ->
  modifies h h' array touched freed.
Proof.
  intros M1 M2 q n Hq Hf.
  destruct (M1 q n Hq ltac:(intros Hin; inversion Hin)) as (n0 & Hn0 & C0 & L0 & R0).
  destruct (M2 q n0 Hn0 Hf) as (n' & Hn' & C1 & L1 & R1).
  exists n'. split; [exact Hn'|]. split; [|split].
  - intros H. rewrite C1, C0; auto.
  - intros H. destruct (L0 H), (L1 H). split; congruence.
  - congruence.
Qed.

(** Giving a key to a detached node changes no list. *)
Lemma set_keystring_frame (h : heap) (item : ptr) (key : option text)
      (array : ptr) (l : list ptr) :
  is_Some (h !! item) ->
  let h0 := upd item (set_keystring key) h in
  write item (set_keystring key) h = Some (tt, h0) /\
  (siblings h array l -> siblings h0 array l) /\
  (detached h item -> detached h0 item) /\
  modifies h h0 array (item :: l) [] /\
  fldf keystring h0 item = Some key /\
  (forall q, q <> item -> h0 !! q = h !! q).
Proof.
  intros Hia h0. split; [now apply write_run|]. split; [|split; [|split; [|split]]].
  - intros Hs. apply siblings_fields in Hs as (f & Hf & Hseg & Hnd).
    apply siblings_fields. exists f. split; [subst h0; now fields|].
    split; [|exact Hnd]. apply (dlseg_frame h); [|exact Hseg].
    intros p _. subst h0. now fields.
  - intros Hd. destruct (detached_fields_inv _ _ Hd) as (E1 & E2 & _).
    apply detached_fields; subst h0; now fields.
  - apply modifies_fields.
    + intros q _ Hq. subst h0. now apply upd_alloc.
    + intros q _ _. subst h0. now fields.
    + intros q _ _. subst h0. now fields.
    + intros q _. subst h0. now fields.
  - subst h0. fields. now decides.
  - intros q Hq. subst h0. now apply upd_lookup_ne.
Qed.

Lemma AddItemToObject_run (h : heap) (object : ptr) (l : list ptr)
      (string : text) (item : ptr) :
  siblings h object l -> detached h item -> item ∉ l ->
  exists h',
    cJSON_AddItemToObject object string (Some item) h = Some (tt, h') /\
    siblings h' object (l ++ [item]) /\
    modifies h h' object (item :: l) [] /\
    key_of h' item = Some (c_str string).
Proof.
  intros Hs Hd Hil.
  destruct (detached_fields_inv _ _ Hd) as (_ & _ & Hia).
  destruct (set_keystring_frame h item (Some (c_str string)) object l Hia)
    as (R0 & S0 & D0 & M0 & K0 & _).
  destruct (AddItemToArray_run _ object l item (S0 Hs) (D0 Hd) Hil)
    as (h' & R1 & S1 & M1 & K1).
  exists h'. unfold cJSON_AddItemToObject.
  rewrite (bind_run _ _ _ _ _ R0). split; [exact R1|]. split; [exact S1|].
  split; [exact (modifies_trans _ _ _ _ _ _ M0 M1)|].
  specialize (K1 item). rewrite K0 in K1. unfold fldf in K1. unfold key_of.
  destruct (h' !! item); cbn in K1; congruence.
Qed.

Lemma DetachItemFromObject_run (h : heap) (object : ptr) (l : list ptr)
      (string : text) :
  siblings h object l -> Z.of_nat (List.length l) <= INT_MAX ->
  exists h',
    cJSON_DetachItemFromObject object string h
    = Some (match key_index (keys_of h l) string with
            | Some k => l !! k
            | None => None
            end, h') /\
    siblings h' object (match key_index (keys_of h l) string with
                        | Some k => delete k l
                        | None => l
                        end) /\
    modifies h h' object l [].
Proof.
  intros Hs Hmax. pose proof Hs as Hs0.
  apply siblings_fields in Hs as (f & Hf & Hseg & Hnd).
  unfold cJSON_DetachItemFromObject.
  rewrite (bind_run _ _ _ _ _ (read_run _ _ _ _ Hf)).
  pose proof (dlseg_length _ _ _ _ _ Hseg Hnd) as Hlen.
  pose proof (find_key_run h string l f None (S (size h)) 0 Hseg
                ltac:(lia) ltac:(lia) ltac:(lia)) as Hrun.
  rewrite (bind_run (with_steps (fun fuel => find_key fuel f string 0))
                    _ _ _ _ Hrun).
  destruct (key_index (keys_of h l) string) as [k|] eqn:Ek.
  - pose proof (key_index_lt _ _ _ Ek) as Hk. unfold keys_of in Hk.
    rewrite length_map in Hk.
    destruct (lookup_lt_is_Some_2 l k Hk) as [c Hc]. rewrite Hc. cbn [fst snd].
    destruct (DetachItemFromArray_run h object l (0 + Z.of_nat k) Hs0)
      as (h' & R & S1 & M1 & _).
    rewrite Z.add_0_l, Nat2Z.id in R, S1. rewrite Z.add_0_l.
    exists h'. rewrite R, Hc. auto.
  - cbn [fst]. exists h. split; [reflexivity|]. split; [exact Hs0|].
    apply modifies_refl.
Qed.

Lemma ReplaceItemInObject_run (h : heap) (object : ptr) (l : list ptr)
      (string : text) (item : ptr) (k : nat) (c : ptr) (nc : node)
      (Fc : list ptr) :
  siblings h object l -> Z.of_nat (List.length l) <= INT_MAX ->
  detached h item -> item ∉ l ->
  key_index (keys_of h l) string = Some k ->
  l !! k = Some c -> c <> object ->
  h !! c = Some nc ->
  owned h (if is_reference nc then None else child nc) Fc ->
  (forall x, x ∈ Fc -> x <> object /\ x <> item /\ (x ∉ l)) ->
  exists h',
    cJSON_ReplaceItemInObject object string (Some item) h = Some (tt, h') /\
    siblings h' object (<[k := item]> l) /\
    modifies h h' object (item :: l) (c :: Fc) /\
    key_of h' item = Some (c_str string).
Proof.
  intros Hs Hmax Hd Hil Ek Hc Hco Hnc Hown HFc. pose proof Hs as Hs0.
  destruct (detached_fields_inv _ _ Hd) as (_ & _ & Hia).
  apply siblings_fields in Hs as (f & Hf & Hseg & Hnd).
  unfold cJSON_ReplaceItemInObject.
  rewrite (bind_run _ _ _ _ _ (read_run _ _ _ _ Hf)).
  pose proof (dlseg_length _ _ _ _ _ Hseg Hnd) as Hlen.
  pose proof (find_key_run h string l f None (S (size h)) 0 Hseg
                ltac:(lia) ltac:(lia) ltac:(lia)) as Hrun.
  rewrite (bind_run (with_steps (fun fuel => find_key fuel f string 0))
                    _ _ _ _ Hrun).
  rewrite Ek, Hc. cbn [fst snd].
  destruct (set_keystring_frame h item (Some (c_str string)) object l Hia)
    as (R0 & S0 & D0 & M0 & K0 & L0).
  rewrite (bind_run _ _ _ _ _ R0).
  assert (Hci : c <> item).
  { intros ->. apply Hil. eapply list_elem_of_lookup_2. exact Hc. }
  destruct (ReplaceItemInArray_run _ object l (0 + Z.of_nat k) item c nc Fc
              (S0 Hs0) (D0 Hd) Hil) as (h' & R1 & S1 & M1 & _ & K1).
  - now rewrite Z.add_0_l, Nat2Z.id.
  - exact Hco.
  - now rewrite L0.
  - apply (owned_frame h); [exact Hown|]. intros q Hq. apply L0.
    now destruct (HFc q Hq) as (_ & Q2 & _).
  - exact HFc.
  - rewrite Z.add_0_l, Nat2Z.id in S1. exists h'. split; [exact R1|].
    split; [exact S1|]. split; [exact (modifies_trans _ _ _ _ _ _ M0 M1)|].
    assert (Hif : item ∉ c :: Fc).
    { intros Hin. apply elem_of_cons in Hin as [->|Hin]; [congruence|].
      now destruct (HFc item Hin) as (_ & Q2 & _). }
    specialize (K1 item Hif). rewrite K0 in K1. unfold fldf in K1.
    unfold key_of. destruct (h' !! item); cbn in K1; congruence.
Qed.

(** ** The invariant in the words of the specification *)

Lemma head_or_drop (l : list ptr) (k : nat) : head_or None (drop k l) = l !! k.
Proof.
  rewrite head_or_None, head_lookup, lookup_drop. now rewrite Nat.add_0_r.
Qed.

Lemma siblings_linked_as_claimed (h : heap) (parent : ptr) (l : list ptr) :
  siblings h parent l -> linked_as_claimed h parent l.
Proof.
  intros (np & Hnp & Hseg & Hnd). split.
  - intros a b na nb Ha Hb Hna Hnb.
    apply list_elem_of_lookup_1 in Ha as [i Hi].
    apply list_elem_of_lookup_1 in Hb as [j Hj].
    destruct (dlseg_lookup _ _ _ _ _ _ _ Hseg Hi) as [Na _].
    destruct (dlseg_lookup _ _ _ _ _ _ _ Hseg Hj) as [_ Pb].
    rewrite head_or_drop in Na. unfold fldf in Na, Pb.
    rewrite Hna in Na. rewrite Hnb in Pb. cbn in Na, Pb.
    injection Na as Na. injection Pb as Pb. rewrite Na, Pb. split.
    + intros E. assert (j = S i) by (eapply NoDup_lookup; eassumption).
      subst j. exact Hi.
    + intros E. destruct j as [|j]; [discriminate|].
      assert (i = j) by (eapply NoDup_lookup; eassumption). subst j. exact Hj.
  - intros c nc np' Hc Hnc Hnp'. rewrite Hnp in Hnp'. injection Hnp' as <-.
    apply list_elem_of_lookup_1 in Hc as [i Hi].
    destruct (dlseg_lookup _ _ _ _ _ _ _ Hseg Hi) as [_ Pc].
    unfold fldf in Pc. rewrite Hnc in Pc. cbn in Pc. injection Pc as Pc.
    rewrite Pc, (dlseg_head _ _ _ _ _ Hseg), head_or_None, head_lookup. split.
    + intros E. destruct i as [|i]; [exact Hi|].
      apply lookup_lt_Some in Hi.
      destruct (lookup_lt_is_Some_2 l i ltac:(lia)) as [x Hx]. congruence.
    + intros E. assert (i = 0)%nat by (eapply NoDup_lookup; eassumption).
      now subst i.
Qed.

Lemma siblings_sample_heap : siblings sample_heap 0%nat [1%nat; 2%nat; 3%nat].
Proof.
  eexists. split; [reflexivity|]. split.
  - cbn [dlseg]. split; [reflexivity|]. eexists. split; [reflexivity|].
    split; [reflexivity|]. split; [reflexivity|]. eexists.
    split; [reflexivity|]. split; [reflexivity|]. split; [reflexivity|].
    eexists. split; [reflexivity|]. split; reflexivity.
  - repeat (apply NoDup_cons; split; [intros Hin; repeat (apply elem_of_cons in Hin as [Hin|Hin]; [discriminate|]); inversion Hin|]).
    constructor.
Qed.

(** C9 as stated does not hold: handed the only child of an array
    once more, [cJSON_AddItemToArray] links the node to itself, and
    what the array then holds is no list: its first child has a
    [prev]. *)
Lemma append_twice_breaks_invariant : ~ append_preserves_invariant_as_claimed.
Proof.
  intros H.
  destruct (cJSON_AddItemToArray 0%nat (Some 1%nat) two_nodes)
    as [[[] h']|] eqn:E; [|vm_compute in E; discriminate].
  assert (Hs : siblings two_nodes 0%nat [1%nat]).
  { eexists. split; [reflexivity|]. split; [|apply NoDup_singleton].
    cbn [dlseg]. split; [reflexivity|]. eexists. split; [reflexivity|].
    split; reflexivity. }
  destruct (H two_nodes 0%nat [1%nat] 1%nat h' Hs E) as [l' Hs'].
  apply siblings_fields in Hs' as (f & Hf & Hseg & _).
  assert (Hh : fldf child h' 0%nat = Some (Some 1%nat) /\
               fldf prev h' 1%nat = Some (Some 1%nat)).
  { vm_compute in E. injection E as <-. split; reflexivity. }
  destruct Hh as [Hc Hp]. rewrite Hc in Hf. injection Hf as <-.
  destruct l' as [|p l']; [discriminate Hseg|].
  apply dlseg_cons in Hseg as [[= <-] [Hp' _]]. congruence.
Qed.

(** C9 (amended). The sibling-list invariant and the operations of the
    tree mutation interface.  Let the children of [array] be the list
    [l]: doubly linked from the [child] pointer, null links at both
    ends, no node twice.  Then, in the words of the specification,
    [next] and [prev] mirror each other on the children and the first
    child is the one child whose [prev] is unset.  Every operation
    returns and leaves the children of [array] such a list again:
    - handed a detached node [item] (both links null) that is not
      already a child, [cJSON_AddItemToArray] and
      [cJSON_AddItemToObject] append it (the latter gives it its key),
      [cJSON_InsertItemInArray] puts it before the child of index
      [which] or appends it when there is none,
      [cJSON_ReplaceItemInArray] and [cJSON_ReplaceItemInObject] put it
      in the place of the child [c] of that index or key and release
      [c] with the tree below it, when [c] is not the array itself and
      the tree below [c] is a tree of its own;
    - [cJSON_DetachItemFromArray] and [cJSON_DetachItemFromObject]
      return the child of that index or key, detached, and leave the
      others, or return null and change nothing when there is none.
    The counter of the search by key being an [int], the children are
    at most [INT_MAX] there.  The children of every other parent stay
    what they were when none of them is among the nodes an operation
    touches or releases. *)
Theorem mutations_preserve_sibling_lists (h : heap) (array : ptr)
        (l : list ptr) :
  siblings h array l ->
  linked_as_claimed h array l /\
  (forall item, detached h item -> item ∉ l ->
     (exists h',
        cJSON_AddItemToArray array (Some item) h = Some (tt, h') /\
        siblings h' array (l ++ [item]) /\
        modifies h h' array (item :: l) []) /\
     (forall string, exists h',
        cJSON_AddItemToObject array string (Some item) h = Some (tt, h') /\
        siblings h' array (l ++ [item]) /\
        modifies h h' array (item :: l) [] /\
        key_of h' item = Some (c_str string)) /\
     (forall which, exists h',
        cJSON_InsertItemInArray array which (Some item) h = Some (tt, h') /\
        siblings h' array
                 (take (Z.to_nat which) l ++ item :: drop (Z.to_nat which) l) /\
        modifies h h' array (item :: l) []) /\
     (forall c nc below,
        c <> array -> h !! c = Some nc ->
        owned h (if is_reference nc then None else child nc) below ->
        (forall x, x ∈ below -> x <> array /\ x <> item /\ (x ∉ l)) ->
        (forall which,
           l !! Z.to_nat which = Some c ->
           exists h',
             cJSON_ReplaceItemInArray array which (Some item) h = Some (tt, h') /\
             siblings h' array (<[Z.to_nat which := item]> l) /\
             modifies h h' array (item :: l) (c :: below) /\
             (forall x, x ∈ c :: below -> h' !! x = None)) /\
        (forall string k,
           Z.of_nat (List.length l) <= INT_MAX ->
           key_index (keys_of h l) string = Some k -> l !! k = Some c ->
           exists h',
             cJSON_ReplaceItemInObject array string (Some item) h
             = Some (tt, h') /\
             siblings h' array (<[k := item]> l) /\
             modifies h h' array (item :: l) (c :: below) /\
             key_of h' item = Some (c_str string)))) /\
  (forall which newitem,
     l !! Z.to_nat which = None ->
     cJSON_ReplaceItemInArray array which newitem h = Some (tt, h)) /\
  (forall which, exists h',
     cJSON_DetachItemFromArray array which h
     = Some (l !! Z.to_nat which, h') /\
     siblings h' array (delete (Z.to_nat which) l) /\
     modifies h h' array l [] /\
     (forall c, l !! Z.to_nat which = Some c -> detached h' c)) /\
  (Z.of_nat (List.length l) <= INT_MAX ->
   forall string, exists h',
     cJSON_DetachItemFromObject array string h
     = Some (match key_index (keys_of h l) string with
             | Some k => l !! k
             | None => None
             end, h') /\
     siblings h' array (match key_index (keys_of h l) string with
                        | Some k => delete k l
                        | None => l
                        end) /\
     modifies h h' array l []) /\
  (forall h' touched freed parent l',
     modifies h h' array touched freed ->
     siblings h parent l' -> parent <> array -> parent ∉ freed ->
     (forall x, x ∈ l' -> (x ∉ touched) /\ (x ∉ freed)) ->
     siblings h' parent l').
Proof.
  intros Hs. split; [now apply siblings_linked_as_claimed|].
  split; [|split; [|split; [|split]]].
  - intros item Hd Hil. split; [|split; [|split]].
    + destruct (AddItemToArray_run h array l item Hs Hd Hil)
        as (h' & R & S1 & M1 & _). eauto.
    + intros string. now apply AddItemToObject_run.
    + intros which.
      destruct (InsertItemInArray_run h array l which item Hs Hd Hil)
        as (h' & R & S1 & M1 & _). eauto.
    + intros c nc below Hca Hnc Hown Hbelow. split.
      * intros which Hc.
        destruct (ReplaceItemInArray_run h array l which item c nc below
                    Hs Hd Hil Hc Hca Hnc Hown Hbelow)
          as (h' & R & S1 & M1 & F1 & _). eauto 6.
      * intros string k Hmax Ek Hc.
        now apply (ReplaceItemInObject_run h array l string item k c nc below).
  - intros which newitem Hc. now apply (ReplaceItemInArray_missing h array l).
  - intros which.
    destruct (DetachItemFromArray_run h array l which Hs)
      as (h' & R & S1 & M1 & D1 & _). eauto 6.
  - intros Hmax string. now apply DetachItemFromObject_run.
  - intros h' touched freed parent l' Hm Hp Hne Hnf Hl'.
    now apply (modifies_siblings h h' array touched freed).
Qed.

Lemma mutations_preserve_sibling_lists_witness :
  siblings sample_heap 0%nat [1%nat; 2%nat; 3%nat] /\
  exists h',
    cJSON_DetachItemFromArray 0%nat 1 sample_heap = Some (Some 2%nat, h') /\
    siblings h' 0%nat [1%nat; 3%nat].
Proof.
  split; [exact siblings_sample_heap|].
  destruct (proj1 (proj2 (proj2 (proj2
              (mutations_preserve_sibling_lists sample_heap 0%nat
                 [1%nat; 2%nat; 3%nat] siblings_sample_heap)))) 1)
    as (h' & R & S1 & _).
  exists h'. split; [exact R|exact S1].
Defined.

End SiblingLists.

(** * The buffered printer *)

(** ** The printed text holds no terminator *)

Abbreviation no_nul s := (Forall (fun c : ascii => c <> NUL) s).

Lemma digits_no_nul (t : text) :
  Forall (fun c => is_digit c = true) t -> no_nul t.
Proof.
  intros H. eapply Forall_impl; [exact H|]. intros c Hc ->. discriminate.
Qed.

Lemma decimal_no_nul (n : Z) : no_nul (decimal n).
Proof. apply digits_no_nul, decimal_digits. Qed.

Lemma sign_text_no_nul (s : bool) : no_nul (sign_text s).
Proof. destruct s; repeat constructor. discriminate. Qed.

Lemma replicate_no_nul (n : nat) (c : ascii) : c <> NUL -> no_nul (replicate n c).
Proof. intros H. induction n; cbn; constructor; assumption. Qed.

Lemma zero_padded_no_nul (width : nat) (n : Z) : no_nul (zero_padded width n).
Proof.
  unfold zero_padded. apply Forall_app. split; [|apply decimal_no_nul].
  apply replicate_no_nul. discriminate.
Qed.

Lemma sprintf_d_no_nul (i : Z) : no_nul (sprintf_d i).
Proof.
  unfold sprintf_d. destruct (i <? 0); [constructor; [discriminate|]|];
    apply decimal_no_nul.
Qed.

Lemma sprintf_f_no_nul (digits : nat) (d : double) : no_nul (sprintf_f digits d).
Proof.
  destruct d as [s|s| |s m e]; cbn [sprintf_f].
  - apply Forall_app. split; [apply sign_text_no_nul|].
    constructor; [discriminate|]. destruct digits; [constructor|].
    constructor; [discriminate|]. apply replicate_no_nul. discriminate.
  - apply Forall_app. split; [apply sign_text_no_nul|].
    repeat constructor; discriminate.
  - repeat constructor; discriminate.
  - destruct (fraction_of m e) as [num den].
    apply Forall_app. split; [apply sign_text_no_nul|].
    apply Forall_app. split; [apply decimal_no_nul|].
    destruct digits; [constructor|].
    constructor; [discriminate|]. apply zero_padded_no_nul.
Qed.

Lemma sprintf_e_no_nul (d : double) : no_nul (sprintf_e d).
Proof.
  destruct d as [s|s| |s m e]; cbn [sprintf_e].
  - apply Forall_app. split; [apply sign_text_no_nul|].
    repeat constructor; discriminate.
  - apply Forall_app. split; [apply sign_text_no_nul|].
    repeat constructor; discriminate.
  - repeat constructor; discriminate.
  - destruct (fraction_of m e) as [num den].
    destruct (scaled_by _ num den) as [n dn].
    match goal with
    | |- context [if ?c then _ else _] => destruct c
    end;
      (apply Forall_app; split; [apply sign_text_no_nul|];
       apply Forall_app; split; [apply decimal_no_nul|];
       constructor; [discriminate|];
       apply Forall_app; split; [apply zero_padded_no_nul|];
       constructor; [discriminate|];
       constructor; [match goal with
                     | |- context [if ?c then _ else _] => destruct c
                     end; discriminate|];
       apply zero_padded_no_nul).
Qed.

Lemma print_number_fields_no_nul (d : double) (valueint : Z) :
  no_nul (print_number_fields d valueint).
Proof.
  unfold print_number_fields.
  repeat match goal with
         | |- context [if ?c then _ else _] => destruct c
         end;
    first [ apply sprintf_d_no_nul | apply sprintf_f_no_nul
          | apply sprintf_e_no_nul | repeat constructor; discriminate ].
Qed.

Lemma c_str_nul_free (s : text) : no_nul (c_str s).
Proof.
  induction s as [|c s IH]; cbn [c_str]; [constructor|].
  destruct (Ascii.eqb_spec c NUL); [constructor|]. now constructor.
Qed.

Lemma escape_char_no_nul (c : ascii) : c <> NUL -> no_nul (escape_char c).
Proof.
  intros Hc. each_char c; try (exfalso; now apply Hc);
    vm_compute; repeat constructor; discriminate.
Qed.

Lemma escape_loop_no_nul (s : text) : no_nul (escape_loop s).
Proof.
  induction s as [|c s IH]; cbn [escape_loop]; [constructor|].
  destruct (Ascii.eqb_spec c NUL); [constructor|].
  apply Forall_app. split; [now apply escape_char_no_nul|exact IH].
Qed.

Lemma print_string_ptr_no_nul (s : text) : no_nul (print_string_ptr s).
Proof.
  unfold print_string_ptr.
  destruct (negb _); (constructor; [discriminate|]); apply Forall_app;
    (split; [|repeat constructor; discriminate]).
  - apply c_str_nul_free.
  - apply escape_loop_no_nul.
Qed.

Lemma tabs_no_nul (n : Z) : no_nul (tabs n).
Proof. apply replicate_no_nul. discriminate. Qed.

Lemma compose_array_no_nul (fmt : bool) (es : list text) :
  Forall (fun e => no_nul e) es -> no_nul (compose_array fmt es).
Proof.
  induction 1 as [|e es He _ IH]; cbn [compose_array]; [constructor|].
  apply Forall_app. split; [exact He|]. apply Forall_app. split; [|exact IH].
  destruct es; [constructor|]. destruct fmt; repeat constructor; discriminate.
Qed.

Lemma compose_object_no_nul (fmt : bool) (d : Z) (ms : list (text * text)) :
  Forall (fun m => no_nul m.1 /\ no_nul m.2) ms ->
  no_nul (compose_object fmt d ms).
Proof.
  induction 1 as [|[n e] ms [Hn He] _ IH]; cbn [compose_object]; [constructor|].
  cbn [fst snd] in Hn, He.
  apply Forall_app. split; [destruct fmt; [apply tabs_no_nul|constructor]|].
  apply Forall_app. split; [exact Hn|]. constructor; [discriminate|].
  apply Forall_app. split; [destruct fmt; repeat constructor; discriminate|].
  apply Forall_app. split; [exact He|].
  apply Forall_app. split; [destruct ms; repeat constructor; discriminate|].
  apply Forall_app. split; [destruct fmt; repeat constructor; discriminate|].
  exact IH.
Qed.

Lemma all_some_Forall {A B} (P : B -> Prop) (f : A -> option B) (l : list A)
      (l' : list B) :
  Forall (fun a => forall b, f a = Some b -> P b) l ->
  all_some (map f l) = Some l' -> Forall P l'.
Proof.
  intros H. revert l'. induction H as [|a l Ha _ IH]; intros l'; cbn [map all_some].
  - intros [= <-]. constructor.
  - destruct (f a) as [b|] eqn:Eb; [|discriminate].
    destruct (all_some (map f l)) as [bs|]; [|discriminate].
    intros [= <-]. constructor; [now apply Ha|now apply IH].
Qed.

Lemma print_value_no_nul (item : cJSON) :
  forall depth fmt out, print_value item depth fmt = Some out -> no_nul out.
Proof.
  induction item as [t IH] using cJSON_tree_ind. intros depth fmt out.
  destruct t as [ch ty vs vi vd ks]. cbn [child] in IH.
  cbn [print_value type]. destruct ty.
  - intros [= <-]. repeat constructor; discriminate.
  - intros [= <-]. repeat constructor; discriminate.
  - intros [= <-]. repeat constructor; discriminate.
  - intros [= <-]. apply print_number_fields_no_nul.
  - unfold print_string. cbn [valuestring]. destruct vs as [s|]; [|discriminate].
    intros [= <-]. apply print_string_ptr_no_nul.
  - unfold print_array. cbn [child].
    destruct (List.length ch =? 0)%nat.
    { intros [= <-]. repeat constructor; discriminate. }
    destruct (all_some (map _ ch)) as [es|] eqn:Ees; [|discriminate].
    intros [= <-]. constructor; [discriminate|]. apply Forall_app.
    split; [|repeat constructor; discriminate].
    apply compose_array_no_nul.
    apply (all_some_Forall _ (fun c => print_value c (depth + 1) fmt) ch es);
      [|exact Ees].
    eapply Forall_impl; [exact IH|]. intros c Hc e. apply Hc.
  - unfold print_object. cbn [child].
    destruct (List.length ch =? 0)%nat.
    { intros [= <-]. constructor; [discriminate|]. apply Forall_app.
      split; [|repeat constructor; discriminate].
      destruct fmt; [|constructor]. constructor; [discriminate|apply tabs_no_nul]. }
    destruct (all_some (map (fun c => print_string_ptr <$> keystring c) ch))
      as [ns|] eqn:Ens; [|discriminate].
    destruct (all_some (map (fun c => print_value c (depth + 1) fmt) ch))
      as [es|] eqn:Ees; [|discriminate].
    intros [= <-]. constructor; [discriminate|]. apply Forall_app.
    split; [destruct fmt; repeat constructor; discriminate|].
    apply Forall_app. split.
    + apply compose_object_no_nul.
      assert (Hns : Forall (fun n => no_nul n) ns).
      { apply (all_some_Forall _ (fun c => print_string_ptr <$> keystring c) ch ns);
          [|exact Ens].
        apply Forall_forall. intros c _ n. destruct (keystring c); [|discriminate].
        intros [= <-]. apply print_string_ptr_no_nul. }
      assert (Hes : Forall (fun e => no_nul e) es).
      { apply (all_some_Forall _ (fun c => print_value c (depth + 1) fmt) ch es);
          [|exact Ees].
        eapply Forall_impl; [exact IH|]. intros c Hc e. apply Hc. }
      clear -Hns Hes. revert es Hes.
      induction Hns as [|n ns Hn _ IHn]; intros es Hes; [constructor|].
      destruct Hes as [|e es He Hes]; [constructor|].
      cbn [zip zip_with]. constructor; [now split|now apply IHn].
    + apply Forall_app. split; [destruct fmt; [apply tabs_no_nul|constructor]|].
      repeat constructor; discriminate.
Qed.

Section BufferedProofs.
Variable cJSON_malloc : Z -> option (list cell).
Hypothesis Hsound : allocator_sound cJSON_malloc.
Hypothesis Havail : memory_available cJSON_malloc.

Abbreviation len s := (Z.of_nat (List.length s)).

Ltac zlia := unfold cell in *; lia.

Ltac cond_true :=
  match goal with
  | |- context [if ?c then _ else _] =>
    let E := fresh "E" in
    destruct c eqn:E;
    [|exfalso; unfold INT_MIN, INT_MAX, cell in *;
      repeat match goal with
             | H : _ && _ = false |- _ => apply andb_false_iff in H as [H|H]
             | H : (_ <=? _) = false |- _ => apply Z.leb_gt in H
             end; zlia]
  end.

Lemma Buf_bind_run {A B} (m : Buf A) (f : A -> Buf B) (p p1 : printbuffer) (a : A) :
  m p = Some (a, p1) -> (m ≫= f) p = f a p1.
Proof. unfold mbind, Buf_bind. now intros ->. Qed.

(** ** Steps on a storage that holds a text *)

Lemma ensure_laid (p : printbuffer) (w : text) (junk : list cell) (n : Z) :
  laid p w junk -> 0 <= n -> len w + n <= 2 ^ 30 ->
  exists p' junk',
    ensure_b cJSON_malloc n p = Some (Some (len w), p') /\
    laid p' w junk' /\ n <= len junk'.
Proof.
  intros (Hb & Hl & Ho) Hn Hsum. unfold ensure_b, ensure. rewrite Hb, Ho.
  rewrite wrap_int_small by zlia.
  destruct (n + len w <=? buflen p) eqn:E.
  - apply Z.leb_le in E. exists p, junk. split; [reflexivity|].
    split; [now repeat split|]. rewrite Hl in E. zlia.
  - apply Z.leb_gt in E.
    destruct (pow2gt_spec (n + len w) ltac:(zlia)) as (k & Hk & Hpk & Hle & Hmin).
    assert (Hp30 : pow2gt (n + len w) <= 2 ^ 30).
    { apply Hmin; zlia. }
    destruct (Havail (pow2gt (n + len w)) ltac:(zlia)) as [st Hst].
    rewrite Hst. pose proof (Hsound _ _ Hst) as Hlen.
    eexists. exists (junk ++ drop (List.length (map Some w ++ junk)) st).
    split; [reflexivity|]. split.
    + repeat split; cbn [buffer buflen offset].
      * unfold memcpy. rewrite Hl, Nat2Z.id.
        rewrite <- (length_map Some w), <- length_app, firstn_all.
        now rewrite <- app_assoc.
      * rewrite length_app, length_drop, length_app, length_map.
        unfold cell in *. zlia.
    + rewrite length_app, length_drop, length_app, length_map.
      unfold cell in *. zlia.
Qed.

Lemma store_laid (p : printbuffer) (w : text) (junk : list cell) (s : text) :
  laid p w junk -> len s <= len junk ->
  exists p',
    store (len w) s p = Some (tt, p') /\
    laid p' w (map Some s ++ drop (List.length s) junk).
Proof.
  intros (Hb & Hl & Ho) Hs. unfold store. rewrite Hb.
  rewrite length_app, length_map.
  cond_true.
  eexists. split; [reflexivity|]. repeat split; cbn [buffer buflen offset].
  - rewrite Nat2Z.id. rewrite <- (length_map Some w) at 1.
    rewrite take_app_length. rewrite <- (length_map Some w) at 1.
    rewrite drop_app_add'; [reflexivity|reflexivity].
  - rewrite Hl, length_app, length_map, length_drop. zlia.
  - exact Ho.
Qed.

Lemma laid_app (p : printbuffer) (w s : text) (junk : list cell) :
  buffer p = Some (map Some w ++ map Some s ++ junk) ->
  buflen p = Z.of_nat (List.length w + (List.length s + List.length junk)) ->
  buffer p = Some (map Some (w ++ s) ++ junk) /\
  buflen p = Z.of_nat (List.length (w ++ s) + List.length junk).
Proof.
  intros Hb Hl. split.
  - now rewrite map_app, <- app_assoc.
  - rewrite Hl, length_app. zlia.
Qed.

Lemma advance_laid (p : printbuffer) (w s : text) (junk : list cell) (n : Z) :
  laid p w (map Some s ++ junk) -> n = len s -> len w + n <= 2 ^ 30 ->
  exists p', advance n p = Some (tt, p') /\ laid p' (w ++ s) junk.
Proof.
  intros (Hb & Hl & Ho) -> Hsum. unfold advance. rewrite Ho.
  cond_true.
  eexists. split; [reflexivity|]. rewrite length_app, length_map in Hl.
  destruct (laid_app _ _ _ _ Hb Hl) as [Hb' Hl'].
  repeat split; cbn [buffer buflen offset]; [exact Hb'|exact Hl'|].
  rewrite length_app. zlia.
Qed.

Lemma strlen_text (t : text) (junk : list cell) :
  Forall (fun c => c <> NUL) t ->
  strlen (map Some t ++ Some NUL :: junk) = Some (len t).
Proof.
  induction 1 as [|c t Hc _ IH]; [reflexivity|].
  cbn [map app strlen]. destruct (Ascii.eqb_spec c NUL); [contradiction|].
  rewrite IH. f_equal. cbn [List.length]. zlia.
Qed.

Lemma string_at_text (t : text) (junk : list cell) :
  Forall (fun c => c <> NUL) t ->
  string_at (map Some t ++ Some NUL :: junk) = Some t.
Proof.
  induction 1 as [|c t Hc _ IH]; [reflexivity|].
  cbn [map app string_at]. destruct (Ascii.eqb_spec c NUL); [contradiction|].
  now rewrite IH.
Qed.

Lemma update_printed (p : printbuffer) (pre out : text) :
  printed p pre out -> Forall (fun c => c <> NUL) out ->
  len pre + len out <= 2 ^ 30 ->
  exists o p' junk,
    update p = Some (o, p) /\ set_offset o p = Some (tt, p') /\
    laid p' (pre ++ out) (Some NUL :: junk).
Proof.
  intros (done & rest & junk & -> & Hb & Hl & Ho) Hnul Hsum.
  apply Forall_app in Hnul as [_ Hrest].
  rewrite length_app in Hsum.
  assert (Hu : update p = Some (len (pre ++ done) + len rest, p)).
  { unfold update. rewrite Hb, Ho.
    cond_true.
    rewrite Nat2Z.id. rewrite <- (length_map Some (pre ++ done)) at 1.
    rewrite drop_app_length, strlen_text by exact Hrest.
    rewrite wrap_int_small; [reflexivity|]. rewrite length_app. zlia. }
  eexists. eexists. exists junk. split; [exact Hu|].
  split; [reflexivity|].
  repeat split; cbn [buffer buflen offset].
  - rewrite Hb. now rewrite (app_assoc pre), !map_app, <- !app_assoc.
  - rewrite Hl, !length_app, !length_map. cbn [List.length]. zlia.
  - rewrite !length_app. zlia.
Qed.

Lemma ensure_and_copy_laid (p : printbuffer) (w : text) (junk : list cell)
      (n : Z) (s : text) :
  laid p w junk -> len s < n -> len w + n <= 2 ^ 30 ->
  exists p',
    ensure_and_copy cJSON_malloc n s p = Some (Some (len w), p') /\
    printed p' w s.
Proof.
  intros Hl Hs Hsum. unfold ensure_and_copy.
  destruct (ensure_laid p w junk n Hl ltac:(zlia) Hsum) as (p1 & junk1 & R1 & L1 & Hroom).
  rewrite (Buf_bind_run _ _ _ _ _ R1).
  destruct (store_laid p1 w junk1 (s ++ [NUL]) L1) as (p2 & R2 & L2).
  { rewrite length_app. cbn [List.length]. zlia. }
  rewrite (Buf_bind_run _ _ _ _ _ R2).
  eexists. split; [reflexivity|].
  exists [], s, (drop (List.length (s ++ [NUL])) junk1).
  split; [reflexivity|]. rewrite app_nil_r.
  destruct L2 as (Hb & Hlen & Ho).
  rewrite map_app, <- app_assoc in Hb, Hlen. cbn [map app] in Hb, Hlen.
  repeat split; assumption.
Qed.

(** Room is made, characters are stored and the offset moves behind
    the first part of them. *)
Lemma emit_run (p : printbuffer) (w : text) (junk : list cell) (n : Z)
      (s extra : text) (k : Z) :
  laid p w junk -> len s + len extra <= n -> k = len s -> len w + n <= 2 ^ 30 ->
  exists p1 p2 p3 junk',
    ensure_b cJSON_malloc n p = Some (Some (len w), p1) /\
    store (len w) (s ++ extra) p1 = Some (tt, p2) /\
    advance k p2 = Some (tt, p3) /\
    laid p3 (w ++ s) (map Some extra ++ junk').
Proof.
  intros Hl Hn -> Hsum.
  destruct (ensure_laid p w junk n Hl ltac:(zlia) Hsum) as (p1 & junk1 & R1 & L1 & Hroom).
  destruct (store_laid p1 w junk1 (s ++ extra) L1) as (p2 & R2 & L2).
  { rewrite length_app. zlia. }
  rewrite map_app, <- app_assoc in L2.
  destruct (advance_laid p2 w s _ (len s) L2 eq_refl ltac:(zlia)) as (p3 & R3 & L3).
  exists p1, p2, p3. eexists.
  split; [exact R1|]. split; [exact R2|]. split; [exact R3|exact L3].
Qed.

(** Room is made and the closing characters are stored with their
    terminator; the offset stays. *)
Lemma close_run (p : printbuffer) (pre done : text) (junk : list cell) (n : Z)
      (s : text) :
  laid p (pre ++ done) junk -> len s < n -> len (pre ++ done) + n <= 2 ^ 30 ->
  exists p1 p2,
    ensure_b cJSON_malloc n p = Some (Some (len (pre ++ done)), p1) /\
    store (len (pre ++ done)) (s ++ [NUL]) p1 = Some (tt, p2) /\
    printed p2 pre (done ++ s).
Proof.
  intros Hl Hn Hsum.
  destruct (ensure_laid p _ junk n Hl ltac:(zlia) Hsum) as (p1 & junk1 & R1 & L1 & Hroom).
  destruct (store_laid p1 _ junk1 (s ++ [NUL]) L1) as (p2 & R2 & L2).
  { rewrite length_app. cbn [List.length]. zlia. }
  exists p1, p2. split; [exact R1|]. split; [exact R2|].
  exists done, s. eexists. split; [reflexivity|].
  rewrite map_app, <- app_assoc in L2. exact L2.
Qed.

(** ** Leaves *)

Lemma print_number_b_eq (item : cJSON) :
  print_number_b cJSON_malloc item
  = ensure_and_copy cJSON_malloc
      (number_room (valuedouble item) (valueint item))
      (print_number_fields (valuedouble item) (valueint item)).
Proof.
  unfold print_number_b, number_room, print_number_fields.
  repeat match goal with
         | |- context [if ?c then _ else _] => destruct c
         end; reflexivity.
Qed.

Lemma escape_char_length (c : ascii) :
  1 + (if existsb (Ascii.eqb c)
                  [dquote; backslash; char_of 8; char_of 12; char_of 10;
                   char_of 13; char_of 9]
       then 1
       else if code c <? 32 then 5 else 0)
  = len (escape_char c).
Proof. each_char c; vm_compute; reflexivity. Qed.

Lemma escaped_length_eq (s : text) : escaped_length s = len (escape_loop s).
Proof.
  induction s as [|c s IH]; [reflexivity|]. cbn [escaped_length escape_loop].
  destruct (Ascii.eqb c NUL); [reflexivity|].
  rewrite length_app, Nat2Z.inj_add, <- IH, <- escape_char_length. reflexivity.
Qed.

Lemma print_string_ptr_b_eq (s : text) :
  print_string_ptr_b cJSON_malloc (Some s)
  = ensure_and_copy cJSON_malloc (len (print_string_ptr s) + 1)
                    (print_string_ptr s).
Proof.
  unfold print_string_ptr_b, print_string_ptr.
  destruct (negb (existsb needs_escape (c_str s))); f_equal.
  - cbn [List.length]. rewrite length_app. cbn [List.length]. zlia.
  - rewrite escaped_length_eq. cbn [List.length]. rewrite length_app.
    cbn [List.length]. zlia.
Qed.

(** ** Arrays *)

Lemma print_array_loop_b_run (pvb : cJSON -> Buf (option Z)) (fmt : bool)
      (cs : list cJSON) (es : list text) :
  Forall2 (prints_b pvb) cs es ->
  forall p w junk,
    laid p w junk ->
    len w + len (compose_array fmt es) + 64 <= 2 ^ 30 ->
    exists p' junk',
      print_array_loop_b cJSON_malloc pvb fmt cs p = Some (true, p') /\
      laid p' (w ++ compose_array fmt es) junk'.
Proof.
  induction 1 as [|c e cs es [Hnul Hc] Hrest IH]; intros p w junk Hl Hsum.
  - exists p, junk. split; [reflexivity|]. cbn [compose_array].
    now rewrite app_nil_r.
  - cbn [compose_array] in Hsum |- *. rewrite !length_app in Hsum.
    destruct (Hc p w junk Hl ltac:(zlia)) as (r & p1 & R1 & P1).
    destruct (update_printed p1 w e P1 Hnul ltac:(zlia))
      as (o & p2 & junk2 & R2 & R2' & L2).
    cbn [print_array_loop_b].
    rewrite (Buf_bind_run _ _ _ _ _ R1), (Buf_bind_run _ _ _ _ _ R2),
      (Buf_bind_run _ _ _ _ _ R2').
    destruct Hrest as [|c' e' cs es Hc' Hrest].
    + exists p2. eexists. split; [reflexivity|]. rewrite !app_nil_r. exact L2.
    + set (sep := ","%char :: (if fmt then [" "%char] else [])) in *.
      assert (Hsep : len sep = if fmt then 2 else 1) by (destruct fmt; reflexivity).
      destruct (emit_run p2 (w ++ e) _ ((if fmt then 2 else 1) + 1) sep [NUL]
                         (if fmt then 2 else 1) L2)
        as (p3 & p4 & p5 & junk5 & R3 & R4 & R5 & L5).
      { cbn [List.length]. zlia. }
      { now rewrite Hsep. }
      { rewrite length_app. destruct fmt; zlia. }
      destruct (IH p5 ((w ++ e) ++ sep) _ L5) as (p6 & junk6 & R6 & L6).
      { rewrite !length_app. zlia. }
      exists p6, junk6. split.
      * rewrite (Buf_bind_run _ _ _ _ _ R3).
        unfold sep in R4. cbn [app] in R4.
        rewrite (Buf_bind_run _ _ _ _ _ R4), (Buf_bind_run _ _ _ _ _ R5).
        exact R6.
      * rewrite <- !app_assoc in L6. exact L6.
Qed.

Lemma get_offset_laid (p : printbuffer) (w : text) (junk : list cell) :
  laid p w junk -> get_offset p = Some (len w, p).
Proof. intros (_ & _ & Ho). unfold get_offset. now rewrite Ho. Qed.

Lemma print_array_b_run (pvb : cJSON -> Buf (option Z)) (fmt : bool)
      (item : cJSON) (es : list text) :
  child item <> [] ->
  Forall2 (prints_b pvb) (child item) es ->
  forall p w junk,
    laid p w junk ->
    len w + len ("["%char :: compose_array fmt es ++ ["]"%char]) + 64 <= 2 ^ 30 ->
    exists p',
      print_array_b cJSON_malloc pvb fmt item p = Some (Some (len w), p') /\
      printed p' w ("["%char :: compose_array fmt es ++ ["]"%char]).
Proof.
  intros Hne Hall p w junk Hl Hsum. unfold print_array_b.
  destruct (child item) as [|c0 cs0] eqn:Ech; [contradiction|].
  cbn [List.length Nat.eqb]. rewrite <- Ech in *. clear Ech c0 cs0.
  cbn [List.length] in Hsum. rewrite length_app in Hsum. cbn [List.length] in Hsum.
  rewrite (Buf_bind_run _ _ _ _ _ (get_offset_laid _ _ _ Hl)).
  destruct (emit_run p w junk 1 ["["%char] [] 1 Hl)
    as (p1 & p2 & p3 & junk3 & R1 & R2 & R3 & L3);
    [cbn; zlia|reflexivity|zlia|].
  cbn [app map] in R2, L3.
  rewrite (Buf_bind_run _ _ _ _ _ R1), (Buf_bind_run _ _ _ _ _ R2),
    (Buf_bind_run _ _ _ _ _ R3).
  destruct (print_array_loop_b_run pvb fmt _ es Hall p3 _ _ L3)
    as (p4 & junk4 & R4 & L4).
  { rewrite length_app. cbn [List.length]. zlia. }
  rewrite (Buf_bind_run _ _ _ _ _ R4).
  rewrite <- app_assoc in L4. cbn [app] in L4.
  destruct (close_run p4 w ("["%char :: compose_array fmt es) junk4 2 ["]"%char] L4)
    as (p5 & p6 & R5 & R6 & P6).
  { cbn. zlia. }
  { rewrite length_app. cbn [List.length]. zlia. }
  rewrite length_app in R5, R6. cbn [List.length] in R5, R6.
  exists p6. split; [|exact P6].
  assert (E : len w + len ("["%char :: compose_array fmt es)
              = Z.of_nat (List.length w + S (List.length (compose_array fmt es))))
    by (cbn [List.length]; zlia).
  assert (R5' : ensure_b cJSON_malloc 2 p4
                = Some (Some (Z.of_nat (List.length w
                                        + S (List.length (compose_array fmt es)))), p5))
    by exact R5.
  rewrite (Buf_bind_run _ _ _ _ _ R5').
  cbn [app] in R6. rewrite (Buf_bind_run _ _ _ _ _ R6). reflexivity.
Qed.

(** ** Objects *)

Lemma length_tabs (n : Z) : 0 <= n -> len (tabs n) = n.
Proof. intros H. unfold tabs. rewrite length_replicate. zlia. Qed.

Lemma print_string_ptr_b_run (k : text) (p : printbuffer) (w : text)
      (junk : list cell) :
  laid p w junk -> len w + len (print_string_ptr k) + 1 <= 2 ^ 30 ->
  exists r p',
    print_string_ptr_b cJSON_malloc (Some k) p = Some (r, p') /\
    printed p' w (print_string_ptr k).
Proof.
  intros Hl Hsum. rewrite print_string_ptr_b_eq.
  destruct (ensure_and_copy_laid p w junk (len (print_string_ptr k) + 1)
                                 (print_string_ptr k) Hl)
    as (p' & R & P); [zlia|zlia|]. eauto.
Qed.

Lemma print_object_loop_b_run (pvb : cJSON -> Buf (option Z)) (fmt : bool)
      (depth : Z) (cs : list cJSON) (ms : list (text * text)) :
  0 <= depth ->
  Forall2 (fun c m => (exists k, keystring c = Some k /\ m.1 = print_string_ptr k)
                      /\ prints_b pvb c m.2) cs ms ->
  forall p w junk,
    laid p w junk ->
    len w + len (compose_object fmt depth ms) + 64 <= 2 ^ 30 ->
    exists p' junk',
      print_object_loop_b cJSON_malloc pvb fmt depth cs p = Some (true, p') /\
      laid p' (w ++ compose_object fmt depth ms) junk'.
Proof.
  intros Hd.
  induction 1 as [|c [n e] cs ms [(k & Hk & Hn) [Hnul Hc]] Hrest IH];
    intros p w junk Hl Hsum.
  - exists p, junk. split; [reflexivity|]. cbn [compose_object].
    now rewrite app_nil_r.
  - cbn [fst snd] in Hn, Hnul, Hc. subst n.
    cbn [compose_object] in Hsum |- *.
    set (ind := if fmt then tabs depth else []) in *.
    set (colon := ":"%char :: (if fmt then [char_of 9] else [])) in *.
    set (comma := if ms is [] then [] else [","%char]) in *.
    set (nl := if fmt then [char_of 10] else []) in *.
    assert (Hind : len ind = if fmt then depth else 0).
    { subst ind. destruct fmt; [now apply length_tabs|reflexivity]. }
    assert (Hcolon : len colon = if fmt then 2 else 1) by (destruct fmt; reflexivity).
    assert (Hnl : len nl = if fmt then 1 else 0) by (destruct fmt; reflexivity).
    assert (Hcomma : len comma = if cs is [] then 0 else 1).
    { subst comma. destruct Hrest; reflexivity. }
    assert (Hcomma' : comma = if cs is [] then [] else [","%char]).
    { subst comma. destruct Hrest; reflexivity. }
    change (":"%char :: (if fmt then [char_of 9] else []) ++ e ++ comma ++ nl
              ++ compose_object fmt depth ms)
      with (colon ++ e ++ comma ++ nl ++ compose_object fmt depth ms) in *.
    rewrite !length_app in Hsum.
    change (List.length (if fmt then tabs depth else []))
      with (List.length ind) in Hsum.
    cbn [print_object_loop_b].
    (* the indentation *)
    assert (R0 : exists p1 junk1,
               (if fmt
                then ptr ← ensure_b cJSON_malloc depth;
                     match ptr with
                     | None => mret false
                     | Some ptr => store ptr (tabs depth);; advance depth;; mret true
                     end
                else mret true) p = Some (true, p1) /\
               laid p1 (w ++ ind) junk1).
    { subst ind. destruct fmt.
      - destruct (emit_run p w junk depth (tabs depth) [] depth Hl)
          as (p1 & p2 & p3 & junk3 & R1 & R2 & R3 & L3).
        { cbn [List.length]. rewrite length_tabs by exact Hd. zlia. }
        { now rewrite length_tabs. }
        { zlia. }
        rewrite app_nil_r in R2. cbn [map app] in L3.
        exists p3, junk3. split; [|exact L3].
        rewrite (Buf_bind_run _ _ _ _ _ R1), (Buf_bind_run _ _ _ _ _ R2),
          (Buf_bind_run _ _ _ _ _ R3). reflexivity.
      - exists p, junk. split; [reflexivity|]. now rewrite app_nil_r. }
    destruct R0 as (p1 & junk1 & R0 & L1).
    rewrite (Buf_bind_run _ _ _ _ _ R0). cbv iota.
    (* the key *)
    rewrite Hk.
    destruct (print_string_ptr_b_run k p1 (w ++ ind) junk1 L1)
      as (r2 & p2 & R2 & P2).
    { rewrite length_app. zlia. }
    rewrite (Buf_bind_run _ _ _ _ _ R2).
    destruct (update_printed p2 (w ++ ind) _ P2 (print_string_ptr_no_nul k))
      as (o3 & p3 & junk3 & R3 & R3' & L3).
    { rewrite length_app. zlia. }
    rewrite (Buf_bind_run _ _ _ _ _ R3), (Buf_bind_run _ _ _ _ _ R3').
    (* the colon *)
    destruct (emit_run p3 _ _ (if fmt then 2 else 1) colon []
                       (if fmt then 2 else 1) L3)
      as (p4 & p5 & p6 & junk6 & R4 & R5 & R6 & L6).
    { cbn [List.length]. zlia. }
    { now rewrite Hcolon. }
    { rewrite !length_app. destruct fmt; zlia. }
    rewrite app_nil_r in R5. cbn [map app] in L6.
    rewrite (Buf_bind_run _ _ _ _ _ R4).
    unfold colon in R5.
    rewrite (Buf_bind_run _ _ _ _ _ R5), (Buf_bind_run _ _ _ _ _ R6).
    (* the value *)
    destruct (Hc p6 _ _ L6) as (r7 & p7 & R7 & P7).
    { rewrite !length_app. zlia. }
    rewrite (Buf_bind_run _ _ _ _ _ R7).
    destruct (update_printed p7 _ _ P7 Hnul) as (o8 & p8 & junk8 & R8 & R8' & L8).
    { rewrite !length_app. zlia. }
    rewrite (Buf_bind_run _ _ _ _ _ R8), (Buf_bind_run _ _ _ _ _ R8').
    (* the end of the member *)
    destruct (emit_run p8 _ _
                       ((if fmt then 1 else 0) + (if cs is [] then 0 else 1) + 1)
                       (comma ++ nl) [NUL]
                       ((if fmt then 1 else 0) + (if cs is [] then 0 else 1)) L8)
      as (p9 & p10 & p11 & junk11 & R9 & R10 & R11 & L11).
    { rewrite length_app. cbn [List.length]. zlia. }
    { rewrite length_app. zlia. }
    { rewrite !length_app. destruct fmt, cs; zlia. }
    rewrite (Buf_bind_run _ _ _ _ _ R9).
    rewrite <- (app_assoc comma nl [NUL]), Hcomma' in R10. unfold nl in R10.
    rewrite (Buf_bind_run _ _ _ _ _ R10), (Buf_bind_run _ _ _ _ _ R11).
    destruct (IH p11 _ _ L11) as (p12 & junk12 & R12 & L12).
    { rewrite !length_app. zlia. }
    exists p12, junk12. split; [exact R12|].
    rewrite <- !app_assoc in L12. exact L12.
Qed.

Lemma print_object_b_run (pvb : cJSON -> Buf (option Z)) (fmt : bool)
      (item : cJSON) (depth : Z) (ms : list (text * text)) :
  0 <= depth -> child item <> [] ->
  Forall2 (fun c m => (exists k, keystring c = Some k /\ m.1 = print_string_ptr k)
                      /\ prints_b pvb c m.2) (child item) ms ->
  forall p w junk,
    laid p w junk ->
    len w + len ("{"%char :: (if fmt then [char_of 10] else [])
                   ++ compose_object fmt (depth + 1) ms
                   ++ (if fmt then tabs (depth + 1 - 1) else []) ++ ["}"%char])
      + 64 <= 2 ^ 30 ->
    exists p',
      print_object_b cJSON_malloc pvb fmt item depth p
      = Some (Some (if fmt then Z.max 0 (depth + 1 - 1) else len w), p') /\
      printed p' w ("{"%char :: (if fmt then [char_of 10] else [])
                      ++ compose_object fmt (depth + 1) ms
                      ++ (if fmt then tabs (depth + 1 - 1) else []) ++ ["}"%char]).
Proof.
  intros Hd Hne Hall p w junk Hl Hsum. unfold print_object_b.
  destruct (child item) as [|c0 cs0] eqn:Ech; [contradiction|].
  cbn [List.length Nat.eqb]. rewrite <- Ech in *. clear Ech c0 cs0.
  set (nl := if fmt then [char_of 10] else []) in *.
  set (ind := if fmt then tabs (depth + 1 - 1) else []) in *.
  assert (Hnl : len nl = if fmt then 1 else 0) by (destruct fmt; reflexivity).
  assert (Hind : len ind = if fmt then depth else 0).
  { subst ind. destruct fmt; [|reflexivity]. rewrite length_tabs; zlia. }
  cbn [List.length] in Hsum. rewrite !length_app in Hsum.
  change (List.length (if fmt then [char_of 10] else [])) with (List.length nl) in Hsum.
  change (List.length (if fmt then tabs (depth + 1 - 1) else []))
    with (List.length ind) in Hsum.
  cbn [List.length] in Hsum.
  rewrite (Buf_bind_run _ _ _ _ _ (get_offset_laid _ _ _ Hl)).
  destruct (emit_run p w junk ((if fmt then 2 else 1) + 1) ("{"%char :: nl) [NUL]
                     (if fmt then 2 else 1) Hl)
    as (p1 & p2 & p3 & junk3 & R1 & R2 & R3 & L3).
  { cbn [List.length]. destruct fmt; zlia. }
  { cbn [List.length]. destruct fmt; zlia. }
  { destruct fmt; zlia. }
  cbn [app] in R2. unfold nl in R2.
  rewrite (Buf_bind_run _ _ _ _ _ R1), (Buf_bind_run _ _ _ _ _ R2),
    (Buf_bind_run _ _ _ _ _ R3).
  destruct (print_object_loop_b_run pvb fmt (depth + 1) _ ms ltac:(zlia) Hall
                                    p3 _ _ L3)
    as (p4 & junk4 & R4 & L4).
  { rewrite length_app. cbn [List.length]. zlia. }
  rewrite (Buf_bind_run _ _ _ _ _ R4).
  rewrite <- app_assoc in L4. cbn [app] in L4.
  destruct (close_run p4 w ("{"%char :: nl ++ compose_object fmt (depth + 1) ms)
                      junk4 (if fmt then depth + 1 + 1 else 2)
                      (ind ++ ["}"%char]) L4)
    as (p5 & p6 & R5 & R6 & P6).
  { rewrite length_app. cbn [List.length]. destruct fmt; zlia. }
  { rewrite length_app. cbn [List.length]. rewrite length_app.
    destruct fmt; zlia. }
  rewrite (Buf_bind_run _ _ _ _ _ R5).
  rewrite <- (app_assoc ind ["}"%char] [NUL]) in R6. cbn [app] in R6.
  unfold ind in R6.
  rewrite (Buf_bind_run _ _ _ _ _ R6).
  exists p6. split; [reflexivity|].
  cbn [app] in P6. rewrite <- app_assoc in P6. exact P6.
Qed.

(** ** Values *)

Lemma all_some_Forall2_inv {A B} (f : A -> option B) (l : list A) (l' : list B) :
  all_some (map f l) = Some l' -> Forall2 (fun a b => f a = Some b) l l'.
Proof.
  revert l'. induction l as [|a l IH]; intros l'; cbn [map all_some].
  - intros [= <-]. constructor.
  - destruct (f a) as [b|] eqn:Eb; [|discriminate].
    destruct (all_some (map f l)) as [bs|]; [|discriminate].
    intros [= <-]. constructor; [exact Eb|now apply IH].
Qed.

Lemma Forall2_Forall_impl {A B} (P : A -> Prop) (R Q : A -> B -> Prop)
      (l : list A) (l' : list B) :
  Forall2 R l l' -> Forall P l -> (forall a b, P a -> R a b -> Q a b) ->
  Forall2 Q l l'.
Proof.
  intros H HP HQ. induction H as [|a b l l' Hab _ IH]; [constructor|].
  apply Forall_cons in HP as [Ha HP]. constructor; [now apply HQ|now apply IH].
Qed.

Lemma print_value_b_run (item : cJSON) :
  forall depth fmt out,
    print_value item depth fmt = Some out -> numbers_fit item -> 0 <= depth ->
    forall p w junk,
      laid p w junk -> len w + len out + 64 <= 2 ^ 30 ->
      exists r p',
        print_value_b cJSON_malloc item depth fmt p = Some (Some r, p') /\
        printed p' w out /\ (w = [] -> depth = 0 -> r = 0).
Proof.
  induction item as [t IH] using cJSON_tree_ind.
  intros depth fmt out Hout Hfit Hd p w junk Hl Hsum.
  destruct Hfit as [t Hnum Hfit].
  destruct t as [ch ty vs vi vd ks].
  cbn [child type valuedouble valueint] in *.
  cbn [print_value print_value_b type] in Hout |- *.
  assert (Hleaf : forall n s,
             len s < n -> n <= len s + 64 -> out = s ->
             exists r p',
               ensure_and_copy cJSON_malloc n s p = Some (Some r, p') /\
               printed p' w out /\ (w = [] -> depth = 0 -> r = 0)).
  { intros n s Hn1 Hn2 ->.
    destruct (ensure_and_copy_laid p w junk n s Hl Hn1 ltac:(zlia)) as (p' & R & P).
    exists (len w), p'. split; [exact R|]. split; [exact P|]. now intros ->. }
  destruct ty.
  - injection Hout as <-. apply Hleaf; [cbn; zlia..|reflexivity].
  - injection Hout as <-. apply Hleaf; [cbn; zlia..|reflexivity].
  - injection Hout as <-. apply Hleaf; [cbn; zlia..|reflexivity].
  - injection Hout as <-. rewrite print_number_b_eq.
    cbn [valuedouble valueint]. specialize (Hnum eq_refl).
    apply Hleaf; [exact Hnum| |reflexivity].
    unfold number_room.
    repeat match goal with
           | |- context [if ?c then _ else _] => destruct c
           end; zlia.
  - unfold print_string in Hout. unfold print_string_b.
    cbn [valuestring] in Hout |- *. destruct vs as [s|]; [|discriminate].
    injection Hout as <-. rewrite print_string_ptr_b_eq.
    apply Hleaf; [zlia|zlia|reflexivity].
  - unfold print_array in Hout. cbn [child] in Hout.
    destruct ch as [|c0 cs0] eqn:Ech.
    { cbn in Hout. injection Hout as <-. unfold print_array_b. cbn [child List.length Nat.eqb].
      apply Hleaf; [cbn; zlia..|reflexivity]. }
    rewrite <- Ech in *. assert (Hne : ch <> []) by (rewrite Ech; discriminate).
    replace (List.length ch =? 0)%nat with false in Hout
      by (rewrite Ech; reflexivity).
    destruct (all_some (map (fun c => print_value c (depth + 1) fmt) ch))
      as [es|] eqn:Ees; [|discriminate].
    injection Hout as <-.
    assert (Hall : Forall2 (prints_b (fun c => print_value_b cJSON_malloc c (depth + 1) fmt))
                           ch es).
    { apply all_some_Forall2_inv in Ees.
      apply (Forall2_Forall_impl
               (fun c => (forall depth fmt out,
                            print_value c depth fmt = Some out -> numbers_fit c ->
                            0 <= depth ->
                            forall p w junk,
                              laid p w junk -> len w + len out + 64 <= 2 ^ 30 ->
                              exists r p',
                                print_value_b cJSON_malloc c depth fmt p
                                = Some (Some r, p') /\
                                printed p' w out /\ (w = [] -> depth = 0 -> r = 0))
                         /\ numbers_fit c) _ _ _ _ Ees).
      - apply Forall_forall. intros c Hc. rewrite Forall_forall in IH, Hfit.
        split; [now apply IH|now apply Hfit].
      - intros c e [IHc Hfc] He. split; [eapply print_value_no_nul; exact He|].
        intros p0 w0 junk0 Hl0 Hsum0.
        destruct (IHc _ _ _ He Hfc ltac:(zlia) p0 w0 junk0 Hl0 Hsum0)
          as (r & p' & R & P & _). eauto. }
    destruct (print_array_b_run _ fmt (mk_cJSON ch cJSON_Array vs vi vd ks) es
                                Hne Hall p w junk Hl Hsum) as (p' & R & P).
    exists (len w), p'. split; [exact R|]. split; [exact P|]. now intros ->.
  - unfold print_object in Hout. cbn [child] in Hout.
    destruct ch as [|c0 cs0] eqn:Ech.
    { cbn [List.length Nat.eqb] in Hout. injection Hout as <-.
      unfold print_object_b. cbn [child List.length Nat.eqb].
      apply Hleaf; [| |reflexivity].
      - cbn [List.length]. rewrite length_app. cbn [List.length].
        destruct fmt; cbn [List.length]; [|zlia].
        unfold tabs. rewrite length_replicate. zlia.
      - cbn [List.length]. rewrite length_app. cbn [List.length].
        destruct fmt; cbn [List.length]; [|zlia].
        unfold tabs. rewrite length_replicate. zlia. }
    rewrite <- Ech in *. assert (Hne : ch <> []) by (rewrite Ech; discriminate).
    replace (List.length ch =? 0)%nat with false in Hout
      by (rewrite Ech; reflexivity).
    destruct (all_some (map (fun c => print_string_ptr <$> keystring c) ch))
      as [ns|] eqn:Ens; [|discriminate].
    destruct (all_some (map (fun c => print_value c (depth + 1) fmt) ch))
      as [es|] eqn:Ees; [|discriminate].
    injection Hout as <-.
    assert (Hlen : List.length ns = List.length es).
    { apply all_some_Forall2_inv, Forall2_length in Ens, Ees. congruence. }
    assert (Hall : Forall2
                     (fun c m =>
                        (exists k, keystring c = Some k /\ m.1 = print_string_ptr k)
                        /\ prints_b (fun c => print_value_b cJSON_malloc c (depth + 1) fmt)
                                    c m.2)
                     ch (zip ns es)).
    { apply all_some_Forall2_inv in Ens, Ees.
      rewrite Forall_forall in IH, Hfit.
      clear -Ens Ees IH Hfit Hd. revert es Ees.
      induction Ens as [|c n cs ns Hn Hns IHns]; intros es Ees.
      - inversion Ees. constructor.
      - inversion Ees as [|c' e cs' es' He Hes]; subst.
        cbn [zip zip_with]. constructor.
        + cbn [fst snd]. split.
          * destruct (keystring c) as [k|]; [|discriminate].
            injection Hn as <-. eauto.
          * split; [eapply print_value_no_nul; exact He|].
            intros p0 w0 junk0 Hl0 Hsum0.
            destruct (IH c ltac:(left) _ _ _ He (Hfit c ltac:(left)) ltac:(zlia)
                         p0 w0 junk0 Hl0 Hsum0) as (r & p' & R & P & _). eauto.
        + apply IHns; [| |exact Hes].
          * intros x Hx. apply IH. now right.
          * intros x Hx. apply Hfit. now right. }
    destruct (print_object_b_run _ fmt (mk_cJSON ch cJSON_Object vs vi vd ks)
                                 depth (zip ns es) Hd Hne Hall p w junk Hl Hsum)
      as (p' & R & P).
    eexists. exists p'. split; [exact R|]. split; [exact P|].
    intros -> ->. now destruct fmt.
Qed.

End BufferedProofs.

Lemma memory_available_fresh_storage : memory_available fresh_storage.
Proof.
  intros sz Hsz. unfold fresh_storage.
  destruct (Z.leb_spec 0 sz); [eauto|lia].
Qed.

Lemma numbers_fit_sample_tree : numbers_fit sample_tree.
Proof.
  constructor; [discriminate|].
  constructor; [constructor; [intros _; vm_compute; reflexivity|constructor]|].
  constructor; [|constructor].
  constructor; [discriminate|].
  constructor; [constructor; [discriminate|constructor]|].
  constructor; [constructor; [discriminate|constructor]|constructor].
Qed.

(** C8. The buffered path writes the text of the allocating path.  Let
    the allocating path ([print_value] without a buffer, that is
    [cJSON_Print] or [cJSON_PrintUnformatted]) print the tree [item] as
    the text [out].  Then [cJSON_PrintBuffered], whatever the size
    [prebuffer] of the storage it starts with, returns a pointer to the
    very same text, in the formatted and in the unformatted mode,
    when: the allocator returns storage of the size asked for and
    serves the requests (up to [2^30] bytes), the sizes stay within
    [int] (the text is at most [2^30 - 64] characters long), and the
    text of every number fits the room [print_number] reserves for it,
    which is what keeps [sprintf] within the storage in either
    path. *)
Theorem buffered_print_same_text (cJSON_malloc : Z -> option (list cell))
        (item : cJSON) (fmt : bool) (prebuffer : Z) (out : text) :
  allocator_sound cJSON_malloc -> memory_available cJSON_malloc ->
  0 <= prebuffer <= 2 ^ 30 ->
  numbers_fit item ->
  print_value item 0 fmt = Some out ->
  Z.of_nat (List.length out) + 64 <= 2 ^ 30 ->
  cJSON_PrintBuffered cJSON_malloc item prebuffer fmt = Some (Some out).
Proof.
  intros Hsound Havail Hpre Hfit Hout Hlen. unfold cJSON_PrintBuffered.
  destruct (Havail prebuffer Hpre) as [st Hst]. rewrite Hst.
  pose proof (Hsound _ _ Hst) as Hsz.
  assert (Hl : laid (mk_printbuffer (Some st) prebuffer 0) [] st).
  { repeat split; cbn [buffer buflen offset map app List.length]; lia. }
  destruct (print_value_b_run cJSON_malloc Hsound Havail item 0 fmt out Hout Hfit
                              ltac:(lia) _ [] st Hl)
    as (r & p' & R & (done & rest & junk & -> & Hb & _ & _) & Hr).
  { cbn [List.length]. lia. }
  rewrite R, (Hr eq_refl eq_refl), Hb.
  cbn [app Z.leb Z.to_nat]. rewrite drop_0.
  rewrite app_assoc, <- map_app, string_at_text; [reflexivity|].
  eapply print_value_no_nul. exact Hout.
Qed.

Lemma buffered_print_same_text_witness :
  cJSON_PrintBuffered fresh_storage sample_tree 4 true
  = Some (print_value sample_tree 0 true).
Proof.
  destruct (print_value sample_tree 0 true) as [out|] eqn:Hout;
    [|vm_compute in Hout; discriminate].
  apply (buffered_print_same_text fresh_storage sample_tree true 4 out).
  - exact fresh_storage_sound.
  - exact memory_available_fresh_storage.
  - lia.
  - exact numbers_fit_sample_tree.
  - exact Hout.
  - vm_compute in Hout. injection Hout as <-. vm_compute. discriminate.
Defined.

(* ================================================================== *)
(** * Part III: further properties of the code                          *)
(* ================================================================== *)

(** ** Characters *)

Lemma code_range (c : ascii) : 0 <= code c < 256.
Proof.
  unfold code. pose proof (N_ascii_bounded c) as H. lia.
Qed.

Lemma code_inj (c d : ascii) : code c = code d -> c = d.
Proof.
  unfold code. intros H. apply N2Z.inj in H.
  rewrite <- (ascii_N_embedding c), <- (ascii_N_embedding d). now rewrite H.
Qed.

Lemma code_NUL (c : ascii) : code c = 0 <-> c = NUL.
Proof.
  split; [intros H; apply code_inj; exact H|intros ->; reflexivity].
Qed.

Lemma code_char_of (z : Z) : code (char_of z) = z mod 256.
Proof.
  unfold code, char_of. pose proof (Z.mod_pos_bound z 256 eq_refl) as H.
  rewrite N_ascii_embedding by lia. lia.
Qed.

Lemma char_of_no_nul (z : Z) : 0 < z < 256 -> char_of z <> NUL.
Proof.
  intros H E. apply code_NUL in E. rewrite code_char_of, Z.mod_small in E; lia.
Qed.

(** ** Capacity rounding *)

(** X1.  For a size between 1 and 2^30, [pow2gt] is the least power of
    two that is at least the size; it leaves a power of two as it is
    and it is monotone. *)
Theorem pow2gt_rounds_up (x : Z) :
  1 <= x <= 2 ^ 30 ->
  least_pow2_above x (pow2gt x) /\
  pow2gt (pow2gt x) = pow2gt x /\
  (forall y, x <= y <= 2 ^ 30 -> pow2gt x <= pow2gt y).
Proof.
  intros Hx. pose proof (pow2gt_spec x Hx) as (k & Hk & En & Hle & Hmin).
  assert (Hn30 : pow2gt x <= 2 ^ 30) by (apply Hmin; lia).
  split; [exists k; auto|]. split.
  - assert (H1 : 1 <= pow2gt x <= 2 ^ 30) by lia.
    destruct (pow2gt_spec _ H1) as (k' & Hk' & En' & Hle' & Hmin').
    specialize (Hmin' k Hk). rewrite <- En in Hmin'. lia.
  - intros y Hy. assert (Hy1 : 1 <= y <= 2 ^ 30) by lia.
    destruct (pow2gt_spec y Hy1) as (j & Hj & Ej & Hlej & _).
    rewrite Ej. apply Hmin; [exact Hj|lia].
Qed.

Lemma pow2gt_rounds_up_witness :
  least_pow2_above 5 (pow2gt 5) /\ pow2gt (pow2gt 5) = pow2gt 5 /\
  (forall y, 5 <= y <= 2 ^ 30 -> pow2gt 5 <= pow2gt y).
Proof. apply (pow2gt_rounds_up 5). lia. Defined.

(** ** Escapes of the Basic Multilingual Plane *)

(** X2.  Four hexadecimal digits are read by [parse_hex4] as the number
    they write in base 16, whatever follows them. *)
Theorem parse_hex4_value (c1 c2 c3 c4 : ascii) (d1 d2 d3 d4 : Z) (rest : text) :
  hex_value c1 = Some d1 -> hex_value c2 = Some d2 ->
  hex_value c3 = Some d3 -> hex_value c4 = Some d4 ->
  parse_hex4 (c1 :: c2 :: c3 :: c4 :: rest)
  = 4096 * d1 + 256 * d2 + 16 * d3 + d4.
Proof.
  intros H1 H2 H3 H4. unfold parse_hex4. cbn [deref hd drop].
  rewrite H1. cbn [deref hd drop]. rewrite H2. cbn [deref hd drop].
  rewrite H3. cbn [deref hd drop]. rewrite H4.
  apply hex_value_bound in H1, H2, H3, H4.
  rewrite !Z.shiftl_mul_pow2 by lia. lia.
Qed.

Lemma parse_hex4_value_witness :
  parse_hex4 (lit "20aC rest") = 4096 * 2 + 256 * 0 + 16 * 10 + 12.
Proof.
  apply (parse_hex4_value "2" "0" "a" "C" 2 0 10 12 (lit " rest"));
    reflexivity.
Defined.

Lemma utf8_encode_no_nul (cp : Z) :
  0 < cp < 0x200000 -> Forall (fun c => c <> NUL) (utf8_encode cp).
Proof.
  intros H. unfold utf8_encode.
  destruct (Z.ltb_spec cp 0x80); [|destruct (Z.ltb_spec cp 0x800);
    [|destruct (Z.ltb_spec cp 0x10000)]];
    repeat constructor; apply char_of_no_nul; Z.div_mod_to_equations; lia.
Qed.

(** X3.  An escape [\uXXXX] whose value is neither zero nor a surrogate
    is decoded by [parse_string] to the UTF-8 encoding of that code
    point: a string that holds just this escape has the bytes of the
    encoding as its value. *)
Theorem bmp_escape_decodes_to_utf8 (c1 c2 c3 c4 : ascii) (item : cJSON)
        (rest : text) :
  let uc := parse_hex4 [c1; c2; c3; c4] in
  uc <> 0 -> ~ high_surrogate uc -> ~ low_surrogate uc ->
  parse_string_step (u_escape c1 c2 c3 c4 ++ rest)
  = Step (utf8_encode uc) rest /\
  parse_string item (dquote :: u_escape c1 c2 c3 c4 ++ dquote :: rest)
  = Parsed (set_type (set_valuestring item (Some (utf8_encode uc))) cJSON_String)
           rest.
Proof.
  cbn zeta. intros H0 Hh Hl.
  pose proof (parse_hex4_bound [c1; c2; c3; c4]) as Hb.
  assert (Hstep : forall tail, parse_string_step (u_escape c1 c2 c3 c4 ++ tail)
                    = Step (utf8_encode (parse_hex4 [c1; c2; c3; c4])) tail).
  { intros tail. rewrite step_u_unfold. cbn zeta.
    rewrite parse_unicode_escape_eq. cbn zeta.
    unfold high_surrogate, low_surrogate in Hh, Hl.
    replace (((0xDC00 <=? parse_hex4 [c1; c2; c3; c4])
              && (parse_hex4 [c1; c2; c3; c4] <=? 0xDFFF))
             || (parse_hex4 [c1; c2; c3; c4] =? 0)) with false
      by (symmetry; apply orb_false_iff; split;
          [apply andb_false_iff;
           destruct (Z.leb_spec 0xDC00 (parse_hex4 [c1; c2; c3; c4]));
           [right; apply Z.leb_gt; lia|now left]
          |apply Z.eqb_neq; exact H0]).
    replace ((0xD800 <=? parse_hex4 [c1; c2; c3; c4])
             && (parse_hex4 [c1; c2; c3; c4] <=? 0xDBFF)) with false
      by (symmetry; apply andb_false_iff;
          destruct (Z.leb_spec 0xD800 (parse_hex4 [c1; c2; c3; c4]));
          [right; apply Z.leb_gt; lia|now left]).
    rewrite utf8_bytes_spec by lia. reflexivity. }
  split; [apply Hstep|].
  assert (Hs : sizing_scan (u_escape c1 c2 c3 c4 ++ dquote :: rest) = Some 5%nat).
  { now rewrite sizing_scan_u_escape
      by (apply digits_literal, parse_hex4_digits; exact H0). }
  assert (Hu : unescape (u_escape c1 c2 c3 c4 ++ dquote :: rest)
               = Some (utf8_encode (parse_hex4 [c1; c2; c3; c4]) ++ [],
                       dquote :: rest)).
  { apply (unescape_step _ _ _ _ _ (Hstep (dquote :: rest))).
    now apply unescape_stop. }
  rewrite (parse_string_at_quote _ _ _ _ _ Hs Hu)
    by (rewrite app_nil_r;
        pose proof (utf8_encode_length (parse_hex4 [c1; c2; c3; c4])); lia).
  cbn [deref hd]. rewrite Ascii.eqb_refl, app_nil_r. cbn [drop].
  rewrite c_str_no_nul by (apply utf8_encode_no_nul; lia). reflexivity.
Qed.

Lemma bmp_escape_decodes_to_utf8_witness :
  parse_string_step (u_escape "2" "0" "a" "C" ++ lit "x")
  = Step (utf8_encode (parse_hex4 (lit "20aC"))) (lit "x") /\
  parse_string cJSON_New_Item
    (dquote :: u_escape "2" "0" "a" "C" ++ dquote :: lit "x")
  = Parsed (set_type (set_valuestring cJSON_New_Item
                        (Some (utf8_encode (parse_hex4 (lit "20aC")))))
              cJSON_String) (lit "x").
Proof.
  apply (bmp_escape_decodes_to_utf8 "2" "0" "a" "C" cJSON_New_Item (lit "x"));
    vm_compute; [discriminate | intros [H _]; now apply H | intros [H _]; now apply H].
Defined.

(** ** Whitespace *)

(** X4.  [skip] removes a prefix of characters from 1 to 32 and nothing
    else: it stops at the terminator or at a character above 32, and
    applying it again changes nothing. *)
Theorem skip_drops_leading_whitespace (inp : text) :
  exists ws,
    inp = ws ++ skip inp /\ Forall whitespace ws /\
    (code (deref (skip inp)) = 0 \/ 32 < code (deref (skip inp))) /\
    skip (skip inp) = skip inp.
Proof.
  induction inp as [|c inp (ws & E & Hws & Hstop & Hidem)].
  - exists []. cbn. repeat split; auto.
  - cbn [skip]. destruct (Ascii.eqb_spec c NUL) as [->|Hc]; cbn [negb andb].
    + exists []. cbn. repeat split; auto.
    + destruct (Z.leb_spec (code c) 32) as [Hle|Hgt].
      * exists (c :: ws). cbn [app]. split; [now rewrite <- E|].
        split; [|split; assumption]. constructor; [|exact Hws].
        split; [|exact Hle]. pose proof (code_range c).
        destruct (Z.eq_dec (code c) 0) as [E0|]; [|lia].
        now apply code_NUL in E0.
      * exists []. cbn [app deref hd]. split; [reflexivity|].
        split; [constructor|]. split; [now right|].
        apply skip_nonspace. cbn [deref hd].
        now rewrite (proj2 (Z.ltb_lt _ _) Hgt).
Qed.

(** ** Key comparison *)

Lemma tolower_NUL (c : ascii) : tolower c = NUL <-> c = NUL.
Proof.
  split; [|intros ->; reflexivity]. each_char c; try discriminate; auto.
Qed.

Lemma strcasecmp_loop_zero (s1 s2 : text) :
  strcasecmp_loop s1 s2 = 0
  <-> map tolower (c_str s1) = map tolower (c_str s2).
Proof.
  revert s2.
  assert (Hne : forall a b, a <> b -> code a - code b <> 0).
  { intros a b Hab E. apply Hab, code_inj. lia. }
  induction s1 as [|c s1 IH]; intros s2.
  - cbn [strcasecmp_loop deref hd c_str map].
    change (tolower NUL) with NUL.
    destruct s2 as [|d s2]; cbn [deref hd c_str map].
    + change (tolower NUL) with NUL. now rewrite Ascii.eqb_refl.
    + destruct (Ascii.eqb_spec NUL (tolower d)) as [E|E].
      * symmetry in E. apply (proj1 (tolower_NUL _)) in E. subst d.
        now rewrite Ascii.eqb_refl.
      * split; [intros H; now apply Hne in H|].
        destruct (Ascii.eqb_spec d NUL) as [->|_]; [now elim E|discriminate].
  - cbn [strcasecmp_loop deref hd c_str map].
    destruct s2 as [|d s2]; cbn [deref hd c_str map drop].
    + change (tolower NUL) with NUL.
      destruct (Ascii.eqb_spec (tolower c) NUL) as [E|E].
      * apply (proj1 (tolower_NUL _)) in E. subst c. now rewrite Ascii.eqb_refl.
      * split; [intros H; now apply Hne in H|].
        destruct (Ascii.eqb_spec c NUL) as [->|_]; [now elim E|discriminate].
    + destruct (Ascii.eqb_spec (tolower c) (tolower d)) as [E|E].
      * destruct (Ascii.eqb_spec c NUL) as [->|Hc].
        -- change (tolower NUL) with NUL in E. symmetry in E.
           apply (proj1 (tolower_NUL _)) in E. subst d. now rewrite Ascii.eqb_refl.
        -- destruct (Ascii.eqb_spec d NUL) as [->|Hd].
           ++ apply (proj1 (tolower_NUL _)) in E. contradiction.
           ++ rewrite IH. cbn [map]. rewrite E. split; [now intros ->|].
              now intros [= ->].
      * split; [intros H; now apply Hne in H|].
        destruct (Ascii.eqb_spec c NUL) as [->|Hc];
          destruct (Ascii.eqb_spec d NUL) as [->|Hd]; cbn [map];
          try discriminate; [now elim E|].
        intros [= H _]. contradiction.
Qed.

(** X5.  [cJSON_strcasecmp] returns zero exactly for two strings that
    are equal once every letter is lowered, and for two null pointers;
    a string and its copy by [cJSON_strdup] compare equal. *)
Theorem strcasecmp_zero_iff (s1 s2 : text) :
  (cJSON_strcasecmp (Some s1) (Some s2) = 0
   <-> map tolower (c_str s1) = map tolower (c_str s2)) /\
  (forall o, cJSON_strcasecmp None o = 0 <-> o = None) /\
  cJSON_strcasecmp (Some (c_str s1)) (Some s1) = 0.
Proof.
  split; [apply strcasecmp_loop_zero|]. split.
  - intros [o|]; cbn; split; intros H; try reflexivity; discriminate.
  - apply strcasecmp_loop_zero. now rewrite c_str_idem.
Qed.

(** ** Integers through the number codec *)

(** X6.  A number node made from an integer of the 32-bit range keeps
    the integer in its cache, prints as the decimal text of the
    integer, and [parse_number] reads that text back to the same double
    and the same cache, whatever follows that cannot continue a
    number. *)
Theorem printed_int_reads_back (i : Z) (item : cJSON) (rest : text) :
  INT_MIN <= i <= INT_MAX -> ends_number rest = true ->
  valueint (cJSON_CreateNumber (of_int i)) = i /\
  print_number (cJSON_CreateNumber (of_int i))
  = Some (if i =? 0 then lit "0" else sprintf_d i) /\
  parse_number item ((if i =? 0 then lit "0" else sprintf_d i) ++ rest)
  = Parsed (set_type (set_valueint (set_valuedouble item (of_int i)) i)
              cJSON_Number) rest.
Proof.
  intros Hi Hrest.
  assert (Hv : valueint (cJSON_CreateNumber (of_int i)) = i)
    by (cbn; now apply to_int_of_int).
  split; [exact Hv|]. split.
  - unfold print_number. rewrite Hv.
    change (valuedouble (cJSON_CreateNumber (of_int i))) with (of_int i).
    now rewrite print_number_int.
  - unfold parse_number. rewrite <- print_number_int by exact Hi.
    now rewrite (int_number_stable i Hi rest Hrest).
Qed.

Lemma printed_int_reads_back_witness :
  valueint (cJSON_CreateNumber (of_int (-42))) = -42 /\
  print_number (cJSON_CreateNumber (of_int (-42))) = Some (lit "-42") /\
  parse_number cJSON_New_Item (lit "-42" ++ lit ",")
  = Parsed (set_type (set_valueint (set_valuedouble cJSON_New_Item (of_int (-42)))
                        (-42)) cJSON_Number) (lit ",").
Proof.
  apply (printed_int_reads_back (-42) cJSON_New_Item (lit ","));
    [unfold INT_MIN, INT_MAX; lia | reflexivity].
Defined.

(** ** The characters of a printed text *)

Lemma number_char_digit (c : ascii) : is_digit c = true -> number_char c = true.
Proof. intros H. unfold number_char. now rewrite H. Qed.

Lemma digits_number_chars (t : text) :
  Forall (fun c => is_digit c = true) t ->
  Forall (fun c => number_char c = true) t.
Proof.
  intros H. eapply Forall_impl; [exact H|exact number_char_digit].
Qed.

Lemma decimal_number_chars (n : Z) :
  Forall (fun c => number_char c = true) (decimal n).
Proof. apply digits_number_chars, decimal_digits. Qed.

Lemma sign_text_number_chars (s : bool) :
  Forall (fun c => number_char c = true) (sign_text s).
Proof. destruct s; repeat constructor. Qed.

Lemma replicate_number_chars (n : nat) (c : ascii) :
  number_char c = true -> Forall (fun c => number_char c = true) (replicate n c).
Proof. intros H. induction n; cbn; constructor; assumption. Qed.

Lemma zero_padded_number_chars (width : nat) (n : Z) :
  Forall (fun c => number_char c = true) (zero_padded width n).
Proof.
  unfold zero_padded. apply Forall_app. split; [|apply decimal_number_chars].
  now apply replicate_number_chars.
Qed.

Lemma sprintf_d_number_chars (i : Z) :
  Forall (fun c => number_char c = true) (sprintf_d i).
Proof.
  unfold sprintf_d. destruct (i <? 0); [constructor; [reflexivity|]|];
    apply decimal_number_chars.
Qed.

Lemma sprintf_f_number_chars (digits : nat) (d : double) :
  Forall (fun c => number_char c = true) (sprintf_f digits d).
Proof.
  destruct d as [s|s| |s m e]; cbn [sprintf_f].
  - apply Forall_app. split; [apply sign_text_number_chars|].
    constructor; [reflexivity|]. destruct digits; [constructor|].
    constructor; [reflexivity|]. now apply replicate_number_chars.
  - apply Forall_app. split; [apply sign_text_number_chars|].
    repeat constructor.
  - repeat constructor.
  - destruct (fraction_of m e) as [num den].
    apply Forall_app. split; [apply sign_text_number_chars|].
    apply Forall_app. split; [apply decimal_number_chars|].
    destruct digits; [constructor|].
    constructor; [reflexivity|]. apply zero_padded_number_chars.
Qed.

Lemma sprintf_e_number_chars (d : double) :
  Forall (fun c => number_char c = true) (sprintf_e d).
Proof.
  destruct d as [s|s| |s m e]; cbn [sprintf_e].
  - apply Forall_app. split; [apply sign_text_number_chars|].
    repeat constructor.
  - apply Forall_app. split; [apply sign_text_number_chars|].
    repeat constructor.
  - repeat constructor.
  - destruct (fraction_of m e) as [num den].
    destruct (scaled_by _ num den) as [n dn].
    match goal with
    | |- context [if ?c then _ else _] => destruct c
    end;
      (apply Forall_app; split; [apply sign_text_number_chars|];
       apply Forall_app; split; [apply decimal_number_chars|];
       constructor; [reflexivity|];
       apply Forall_app; split; [apply zero_padded_number_chars|];
       constructor; [reflexivity|];
       constructor; [match goal with
                     | |- context [if ?c then _ else _] => destruct c
                     end; reflexivity|];
       apply zero_padded_number_chars).
Qed.

Lemma print_number_fields_number_chars (d : double) (valueint : Z) :
  Forall (fun c => number_char c = true) (print_number_fields d valueint).
Proof.
  unfold print_number_fields.
  repeat match goal with
         | |- context [if ?c then _ else _] => destruct c
         end;
    first [ apply sprintf_d_number_chars | apply sprintf_f_number_chars
          | apply sprintf_e_number_chars | repeat constructor ].
Qed.

Lemma number_char_layout (fmt : bool) (c : ascii) :
  number_char c = true -> layout_char fmt c = true.
Proof.
  destruct fmt; each_char c; vm_compute; intros H; try discriminate H;
    reflexivity.
Qed.

Lemma escape_char_layout (fmt : bool) (c : ascii) :
  c <> NUL -> Forall (fun x => layout_char fmt x = true) (escape_char c).
Proof.
  intros Hc.
  assert (H : forallb (layout_char fmt) (escape_char c) = true).
  { destruct fmt; each_char c; try (exfalso; now apply Hc);
      vm_compute; reflexivity. }
  apply Forall_forall. intros x Hx.
  rewrite forallb_forall in H. apply H. now apply list_elem_of_In.
Qed.

Lemma escape_loop_layout (fmt : bool) (s : text) :
  Forall (fun x => layout_char fmt x = true) (escape_loop s).
Proof.
  induction s as [|c s IH]; cbn [escape_loop]; [constructor|].
  destruct (Ascii.eqb_spec c NUL); [constructor|].
  apply Forall_app. split; [now apply escape_char_layout|exact IH].
Qed.

Lemma print_string_ptr_layout (fmt : bool) (s : text) :
  Forall (fun x => layout_char fmt x = true) (print_string_ptr s).
Proof.
  rewrite print_string_ptr_escape_loop.
  constructor; [now destruct fmt|]. apply Forall_app.
  split; [apply escape_loop_layout|]. constructor; [now destruct fmt|constructor].
Qed.

Lemma tabs_layout (n : Z) : Forall (fun x => layout_char true x = true) (tabs n).
Proof.
  unfold tabs. induction (Z.to_nat n); cbn; constructor; auto.
Qed.

Lemma compose_array_layout (fmt : bool) (es : list text) :
  Forall (fun e => Forall (fun x => layout_char fmt x = true) e) es ->
  Forall (fun x => layout_char fmt x = true) (compose_array fmt es).
Proof.
  induction 1 as [|e es He _ IH]; cbn [compose_array]; [constructor|].
  apply Forall_app. split; [exact He|]. apply Forall_app. split; [|exact IH].
  destruct es; [constructor|]. destruct fmt; repeat constructor.
Qed.

Lemma compose_object_layout (fmt : bool) (d : Z) (ms : list (text * text)) :
  Forall (fun m => Forall (fun x => layout_char fmt x = true) m.1 /\
                   Forall (fun x => layout_char fmt x = true) m.2) ms ->
  Forall (fun x => layout_char fmt x = true) (compose_object fmt d ms).
Proof.
  induction 1 as [|[n e] ms [Hn He] _ IH]; cbn [compose_object]; [constructor|].
  cbn [fst snd] in Hn, He.
  apply Forall_app. split; [destruct fmt; [apply tabs_layout|constructor]|].
  apply Forall_app. split; [exact Hn|]. constructor; [now destruct fmt|].
  apply Forall_app. split; [destruct fmt; repeat constructor|].
  apply Forall_app. split; [exact He|].
  apply Forall_app. split; [destruct ms; destruct fmt; repeat constructor|].
  apply Forall_app. split; [destruct fmt; repeat constructor|].
  exact IH.
Qed.

Lemma Forall_zip {A B} (P : A -> Prop) (Q : B -> Prop) (l : list A) (k : list B) :
  Forall P l -> Forall Q k -> Forall (fun m => P m.1 /\ Q m.2) (zip l k).
Proof.
  intros Hl. revert k. induction Hl as [|a l Ha _ IH]; intros k Hk; [constructor|].
  destruct Hk as [|b k Hb Hk]; [constructor|].
  cbn [zip zip_with]. constructor; [now split|now apply IH].
Qed.

(** X7.  A printed text holds neither a terminator nor a raw control
    character: in the compact mode every character is a space or
    above, and the pretty mode adds only the tabs and newlines of its
    layout. *)
Theorem printed_text_is_clean (item : cJSON) (depth : Z) (fmt : bool)
        (out : text) :
  print_value item depth fmt = Some out ->
  Forall (fun c => layout_char fmt c = true) out.
Proof.
  revert depth out. induction item as [t IH] using cJSON_tree_ind.
  intros depth out. destruct t as [ch ty vs vi vd ks]. cbn [child] in IH.
  cbn [print_value type]. destruct ty.
  - intros [= <-]. destruct fmt; repeat constructor.
  - intros [= <-]. destruct fmt; repeat constructor.
  - intros [= <-]. destruct fmt; repeat constructor.
  - intros [= <-]. eapply Forall_impl; [apply print_number_fields_number_chars|].
    intros c. apply number_char_layout.
  - unfold print_string. cbn [valuestring]. destruct vs as [s|]; [|discriminate].
    intros [= <-]. apply print_string_ptr_layout.
  - unfold print_array. cbn [child].
    destruct (List.length ch =? 0)%nat.
    { intros [= <-]. destruct fmt; repeat constructor. }
    destruct (all_some (map _ ch)) as [es|] eqn:Ees; [|discriminate].
    intros [= <-]. constructor; [now destruct fmt|]. apply Forall_app.
    split; [|destruct fmt; repeat constructor].
    apply compose_array_layout.
    apply (all_some_Forall _ (fun c => print_value c (depth + 1) fmt) ch es);
      [|exact Ees].
    eapply Forall_impl; [exact IH|]. intros c Hc e. apply Hc.
  - unfold print_object. cbn [child].
    destruct (List.length ch =? 0)%nat.
    { intros [= <-]. constructor; [now destruct fmt|]. apply Forall_app.
      split; [|destruct fmt; repeat constructor].
      destruct fmt; [|constructor]. constructor; [reflexivity|apply tabs_layout]. }
    destruct (all_some (map (fun c => print_string_ptr <$> keystring c) ch))
      as [ns|] eqn:Ens; [|discriminate].
    destruct (all_some (map (fun c => print_value c (depth + 1) fmt) ch))
      as [es|] eqn:Ees; [|discriminate].
    intros [= <-]. constructor; [now destruct fmt|]. apply Forall_app.
    split; [destruct fmt; repeat constructor|].
    apply Forall_app. split.
    + apply compose_object_layout. apply Forall_zip.
      * apply (all_some_Forall _ (fun c => print_string_ptr <$> keystring c) ch ns);
          [|exact Ens].
        apply Forall_forall. intros c _ n. destruct (keystring c); [|discriminate].
        intros [= <-]. apply print_string_ptr_layout.
      * apply (all_some_Forall _ (fun c => print_value c (depth + 1) fmt) ch es);
          [|exact Ees].
        eapply Forall_impl; [exact IH|]. intros c Hc e. apply Hc.
    + apply Forall_app. split; [destruct fmt; [apply tabs_layout|constructor]|].
      destruct fmt; repeat constructor.
Qed.

Lemma printed_text_is_clean_witness :
  Forall (fun c => layout_char false c = true)
         (lit "{" ++ print_string_ptr (lit "id") ++ lit ":-7,"
            ++ print_string_ptr (lit "tags") ++ lit ":["
            ++ print_string_ptr (lit "a\b") ++ lit ",null]}").
Proof. apply (printed_text_is_clean sample_tree 0 false). reflexivity. Defined.

(** ** Layout of the compact output *)



(** ** Copies *)

Lemma escape_loop_c_str (s : text) : escape_loop (c_str s) = escape_loop s.
Proof.
  induction s as [|c s IH]; [reflexivity|]. cbn [c_str escape_loop].
  destruct (Ascii.eqb_spec c NUL) as [->|Hc]; [reflexivity|].
  cbn [escape_loop]. rewrite (proj2 (Ascii.eqb_neq _ _) Hc). now rewrite IH.
Qed.

Lemma print_string_ptr_c_str (s : text) :
  print_string_ptr (c_str s) = print_string_ptr s.
Proof. now rewrite !print_string_ptr_escape_loop, escape_loop_c_str. Qed.

Lemma all_some_map_ext {A B} (f g : A -> option B) (l : list A) :
  Forall (fun a => f a = g a) l -> all_some (map f l) = all_some (map g l).
Proof.
  induction 1 as [|a l Ha _ IH]; [reflexivity|]. cbn [map all_some].
  now rewrite Ha, IH.
Qed.

(** X9.  A deep copy made by [cJSON_Duplicate] prints to the same text
    as the original, at every depth and in both modes, and has as many
    children; a shallow copy has none. *)
Theorem duplicate_prints_the_same (item : cJSON) (depth : Z) (fmt : bool) :
  print_value (cJSON_Duplicate item true) depth fmt = print_value item depth fmt
  /\ List.length (child (cJSON_Duplicate item true)) = List.length (child item)
  /\ child (cJSON_Duplicate item false) = [].
Proof.
  split; [|destruct item; cbn; now rewrite length_map].
  revert depth. induction item as [t IH] using cJSON_tree_ind. intros depth.
  destruct t as [ch ty vs vi vd ks]. cbn [child] in IH.
  cbn [cJSON_Duplicate print_value type]. destruct ty; try reflexivity.
  - unfold print_string. cbn [valuestring]. destruct vs as [s|]; [|reflexivity].
    cbn. now rewrite print_string_ptr_c_str.
  - unfold print_array. cbn [child]. rewrite length_map, map_map.
    rewrite (all_some_map_ext
               (fun c => print_value (cJSON_Duplicate c true) (depth + 1) fmt)
               (fun c => print_value c (depth + 1) fmt)); [reflexivity|].
    eapply Forall_impl; [exact IH|]. intros c Hc. apply Hc.
  - unfold print_object. cbn [child]. rewrite length_map, !map_map.
    rewrite (all_some_map_ext
               (fun c => print_value (cJSON_Duplicate c true) (depth + 1) fmt)
               (fun c => print_value c (depth + 1) fmt))
      by (eapply Forall_impl; [exact IH|]; intros c Hc; apply Hc).
    rewrite (all_some_map_ext
               (fun c => print_string_ptr <$> keystring (cJSON_Duplicate c true))
               (fun c => print_string_ptr <$> keystring c)); [reflexivity|].
    apply Forall_forall. intros c _. destruct c as [ch' ty' vs' vi' vd' ks'].
    cbn. destruct ks' as [k|]; [|reflexivity]. cbn.
    now rewrite print_string_ptr_c_str.
Qed.

(** ** [cJSON_Minify] on printed texts *)

Lemma minify_loop_mono (fuel : nat) :
  forall fuel' json r,
    (fuel <= fuel')%nat ->
    minify_loop fuel json = Some r -> minify_loop fuel' json = Some r.
Proof.
  induction fuel as [|fuel IH]; intros fuel' json r Hle; [discriminate|].
  destruct fuel' as [|fuel']; [lia|].
  assert (Hle' : (fuel <= fuel')%nat) by lia.
  cbn [minify_loop]. cbv zeta.
  repeat match goal with
         | |- context [if ?c then _ else _] => destruct c
         end; try (apply IH; exact Hle'); try (intros H; exact H).
  - destruct (minify_block_comment json) as [j|]; [apply IH; exact Hle'|].
    discriminate.
  - destruct (minify_string (drop 1 json)) as [[copied j]|]; [|discriminate].
    destruct (minify_loop fuel j) as [o|] eqn:E; [|discriminate].
    now rewrite (IH _ _ _ Hle' E).
  - destruct (minify_loop fuel (drop 1 json)) as [o|] eqn:E; [|discriminate].
    now rewrite (IH _ _ _ Hle' E).
Qed.

Lemma minifies_nil : minifies [] [].
Proof. intros rest fuel r H. exists fuel. split; [lia|exact H]. Qed.

Lemma minifies_app (a a' b b' : text) :
  minifies a a' -> minifies b b' -> minifies (a ++ b) (a' ++ b').
Proof.
  intros Ha Hb rest fuel r Hr.
  destruct (Hb rest fuel r Hr) as (f1 & L1 & E1).
  destruct (Ha (b ++ rest) f1 _ E1) as (f2 & L2 & E2).
  exists f2. rewrite <- !app_assoc. split; [rewrite length_app; lia|exact E2].
Qed.

Lemma minifies_plain (c : ascii) : plain_char c = true -> minifies [c] [c].
Proof.
  unfold plain_char. rewrite !andb_true_iff, !negb_true_iff.
  intros ((((((H1 & H2) & H3) & H4) & H5) & H6) & H7) rest fuel r Hr.
  exists (S fuel). split; [cbn; lia|].
  cbn [minify_loop app deref hd drop]. cbv zeta.
  rewrite H1, H2, H3, H4, H5, H6, H7. cbn [andb]. rewrite ?drop_0.
  now rewrite Hr.
Qed.

Lemma minifies_blank (c : ascii) : blank_char c = true -> minifies [c] [].
Proof.
  unfold blank_char. rewrite !orb_true_iff, !Ascii.eqb_eq.
  intros H rest fuel r Hr. exists (S fuel). split; [cbn; lia|].
  destruct H as [[[-> | ->] | ->] | ->]; cbn [app]; cbn; rewrite ?drop_0;
    exact Hr.
Qed.

Lemma minifies_plain_text (t : text) :
  Forall (fun c => plain_char c = true) t -> minifies t t.
Proof.
  induction 1 as [|c t Hc _ IH]; [apply minifies_nil|].
  apply (minifies_app [c] [c] t t); [now apply minifies_plain|exact IH].
Qed.

Lemma minifies_blank_text (t : text) :
  Forall (fun c => blank_char c = true) t -> minifies t [].
Proof.
  induction 1 as [|c t Hc _ IH]; [apply minifies_nil|].
  apply (minifies_app [c] [] t []); [now apply minifies_blank|exact IH].
Qed.

Lemma minify_string_escape_char (c : ascii) (tail : text) :
  c <> NUL ->
  minify_string (escape_char c ++ tail)
  = match minify_string tail with
    | Some (out, rest) => Some (escape_char c ++ out, rest)
    | None => None
    end.
Proof.
  intros Hc. each_char c; try (exfalso; now apply Hc);
    match goal with
    | |- context [escape_char ?c] =>
      let e := eval vm_compute in (escape_char c) in
      change (escape_char c) with e
    end;
    cbn; destruct (minify_string tail) as [[o r]|]; reflexivity.
Qed.

Lemma minify_string_escape_loop (s rest : text) :
  minify_string (escape_loop s ++ dquote :: rest)
  = Some (escape_loop s ++ [dquote], rest).
Proof.
  induction s as [|c s IH]; [reflexivity|]. cbn [escape_loop].
  destruct (Ascii.eqb_spec c NUL); [reflexivity|].
  rewrite <- app_assoc, minify_string_escape_char, IH by assumption.
  now rewrite <- app_assoc.
Qed.

Lemma minifies_print_string_ptr (s : text) :
  minifies (print_string_ptr s) (print_string_ptr s).
Proof.
  intros rest fuel r Hr. exists (S fuel).
  rewrite print_string_ptr_escape_loop. split; [cbn; lia|].
  cbn [minify_loop app deref hd drop]. cbv zeta.
  change (Ascii.eqb dquote NUL) with false.
  change (Ascii.eqb dquote " ") with false.
  change (Ascii.eqb dquote (char_of 9)) with false.
  change (Ascii.eqb dquote (char_of 13)) with false.
  change (Ascii.eqb dquote (char_of 10)) with false.
  change (Ascii.eqb dquote "/") with false.
  change (Ascii.eqb dquote dquote) with true. cbn [andb]. rewrite ?drop_0.
  rewrite <- app_assoc. cbn [app].
  rewrite minify_string_escape_loop, Hr. now rewrite <- app_assoc.
Qed.

Lemma number_char_plain (c : ascii) :
  number_char c = true -> plain_char c = true.
Proof.
  each_char c; vm_compute; intros H; try discriminate H; reflexivity.
Qed.

Lemma minifies_number (d : double) (valueint : Z) :
  minifies (print_number_fields d valueint) (print_number_fields d valueint).
Proof.
  apply minifies_plain_text.
  eapply Forall_impl; [apply print_number_fields_number_chars|].
  exact number_char_plain.
Qed.

Lemma minifies_compose_array (fmt : bool) (es es' : list text) :
  Forall2 minifies es es' ->
  minifies (compose_array fmt es) (compose_array false es').
Proof.
  induction 1 as [|e e' es es' He Hes IH]; [apply minifies_nil|].
  cbn [compose_array]. apply minifies_app; [exact He|].
  apply minifies_app; [|exact IH].
  destruct Hes; [apply minifies_nil|].
  apply (minifies_app [","%char] [","%char] _ []);
    [now apply minifies_plain|].
  destruct fmt; [now apply (minifies_blank " ")|apply minifies_nil].
Qed.

Lemma tabs_blank (n : Z) : Forall (fun c => blank_char c = true) (tabs n).
Proof. unfold tabs. induction (Z.to_nat n); cbn; constructor; auto. Qed.

Lemma minifies_compose_object (fmt : bool) (depth depth' : Z)
      (ns : list text) (es es' : list text) :
  Forall (fun n => minifies n n) ns ->
  Forall2 minifies es es' ->
  minifies (compose_object fmt depth (zip ns es))
           (compose_object false depth' (zip ns es')).
Proof.
  intros Hns. revert es es'.
  induction Hns as [|n ns Hn _ IH]; intros es es' Hes; [apply minifies_nil|].
  destruct Hes as [|e e' es es' He Hes]; [apply minifies_nil|].
  cbn [zip zip_with compose_object].
  apply (minifies_app _ []).
  { destruct fmt; [apply minifies_blank_text, tabs_blank|apply minifies_nil]. }
  apply minifies_app; [exact Hn|].
  apply (minifies_app [":"%char] [":"%char]); [now apply minifies_plain|].
  apply (minifies_app _ []).
  { destruct fmt; [now apply (minifies_blank (char_of 9))|apply minifies_nil]. }
  apply minifies_app; [exact He|].
  assert (Hcomma : minifies (if zip ns es is [] then [] else [","%char])
                            (if zip ns es' is [] then [] else [","%char])).
  { destruct Hes; destruct ns; cbn [zip zip_with];
      first [apply minifies_nil | now apply minifies_plain]. }
  apply minifies_app; [exact Hcomma|].
  apply (minifies_app _ []).
  { destruct fmt; [now apply (minifies_blank (char_of 10))|apply minifies_nil]. }
  apply (IH es es' Hes).
Qed.

Lemma all_some_minifies (f g : cJSON -> option text) (ch : list cJSON)
      (es : list text) :
  Forall (fun c => forall e, f c = Some e ->
                   exists e', g c = Some e' /\ minifies e e') ch ->
  all_some (map f ch) = Some es ->
  exists es', all_some (map g ch) = Some es' /\ Forall2 minifies es es'.
Proof.
  intros H. revert es. induction H as [|c ch Hc _ IH]; intros es;
    cbn [map all_some].
  - intros [= <-]. exists []. split; [reflexivity|constructor].
  - destruct (f c) as [e|] eqn:Ee; [|discriminate].
    destruct (all_some (map f ch)) as [es0|]; [|discriminate].
    intros [= <-]. destruct (Hc e eq_refl) as (e' & Ee' & He).
    destruct (IH es0 eq_refl) as (es' & Ees' & Hes).
    exists (e' :: es'). rewrite Ee', Ees'. split; [reflexivity|].
    now constructor.
Qed.

Lemma print_value_minifies (item : cJSON) :
  forall depth fmt out,
    print_value item depth fmt = Some out ->
    exists compact,
      print_value item depth false = Some compact /\ minifies out compact.
Proof.
  induction item as [t IH] using cJSON_tree_ind. intros depth fmt out.
  destruct t as [ch ty vs vi vd ks]. cbn [child] in IH.
  cbn [print_value type]. destruct ty.
  - intros [= <-]. eexists. split; [reflexivity|].
    apply minifies_plain_text. repeat constructor.
  - intros [= <-]. eexists. split; [reflexivity|].
    apply minifies_plain_text. repeat constructor.
  - intros [= <-]. eexists. split; [reflexivity|].
    apply minifies_plain_text. repeat constructor.
  - intros [= <-]. eexists. split; [reflexivity|]. apply minifies_number.
  - unfold print_string. cbn [valuestring]. destruct vs as [s|]; [|discriminate].
    intros [= <-]. eexists. split; [reflexivity|].
    apply minifies_print_string_ptr.
  - unfold print_array. cbn [child].
    destruct (List.length ch =? 0)%nat.
    { intros [= <-]. eexists. split; [reflexivity|].
      apply minifies_plain_text. repeat constructor. }
    destruct (all_some (map _ ch)) as [es|] eqn:Ees; [|discriminate].
    intros [= <-].
    destruct (all_some_minifies
                (fun c => print_value c (depth + 1) fmt)
                (fun c => print_value c (depth + 1) false) ch es)
      as (es' & Ees' & Hes); [|exact Ees|].
    { eapply Forall_impl; [exact IH|]. intros c Hc e. apply Hc. }
    rewrite Ees'. eexists. split; [reflexivity|].
    apply (minifies_app ["["%char] ["["%char]); [now apply minifies_plain|].
    apply minifies_app; [now apply minifies_compose_array|].
    now apply minifies_plain.
  - unfold print_object. cbn [child].
    destruct (List.length ch =? 0)%nat.
    { intros [= <-]. eexists. split; [reflexivity|].
      apply (minifies_app ["{"%char] ["{"%char]); [now apply minifies_plain|].
      apply (minifies_app _ [] _ ["}"%char]); [|now apply minifies_plain].
      destruct fmt; [|apply minifies_nil].
      apply (minifies_app [char_of 10] [] _ []);
        [now apply minifies_blank|apply minifies_blank_text, tabs_blank]. }
    destruct (all_some (map (fun c => print_string_ptr <$> keystring c) ch))
      as [ns|] eqn:Ens; [|discriminate].
    destruct (all_some (map (fun c => print_value c (depth + 1) fmt) ch))
      as [es|] eqn:Ees; [|discriminate].
    intros [= <-].
    destruct (all_some_minifies
                (fun c => print_value c (depth + 1) fmt)
                (fun c => print_value c (depth + 1) false) ch es)
      as (es' & Ees' & Hes); [|exact Ees|].
    { eapply Forall_impl; [exact IH|]. intros c Hc e. apply Hc. }
    rewrite Ees'. eexists. split; [reflexivity|].
    apply (minifies_app ["{"%char] ["{"%char]); [now apply minifies_plain|].
    apply (minifies_app _ []).
    { destruct fmt; [now apply (minifies_blank (char_of 10))|apply minifies_nil]. }
    apply minifies_app.
    + apply minifies_compose_object; [|exact Hes].
      apply (all_some_Forall _ (fun c => print_string_ptr <$> keystring c) ch ns);
        [|exact Ens].
      apply Forall_forall. intros c _ n. destruct (keystring c); [|discriminate].
      intros [= <-]. apply minifies_print_string_ptr.
    + apply (minifies_app _ [] _ ["}"%char]); [|now apply minifies_plain].
      destruct fmt; [apply minifies_blank_text, tabs_blank|apply minifies_nil].
Qed.

(** X10.  [cJSON_Minify] applied to the text of a tree, pretty or
    compact and printed at any depth, returns the compact text of the
    tree: the blanks of the layout are dropped and nothing inside a
    string is touched. *)
Theorem minify_printed_is_compact (item : cJSON) (depth : Z) (fmt : bool)
        (out : text) :
  print_value item depth fmt = Some out ->
  exists compact,
    print_value item depth false = Some compact /\
    cJSON_Minify out = Some compact.
Proof.
  intros H. destruct (print_value_minifies item depth fmt out H)
    as (compact & Hc & Hm).
  exists compact. split; [exact Hc|].
  destruct (Hm [] 1%nat [] eq_refl) as (fuel & Hle & Hrun).
  rewrite !app_nil_r in Hrun. unfold cJSON_Minify.
  apply (minify_loop_mono fuel); [lia|exact Hrun].
Qed.

Lemma minify_printed_is_compact_witness :
  exists compact,
    print_value sample_tree 0 false = Some compact /\
    cJSON_Minify
      ("{"%char :: newline :: tab :: print_string_ptr (lit "id")
         ++ ":"%char :: tab :: lit "-7," ++ newline :: tab
         :: print_string_ptr (lit "tags") ++ ":"%char :: tab :: "["%char
         :: print_string_ptr (lit "a\b") ++ lit ", null]" ++ [newline; "}"%char])
    = Some compact.
Proof.
  apply (minify_printed_is_compact sample_tree 0 true). reflexivity.
Defined.

(** ** Lookups, removal and references in the linked representation *)

Section LinkedLookups.
Import Links References.

Lemma count_siblings_run (h : heap) (l : list ptr) :
  forall f b fuel i0,
    dlseg h f b l None -> (List.length l < fuel)%nat ->
    0 <= i0 -> i0 + Z.of_nat (List.length l) <= INT_MAX ->
    count_siblings fuel f i0 h = Some (i0 + Z.of_nat (List.length l), h).
Proof.
  induction l as [|p l IH]; intros f b fuel i0 Hseg Hfuel Hi0 Hmax.
  - cbn in Hseg. subst f. destruct fuel as [|fuel]; [cbn in Hfuel; lia|].
    cbn. now rewrite Z.add_0_r.
  - apply dlseg_cons in Hseg as [-> [_ (nx & Hnx & Hseg)]].
    destruct fuel as [|fuel]; [cbn in Hfuel; lia|].
    cbn [List.length] in Hfuel, Hmax. cbn [count_siblings].
    rewrite (bind_run _ _ _ _ _ (read_run _ _ _ _ Hnx)).
    rewrite wrap_int_small by (unfold INT_MAX in Hmax; lia).
    rewrite (IH nx (Some p) fuel (i0 + 1) Hseg) by lia.
    do 2 f_equal. cbn [List.length]. lia.
Qed.

Lemma find_key_first (h : heap) (string : text) (l : list ptr) :
  forall f b fuel i0,
    dlseg h f b l None -> (List.length l < fuel)%nat ->
    exists i,
      find_key fuel f string i0 h
      = Some ((match key_index (keys_of h l) string with
               | Some k => l !! k
               | None => None
               end, i), h).
Proof.
  induction l as [|p l IH]; intros f b fuel i0 Hseg Hfuel.
  - cbn in Hseg. subst f. destruct fuel as [|fuel]; [cbn in Hfuel; lia|].
    exists i0. reflexivity.
  - pose proof (dlseg_alloc _ _ _ _ _ Hseg p ltac:(left)) as Hpa.
    apply dlseg_cons in Hseg as [-> [_ (nx & Hnx & Hseg)]].
    destruct fuel as [|fuel]; [cbn in Hfuel; lia|].
    cbn [List.length] in Hfuel.
    cbn [find_key keys_of map key_index].
    rewrite (bind_run _ _ _ _ _ (read_run _ _ _ _ (fldf_keystring _ _ Hpa))).
    destruct (cJSON_strcasecmp (key_of h p) (Some string) =? 0).
    + exists i0. reflexivity.
    + rewrite (bind_run _ _ _ _ _ (read_run _ _ _ _ Hnx)).
      destruct (IH nx (Some p) fuel (wrap_int (i0 + 1)) Hseg ltac:(lia))
        as [i Hi].
      exists i. rewrite Hi. fold (keys_of h l).
      destruct (key_index (keys_of h l) string); reflexivity.
Qed.

Lemma siblings_frame (h h' : heap) (parent : ptr) (l : list ptr) :
  siblings h parent l ->
  (forall q, q = parent \/ q ∈ l -> h' !! q = h !! q) ->
  siblings h' parent l.
Proof.
  intros (a & Ha & Hseg & Hnd) Hf. exists a.
  split; [rewrite Hf by (now left); exact Ha|]. split; [|exact Hnd].
  apply (dlseg_frame h); [|exact Hseg].
  intros p Hp. unfold fldf. rewrite Hf by now right. auto.
Qed.

Lemma modifies_untouched (h h' : heap) (array : ptr) (touched freed : list ptr)
      (q : ptr) (n : node) :
  modifies h h' array touched freed ->
  (forall p, fldf keystring h' p = fldf keystring h p) ->
  h !! q = Some n -> q <> array -> q ∉ touched -> q ∉ freed ->
  h' !! q = Some n.
Proof.
  intros Hm Hk Hn Ha Ht Hf.
  destruct (Hm q n Hn Hf) as (n' & Hn' & C & L & R).
  specialize (C Ha). destruct (L Ht) as [L1 L2].
  specialize (Hk q). unfold fldf in Hk. rewrite Hn, Hn' in Hk. cbn in Hk.
  rewrite Hn'. f_equal. destruct n, n'. cbn in *. congruence.
Qed.

Lemma NoDup_delete_lookup {A} (l : list A) (i : nat) (c : A) :
  NoDup l -> l !! i = Some c ->
  (c ∉ delete i l) /\ forall x, x ∈ delete i l -> x ∈ l.
Proof.
  intros Hnd Hc. rewrite delete_take_drop.
  pose proof (take_drop_middle l i c Hc) as E. rewrite <- E in Hnd.
  apply NoDup_app in Hnd as (N1 & N12 & N2).
  apply NoDup_cons in N2 as [Nc N2]. split.
  - intros [H|H]%elem_of_app; [|contradiction]. apply (N12 c H). now left.
  - intros x Hx. rewrite <- E.
    apply elem_of_app in Hx as [H|H]; apply elem_of_app;
      [now left|right; now right].
Qed.

(** X11.  On a parent whose children are the list [l],
    [cJSON_GetArraySize] returns the length of [l] (when it fits an
    [int]) and [cJSON_GetArrayItem] the child at the index, the first
    child for a negative index and null past the end; neither changes
    the heap. *)
Theorem array_getters_read_the_list (h : heap) (array : ptr) (l : list ptr) :
  siblings h array l ->
  (Z.of_nat (List.length l) <= INT_MAX ->
   cJSON_GetArraySize array h = Some (Z.of_nat (List.length l), h)) /\
  (forall item,
     cJSON_GetArrayItem array item h = Some (l !! Z.to_nat item, h)) /\
  (forall item, item < 0 -> cJSON_GetArrayItem array item h = Some (head l, h)).
Proof.
  intros Hs. apply siblings_fields in Hs as (f & Hf & Hseg & Hnd).
  assert (Hitem : forall item,
             cJSON_GetArrayItem array item h = Some (l !! Z.to_nat item, h)).
  { intros item. unfold cJSON_GetArrayItem.
    rewrite (bind_run _ _ _ _ _ (read_run _ _ _ _ Hf)).
    apply (nth_sibling_run _ _ _ _ _ Hseg). }
  split; [|split; [exact Hitem|]].
  - intros Hmax. unfold cJSON_GetArraySize.
    rewrite (bind_run _ _ _ _ _ (read_run _ _ _ _ Hf)).
    pose proof (dlseg_length _ _ _ _ _ Hseg Hnd) as Hlen.
    unfold with_steps.
    rewrite (count_siblings_run h l f None (S (size h)) 0 Hseg) by lia.
    reflexivity.
  - intros item Hneg. rewrite Hitem.
    replace (Z.to_nat item) with O by lia. now destruct l.
Qed.

Lemma array_getters_read_the_list_witness :
  (Z.of_nat (List.length [1%nat; 2%nat; 3%nat]) <= INT_MAX ->
   Links.cJSON_GetArraySize 0%nat Links.sample_heap
   = Some (Z.of_nat (List.length [1%nat; 2%nat; 3%nat]), Links.sample_heap)) /\
  (forall item,
     Links.cJSON_GetArrayItem 0%nat item Links.sample_heap
     = Some ([1%nat; 2%nat; 3%nat] !! Z.to_nat item, Links.sample_heap)) /\
  (forall item, item < 0 ->
     Links.cJSON_GetArrayItem 0%nat item Links.sample_heap
     = Some (head [1%nat; 2%nat; 3%nat], Links.sample_heap)).
Proof.
  apply (array_getters_read_the_list sample_heap 0%nat [1%nat; 2%nat; 3%nat]).
  exact siblings_sample_heap.
Defined.

(** X12.  [cJSON_GetObjectItem] returns the first child whose key
    equals the name up to case, null when there is none, and leaves the
    heap as it is. *)
Theorem GetObjectItem_first_match (h : heap) (object : ptr) (l : list ptr)
        (string : text) :
  siblings h object l ->
  cJSON_GetObjectItem object string h
  = Some (match key_index (keys_of h l) string with
          | Some k => l !! k
          | None => None
          end, h).
Proof.
  intros Hs. apply siblings_fields in Hs as (f & Hf & Hseg & Hnd).
  unfold cJSON_GetObjectItem.
  rewrite (bind_run _ _ _ _ _ (read_run _ _ _ _ Hf)).
  pose proof (dlseg_length _ _ _ _ _ Hseg Hnd) as Hlen.
  destruct (find_key_first h string l f None (S (size h)) 0 Hseg ltac:(lia))
    as [i Hi].
  rewrite (bind_run (with_steps (fun fuel => find_key fuel f string 0))
                    _ _ _ _ Hi).
  reflexivity.
Qed.

Lemma GetObjectItem_first_match_witness :
  Links.cJSON_GetObjectItem 0%nat (lit "B") Links.sample_heap
  = Some (match key_index (keys_of Links.sample_heap [1%nat; 2%nat; 3%nat])
                          (lit "B") with
          | Some k => [1%nat; 2%nat; 3%nat] !! k
          | None => None
          end, Links.sample_heap).
Proof.
  apply (GetObjectItem_first_match sample_heap 0%nat [1%nat; 2%nat; 3%nat]).
  exact siblings_sample_heap.
Defined.

(** ** Release *)

Ltac apart :=
  repeat intro;
  repeat match goal with
         | H : _ ∈ _ |- _ => apply list_elem_of_In in H; cbn in H
         end;
  intuition congruence.

(** In the sample heap the chain that starts at the member 1 owns the
    members 1, 2 and 3 and the leaf 5 below the member 2. *)
Lemma owned_sample_heap :
  owned sample_heap (Some 1%nat) [1%nat; 2%nat; 5%nat; 3%nat].
Proof.
  assert (H3 : owned sample_heap (Some 3%nat) [3%nat]).
  { apply (owned_node sample_heap 3%nat
             (mk_node None (Some 2%nat) None false (Some (lit "c"))) [] []);
      [reflexivity | constructor | constructor | apart | apart]. }
  assert (H5 : owned sample_heap (Some 5%nat) [5%nat]).
  { apply (owned_node sample_heap 5%nat (mk_node None None None false None)
             [] []);
      [reflexivity | constructor | constructor | apart | apart]. }
  assert (H2 : owned sample_heap (Some 2%nat) [2%nat; 5%nat; 3%nat]).
  { apply (owned_node sample_heap 2%nat
             (mk_node (Some 3%nat) (Some 1%nat) (Some 5%nat) false
                      (Some (lit "b"))) [5%nat] [3%nat]);
      [reflexivity | exact H5 | exact H3 | apart | apart]. }
  apply (owned_node sample_heap 1%nat
           (mk_node (Some 2%nat) None None false (Some (lit "a")))
           [] [2%nat; 5%nat; 3%nat]);
    [reflexivity | constructor | exact H2 | apart | apart].
Qed.

(** X13.  [cJSON_Delete] on a chain of siblings that owns its
    descendants releases exactly the nodes of its footprint, the chain
    and the trees below it without what lies below a reference node,
    and changes no other node. *)
Theorem delete_releases_exactly_the_tree (h : heap) (c : option ptr)
        (footprint : list ptr) :
  owned h c footprint ->
  exists h',
    cJSON_Delete c h = Some (tt, h') /\
    (forall q, q ∈ footprint -> h' !! q = None) /\
    (forall q, q ∉ footprint -> h' !! q = h !! q).
Proof.
  intros Ho. destruct (Delete_run h c footprint Ho) as (h' & R & L).
  exists h'. split; [exact R|]. split.
  - intros q Hq. now rewrite L, decide_True.
  - intros q Hq. now rewrite L, decide_False.
Qed.

(** Released from the member 1 of the sample heap on: the members 1, 2
    and 3 and the leaf 5 are gone, the object 0 and the node 4 stay. *)
Lemma delete_releases_exactly_the_tree_witness :
  exists h',
    Links.cJSON_Delete (Some 1%nat) Links.sample_heap = Some (tt, h') /\
    (forall q, q ∈ [1%nat; 2%nat; 5%nat; 3%nat] -> h' !! q = None) /\
    (forall q, q ∉ [1%nat; 2%nat; 5%nat; 3%nat] ->
               h' !! q = Links.sample_heap !! q).
Proof.
  apply (delete_releases_exactly_the_tree sample_heap (Some 1%nat)
           [1%nat; 2%nat; 5%nat; 3%nat]).
  exact owned_sample_heap.
Defined.

Lemma detach_then_delete (h : heap) (array : ptr) (l : list ptr) (which : Z)
      (c : ptr) (nc : node) (below : list ptr) :
  siblings h array l ->
  l !! Z.to_nat which = Some c -> c <> array -> h !! c = Some nc ->
  owned h (if is_reference nc then None else child nc) below ->
  (forall x, x ∈ below -> x <> array /\ (x ∉ l)) ->
  exists h1 h',
    cJSON_DetachItemFromArray array which h = Some (Some c, h1) /\
    cJSON_Delete (Some c) h1 = Some (tt, h') /\
    siblings h' array (delete (Z.to_nat which) l) /\
    (forall x, x ∈ c :: below -> h' !! x = None) /\
    (forall q n, h !! q = Some n -> q ∉ c :: below -> q ∉ l -> q <> array ->
                 h' !! q = Some n).
Proof.
  intros Hs Hc Hca Hnc Hown HF.
  destruct (DetachItemFromArray_run h array l which Hs)
    as (h1 & R1 & S1 & M1 & D1 & K1).
  rewrite Hc in R1. specialize (D1 c Hc).
  pose proof Hs as (a & Ha & Hseg & Hnd).
  assert (Hcl : c ∈ l) by (eapply list_elem_of_lookup_2; exact Hc).
  assert (HcF : c ∉ below).
  { intros Hx. destruct (HF c Hx) as [_ Q]. contradiction. }
  assert (Hnil : forall q : ptr, q ∉ ([] : list ptr)) by (intros q H; inversion H).
  assert (L1 : forall q, q ∈ below -> h1 !! q = h !! q).
  { intros q Hq. destruct (HF q Hq) as [Q1 Q2].
    destruct (owned_alloc _ _ _ Hown) as [_ Hal].
    destruct (Hal q Hq) as [n Hn]. rewrite Hn.
    apply (modifies_untouched h h1 array l []); auto. }
  destruct (M1 c nc Hnc (Hnil c)) as (n1 & Hn1 & C1 & _ & F1).
  destruct D1 as (n1' & Hn1' & Nx & Pv). rewrite Hn1 in Hn1'.
  injection Hn1' as <-.
  assert (Ho1 : owned h1 (Some c) (c :: below ++ [])).
  { apply (owned_node h1 c n1 below []); [exact Hn1| | | |].
    - rewrite F1, (C1 Hca). apply (owned_frame h); [exact Hown|exact L1].
    - rewrite Nx. constructor.
    - now rewrite app_nil_r.
    - intros x _ Hx. inversion Hx. }
  destruct (Delete_run _ _ _ Ho1) as (h' & R2 & L2). rewrite app_nil_r in L2.
  destruct (NoDup_delete_lookup l _ c Hnd Hc) as [Hcd Hsub].
  exists h1, h'. split; [exact R1|]. split; [exact R2|]. split; [|split].
  - apply (siblings_frame h1); [exact S1|]. intros q Hq. rewrite L2.
    rewrite decide_False; [reflexivity|]. intros Hx.
    apply elem_of_cons in Hx as [->|Hx].
    + destruct Hq as [->|Hq]; [now apply Hca|contradiction].
    + destruct (HF q Hx) as [Q1 Q2].
      destruct Hq as [->|Hq]; [now apply Q1|]. apply Q2. now apply Hsub.
  - intros x Hx. now rewrite L2, decide_True.
  - intros q n Hn Hq Hql Hqa. rewrite L2, decide_False by exact Hq.
    apply (modifies_untouched h h1 array l []); auto.
Qed.

Lemma Delete_null (h : heap) : cJSON_Delete None h = Some (tt, h).
Proof. reflexivity. Qed.

(** X14.  [cJSON_DeleteItemFromArray] takes the child at the index out
    of the list and releases it with the tree below it: the other
    children stay linked in their order, every node of the removed tree
    is released and no other node changes; with an index past the end
    nothing happens. *)
Theorem DeleteItemFromArray_removes_and_releases (h : heap) (array : ptr)
        (l : list ptr) (which : Z) :
  siblings h array l ->
  (l !! Z.to_nat which = None ->
   cJSON_DeleteItemFromArray array which h = Some (tt, h)) /\
  (forall c nc below,
     l !! Z.to_nat which = Some c -> c <> array -> h !! c = Some nc ->
     owned h (if is_reference nc then None else child nc) below ->
     (forall x, x ∈ below -> x <> array /\ (x ∉ l)) ->
     exists h',
       cJSON_DeleteItemFromArray array which h = Some (tt, h') /\
       siblings h' array (delete (Z.to_nat which) l) /\
       (forall x, x ∈ c :: below -> h' !! x = None) /\
       (forall q n, h !! q = Some n -> q ∉ c :: below -> q ∉ l ->
                    q <> array -> h' !! q = Some n)).
Proof.
  intros Hs. split.
  - intros Hnone. apply siblings_fields in Hs as (f & Hf & Hseg & Hnd).
    assert (R : cJSON_DetachItemFromArray array which h = Some (None, h)).
    { unfold cJSON_DetachItemFromArray.
      rewrite (bind_run _ _ _ _ _ (read_run _ _ _ _ Hf)).
      rewrite (bind_run _ _ _ _ _
                 (nth_sibling_run _ _ _ _ (Z.to_nat which) Hseg)).
      now rewrite Hnone. }
    unfold cJSON_DeleteItemFromArray. now rewrite (bind_run _ _ _ _ _ R).
  - intros c nc below Hc Hca Hnc Hown HF.
    destruct (detach_then_delete h array l which c nc below Hs Hc Hca Hnc Hown HF)
      as (h1 & h' & R1 & R2 & S & Fr & Fm).
    exists h'. unfold cJSON_DeleteItemFromArray.
    rewrite (bind_run _ _ _ _ _ R1). auto.
Qed.

Lemma DeleteItemFromArray_removes_and_releases_witness :
  exists h',
    Links.cJSON_DeleteItemFromArray 0%nat 1 Links.sample_heap = Some (tt, h') /\
    Links.siblings h' 0%nat (delete (Z.to_nat 1) [1%nat; 2%nat; 3%nat]) /\
    (forall x, x ∈ [2%nat; 5%nat] -> h' !! x = None) /\
    (forall q n, Links.sample_heap !! q = Some n -> q ∉ [2%nat; 5%nat] ->
                 q ∉ [1%nat; 2%nat; 3%nat] -> q <> 0%nat -> h' !! q = Some n).
Proof.
  apply (proj2 (DeleteItemFromArray_removes_and_releases sample_heap 0%nat
                  [1%nat; 2%nat; 3%nat] 1 siblings_sample_heap)
           2%nat (mk_node (Some 3%nat) (Some 1%nat) (Some 5%nat) false
                          (Some (lit "b"))) [5%nat]);
    [reflexivity | discriminate | reflexivity | |].
  - apply (owned_node sample_heap 5%nat (mk_node None None None false None) [] []);
      [reflexivity | constructor | constructor | intros H; inversion H
      | intros x H; inversion H].
  - intros x Hx. apply list_elem_of_singleton in Hx as ->.
    split; [discriminate|].
    intros Hin. repeat (apply elem_of_cons in Hin as [Hin|Hin]; [discriminate|]).
    inversion Hin.
Defined.

(** X15.  [cJSON_DeleteItemFromObject] removes and releases the first
    member whose key equals the name up to case, with the tree below
    it; without such a member nothing happens. *)
Theorem DeleteItemFromObject_removes_first_match (h : heap) (object : ptr)
        (l : list ptr) (string : text) :
  siblings h object l -> Z.of_nat (List.length l) <= INT_MAX ->
  (key_index (keys_of h l) string = None ->
   cJSON_DeleteItemFromObject object string h = Some (tt, h)) /\
  (forall k c nc below,
     key_index (keys_of h l) string = Some k ->
     l !! k = Some c -> c <> object -> h !! c = Some nc ->
     owned h (if is_reference nc then None else child nc) below ->
     (forall x, x ∈ below -> x <> object /\ (x ∉ l)) ->
     exists h',
       cJSON_DeleteItemFromObject object string h = Some (tt, h') /\
       siblings h' object (delete k l) /\
       (forall x, x ∈ c :: below -> h' !! x = None) /\
       (forall q n, h !! q = Some n -> q ∉ c :: below -> q ∉ l ->
                    q <> object -> h' !! q = Some n)).
Proof.
  intros Hs Hmax. pose proof Hs as Hs0.
  apply siblings_fields in Hs as (f & Hf & Hseg & Hnd).
  pose proof (dlseg_length _ _ _ _ _ Hseg Hnd) as Hlen.
  pose proof (find_key_run h string l f None (S (size h)) 0 Hseg
                ltac:(lia) ltac:(lia) ltac:(lia)) as Hrun.
  split.
  - intros Hnone. rewrite Hnone in Hrun.
    assert (R : cJSON_DetachItemFromObject object string h = Some (None, h)).
    { unfold cJSON_DetachItemFromObject.
      rewrite (bind_run _ _ _ _ _ (read_run _ _ _ _ Hf)).
      rewrite (bind_run (with_steps (fun fuel => find_key fuel f string 0))
                        _ _ _ _ Hrun).
      reflexivity. }
    unfold cJSON_DeleteItemFromObject. now rewrite (bind_run _ _ _ _ _ R).
  - intros k c nc below Hk Hc Hco Hnc Hown HF. rewrite Hk, Hc in Hrun.
    assert (Hc' : l !! Z.to_nat (0 + Z.of_nat k) = Some c).
    { now rewrite Z.add_0_l, Nat2Z.id. }
    destruct (detach_then_delete h object l (0 + Z.of_nat k) c nc below
                Hs0 Hc' Hco Hnc Hown HF)
      as (h1 & h' & R1 & R2 & S & Fr & Fm).
    rewrite Z.add_0_l, Nat2Z.id in S.
    assert (R : cJSON_DetachItemFromObject object string h = Some (Some c, h1)).
    { unfold cJSON_DetachItemFromObject.
      rewrite (bind_run _ _ _ _ _ (read_run _ _ _ _ Hf)).
      rewrite (bind_run (with_steps (fun fuel => find_key fuel f string 0))
                        _ _ _ _ Hrun).
      exact R1. }
    exists h'. unfold cJSON_DeleteItemFromObject.
    rewrite (bind_run _ _ _ _ _ R). auto.
Qed.

Lemma DeleteItemFromObject_removes_first_match_witness :
  exists h',
    Links.cJSON_DeleteItemFromObject 0%nat (lit "B") Links.sample_heap
    = Some (tt, h') /\
    Links.siblings h' 0%nat (delete 1%nat [1%nat; 2%nat; 3%nat]) /\
    (forall x, x ∈ [2%nat; 5%nat] -> h' !! x = None) /\
    (forall q n, Links.sample_heap !! q = Some n -> q ∉ [2%nat; 5%nat] ->
                 q ∉ [1%nat; 2%nat; 3%nat] -> q <> 0%nat -> h' !! q = Some n).
Proof.
  apply (proj2 (DeleteItemFromObject_removes_first_match sample_heap 0%nat
                  [1%nat; 2%nat; 3%nat] (lit "B") siblings_sample_heap
                  ltac:(unfold INT_MAX; cbn; lia))
           1%nat 2%nat (mk_node (Some 3%nat) (Some 1%nat) (Some 5%nat) false
                                (Some (lit "b"))) [5%nat]);
    [reflexivity | reflexivity | discriminate | reflexivity | |].
  - apply (owned_node sample_heap 5%nat (mk_node None None None false None) [] []);
      [reflexivity | constructor | constructor | intros H; inversion H
      | intros x H; inversion H].
  - intros x Hx. apply list_elem_of_singleton in Hx as ->.
    split; [discriminate|].
    intros Hin. repeat (apply elem_of_cons in Hin as [Hin|Hin]; [discriminate|]).
    inversion Hin.
Defined.

(** ** Insertion and detachment are inverse *)

(** X16.  Inserting a detached node at an index within the list and
    detaching the child at the same index gives the node back,
    detached again, and leaves the parent with its former children in
    their former order. *)
Theorem insert_then_detach_restores (h : heap) (array : ptr) (l : list ptr)
        (which : Z) (item : ptr) :
  siblings h array l -> detached h item -> item ∉ l ->
  (Z.to_nat which <= List.length l)%nat ->
  exists h1 h2,
    cJSON_InsertItemInArray array which (Some item) h = Some (tt, h1) /\
    cJSON_DetachItemFromArray array which h1 = Some (Some item, h2) /\
    siblings h2 array l /\ detached h2 item.
Proof.
  intros Hs Hd Hil Hw.
  destruct (InsertItemInArray_run h array l which item Hs Hd Hil)
    as (h1 & R1 & S1 & _).
  destruct (DetachItemFromArray_run h1 array _ which S1)
    as (h2 & R2 & S2 & _ & D2 & _).
  assert (Hlen : List.length (take (Z.to_nat which) l) = Z.to_nat which)
    by (apply length_take_le; exact Hw).
  assert (Hit : (take (Z.to_nat which) l ++ item :: drop (Z.to_nat which) l)
                  !! Z.to_nat which = Some item).
  { rewrite lookup_app_r by lia. now rewrite Hlen, Nat.sub_diag. }
  rewrite Hit in R2. exists h1, h2. split; [exact R1|]. split; [exact R2|].
  split; [|now apply D2].
  assert (E : delete (Z.to_nat which)
                     (take (Z.to_nat which) l ++ item :: drop (Z.to_nat which) l)
              = l).
  { rewrite <- Hlen at 1. rewrite delete_middle. apply take_drop. }
  now rewrite E in S2.
Qed.

Lemma insert_then_detach_restores_witness :
  exists h1 h2,
    Links.cJSON_InsertItemInArray 0%nat 1 (Some 4%nat) Links.sample_heap
    = Some (tt, h1) /\
    Links.cJSON_DetachItemFromArray 0%nat 1 h1 = Some (Some 4%nat, h2) /\
    Links.siblings h2 0%nat [1%nat; 2%nat; 3%nat] /\ Links.detached h2 4%nat.
Proof.
  apply (insert_then_detach_restores sample_heap 0%nat [1%nat; 2%nat; 3%nat]
           1 4%nat siblings_sample_heap).
  - eexists. split; [reflexivity|]. split; reflexivity.
  - intros Hin. repeat (apply elem_of_cons in Hin as [Hin|Hin]; [discriminate|]).
    inversion Hin.
  - cbn. lia.
Defined.

(** ** Members added to an object are found *)

Lemma keys_of_frame (h h' : heap) (l : list ptr) :
  (forall q, q ∈ l -> key_of h' q = key_of h q) -> keys_of h' l = keys_of h l.
Proof.
  intros H. unfold keys_of. induction l as [|p l IH]; [reflexivity|].
  cbn [map]. rewrite H by now left. f_equal. apply IH.
  intros q Hq. apply H. now right.
Qed.

Lemma key_index_app (keys : list (option text)) (k : option text)
      (string : text) :
  key_index (keys ++ [k]) string
  = match key_index keys string with
    | Some i => Some i
    | None => if cJSON_strcasecmp k (Some string) =? 0
              then Some (List.length keys) else None
    end.
Proof.
  induction keys as [|k0 keys IH]; cbn [app key_index List.length].
  - now destruct (cJSON_strcasecmp k (Some string) =? 0).
  - destruct (cJSON_strcasecmp k0 (Some string) =? 0); [reflexivity|].
    rewrite IH. destruct (key_index keys string); [reflexivity|].
    now destruct (cJSON_strcasecmp k (Some string) =? 0).
Qed.

(** X17.  After [cJSON_AddItemToObject] has added a detached node under
    a name, [cJSON_GetObjectItem] with that name finds the node, unless
    an earlier member has the name up to case: then that member is
    found, as before. *)
Theorem AddItemToObject_then_GetObjectItem (h : heap) (object : ptr)
        (l : list ptr) (string : text) (item : ptr) :
  siblings h object l -> detached h item -> item ∉ l ->
  exists h',
    cJSON_AddItemToObject object string (Some item) h = Some (tt, h') /\
    cJSON_GetObjectItem object string h'
    = Some (match key_index (keys_of h l) string with
            | Some k => l !! k
            | None => Some item
            end, h').
Proof.
  intros Hs Hd Hil.
  destruct (detached_fields_inv _ _ Hd) as (_ & _ & Hia).
  destruct (set_keystring_frame h item (Some (c_str string)) object l Hia)
    as (R0 & S0 & D0 & _ & K0 & Fr0).
  destruct (AddItemToArray_run _ object l item (S0 Hs) (D0 Hd) Hil)
    as (h' & R1 & S1 & _ & K1).
  exists h'. unfold cJSON_AddItemToObject.
  rewrite (bind_run _ _ _ _ _ R0). split; [exact R1|].
  pose proof S1 as S1'. apply siblings_fields in S1' as (f & Hf & Hseg & Hnd).
  unfold cJSON_GetObjectItem.
  rewrite (bind_run _ _ _ _ _ (read_run _ _ _ _ Hf)).
  pose proof (dlseg_length _ _ _ _ _ Hseg Hnd) as Hlen.
  destruct (find_key_first h' string (l ++ [item]) f None (S (size h')) 0 Hseg
              ltac:(lia)) as [i Hi].
  rewrite (bind_run (with_steps (fun fuel => find_key fuel f string 0))
                    _ _ _ _ Hi).
  cbn [fst]. unfold mret, M_ret, ret. do 2 f_equal.
  assert (Kitem : key_of h' item = Some (c_str string)).
  { specialize (K1 item). rewrite K0 in K1. unfold fldf in K1. unfold key_of.
    destruct (h' !! item); cbn in K1; congruence. }
  assert (Kl : keys_of h' l = keys_of h l).
  { apply keys_of_frame. intros q Hq. apply key_of_fldf. rewrite K1.
    unfold fldf. rewrite Fr0; [reflexivity|]. intros ->. contradiction. }
  unfold keys_of at 1. rewrite map_app. cbn [map]. fold (keys_of h' l).
  rewrite key_index_app, Kl, Kitem.
  destruct (key_index (keys_of h l) string) as [k|] eqn:Ek.
  - apply lookup_app_l. pose proof (key_index_lt _ _ _ Ek) as Hk.
    unfold keys_of in Hk. now rewrite length_map in Hk.
  - assert (E0 : cJSON_strcasecmp (Some (c_str string)) (Some string) = 0).
    { apply strcasecmp_loop_zero. now rewrite c_str_idem. }
    rewrite E0. cbn [Z.eqb]. unfold keys_of. rewrite length_map.
    rewrite lookup_app_r by lia. now rewrite Nat.sub_diag.
Qed.

Lemma AddItemToObject_then_GetObjectItem_witness :
  exists h',
    Links.cJSON_AddItemToObject 0%nat (lit "B") (Some 4%nat) Links.sample_heap
    = Some (tt, h') /\
    Links.cJSON_GetObjectItem 0%nat (lit "B") h'
    = Some (match key_index (keys_of Links.sample_heap [1%nat; 2%nat; 3%nat])
                            (lit "B") with
            | Some k => [1%nat; 2%nat; 3%nat] !! k
            | None => Some 4%nat
            end, h').
Proof.
  apply (AddItemToObject_then_GetObjectItem sample_heap 0%nat
           [1%nat; 2%nat; 3%nat] (lit "B") 4%nat siblings_sample_heap).
  - eexists. split; [reflexivity|]. split; reflexivity.
  - intros Hin. repeat (apply elem_of_cons in Hin as [Hin|Hin]; [discriminate|]).
    inversion Hin.
Defined.

(** ** References *)

Lemma create_reference_run (h : heap) (item : ptr) (n : node) :
  h !! item = Some n ->
  let ref := fresh (dom h) in
  h !! ref = None /\
  create_reference item h
  = Some (ref, <[ref := mk_node None None (child n) true None]> h).
Proof.
  intros Hn ref.
  assert (Hfresh : h !! ref = None).
  { apply not_elem_of_dom. subst ref. apply is_fresh. }
  split; [exact Hfresh|].
  assert (Hne : ref <> item) by (intros E; rewrite E in Hfresh; congruence).
  set (zero := mk_node None None None false None).
  assert (R0 : cJSON_New_Item h = Some (ref, <[ref := zero]> h)) by reflexivity.
  assert (R1 : read item id (<[ref := zero]> h) = Some (n, <[ref := zero]> h)).
  { unfold read. rewrite lookup_insert_ne by exact Hne. now rewrite Hn. }
  assert (R2 : write ref (fun _ => mk_node None None (child n) true None)
                     (<[ref := zero]> h)
               = Some (tt, <[ref := mk_node None None (child n) true None]> h)).
  { unfold write. rewrite lookup_insert_eq. now rewrite insert_insert_eq. }
  unfold create_reference. rewrite (bind_run _ _ _ _ _ R0).
  rewrite (bind_run _ _ _ _ _ R1). rewrite (bind_run _ _ _ _ _ R2).
  reflexivity.
Qed.

(** X18.  [create_reference] allocates one node that shares the
    children of the item and is flagged as a reference, and
    [cJSON_Delete] on that node releases the node alone: the heap is
    again what it was, the item and its children included. *)
Theorem reference_delete_restores_heap (h : heap) (item : ptr) (n : node) :
  h !! item = Some n ->
  exists ref,
    h !! ref = None /\
    create_reference item h
    = Some (ref, <[ref := mk_node None None (child n) true None]> h) /\
    cJSON_Delete (Some ref) (<[ref := mk_node None None (child n) true None]> h)
    = Some (tt, h).
Proof.
  intros Hn. destruct (create_reference_run h item n Hn) as [Hfresh Hrun].
  exists (fresh (dom h)). split; [exact Hfresh|]. split; [exact Hrun|].
  set (ref := fresh (dom h)) in *.
  set (h1 := <[ref := mk_node None None (child n) true None]> h).
  assert (Ho : owned h1 (Some ref) (ref :: [] ++ [])).
  { apply (owned_node h1 ref (mk_node None None (child n) true None) [] []).
    - subst h1. apply lookup_insert_eq.
    - constructor.
    - constructor.
    - intros H. inversion H.
    - intros x H. inversion H. }
  destruct (Delete_run _ _ _ Ho) as (h' & R & L). rewrite R. do 2 f_equal.
  apply map_eq. intros q. rewrite L. cbn [app].
  destruct (decide (q ∈ [ref])) as [Hq|Hq].
  - apply list_elem_of_singleton in Hq as ->. now rewrite Hfresh.
  - subst h1. apply lookup_insert_ne. intros ->. apply Hq. now left.
Qed.

Lemma reference_delete_restores_heap_witness :
  exists ref,
    Links.sample_heap !! ref = None /\
    References.create_reference 2%nat Links.sample_heap
    = Some (ref, <[ref := Links.mk_node None None (Some 5%nat) true None]>
                   Links.sample_heap) /\
    Links.cJSON_Delete (Some ref)
      (<[ref := Links.mk_node None None (Some 5%nat) true None]> Links.sample_heap)
    = Some (tt, Links.sample_heap).
Proof.
  apply (reference_delete_restores_heap sample_heap 2%nat
           (mk_node (Some 3%nat) (Some 1%nat) (Some 5%nat) false (Some (lit "b")))).
  reflexivity.
Defined.

(** X19.  [cJSON_AddItemReferenceToArray] appends to the children of
    the parent one new node that shares the children of the item and is
    flagged as a reference; the nodes outside the list of the parent,
    the children of the item among them, are left as they were. *)
Theorem AddItemReferenceToArray_appends_reference (h : heap) (array : ptr)
        (l : list ptr) (item : ptr) (n : node) :
  siblings h array l -> h !! item = Some n ->
  exists ref h',
    h !! ref = None /\
    cJSON_AddItemReferenceToArray array item h = Some (tt, h') /\
    siblings h' array (l ++ [ref]) /\
    fldf child h' ref = Some (child n) /\
    fldf is_reference h' ref = Some true /\
    key_of h' ref = None /\
    (forall q m, h !! q = Some m -> q <> array -> q ∉ l -> h' !! q = Some m).
Proof.
  intros Hs Hn. destruct (create_reference_run h item n Hn) as [Hfresh Hrun].
  set (ref := fresh (dom h)) in *.
  set (nr := mk_node None None (child n) true None) in *.
  set (h1 := <[ref := nr]> h) in *.
  assert (Hr1 : h1 !! ref = Some nr).
  { subst h1. apply lookup_insert_eq. }
  assert (Hother : forall q, q <> ref -> h1 !! q = h !! q).
  { intros q Hq. subst h1. now apply lookup_insert_ne. }
  pose proof Hs as (a & Ha & Hseg & Hnd).
  assert (Hra : ref <> array) by (intros E; rewrite E in Hfresh; congruence).
  assert (Hrl : ref ∉ l).
  { intros Hin. destruct (dlseg_alloc _ _ _ _ _ Hseg ref Hin) as [m Hm].
    congruence. }
  assert (S1 : siblings h1 array l).
  { apply (siblings_frame h); [exact Hs|]. intros q [->|Hq]; apply Hother;
      [exact (not_eq_sym Hra)|]. intros ->. contradiction. }
  assert (D1 : detached h1 ref) by (exists nr; subst nr; auto).
  destruct (AddItemToArray_run h1 array l ref S1 D1 Hrl)
    as (h' & R & S' & M' & K').
  exists ref, h'. split; [exact Hfresh|]. split.
  { unfold cJSON_AddItemReferenceToArray.
    rewrite (bind_run _ _ _ _ _ Hrun). exact R. }
  split; [exact S'|].
  assert (Hnil : forall q : ptr, q ∉ ([] : list ptr)) by (intros q H; inversion H).
  destruct (M' ref nr Hr1 (Hnil ref)) as (n' & Hn' & C' & _ & F').
  split; [unfold fldf; rewrite Hn'; cbn; now rewrite (C' Hra)|].
  split; [unfold fldf; rewrite Hn'; cbn; now rewrite F'|].
  split.
  { specialize (K' ref). unfold fldf in K'. rewrite Hn', Hr1 in K'.
    unfold key_of. rewrite Hn'. cbn in K'. congruence. }
  intros q m Hm Hqa Hql.
  assert (Hqr : q <> ref) by (intros ->; congruence).
  apply (modifies_untouched h1 h' array (ref :: l) []); auto.
  - now rewrite Hother.
  - intros Hin. apply elem_of_cons in Hin as [->|Hin]; contradiction.
Qed.

Lemma AddItemReferenceToArray_appends_reference_witness :
  exists ref h',
    Links.sample_heap !! ref = None /\
    References.cJSON_AddItemReferenceToArray 0%nat 2%nat Links.sample_heap
    = Some (tt, h') /\
    Links.siblings h' 0%nat ([1%nat; 2%nat; 3%nat] ++ [ref]) /\
    Links.fldf Links.child h' ref = Some (Some 5%nat) /\
    Links.fldf Links.is_reference h' ref = Some true /\
    Links.key_of h' ref = None /\
    (forall q m, Links.sample_heap !! q = Some m -> q <> 0%nat ->
                 q ∉ [1%nat; 2%nat; 3%nat] -> h' !! q = Some m).
Proof.
  apply (AddItemReferenceToArray_appends_reference sample_heap 0%nat
           [1%nat; 2%nat; 3%nat] 2%nat
           (mk_node (Some 3%nat) (Some 1%nat) (Some 5%nat) false (Some (lit "b")))
           siblings_sample_heap).
  reflexivity.
Defined.

End LinkedLookups.

(** ** The parser always answers *)

Lemma skip_length (v : text) : (List.length (skip v) <= List.length v)%nat.
Proof.
  induction v as [|c v IH]; [reflexivity|]. cbn [skip].
  destruct (negb (Ascii.eqb c NUL) && (code c <=? 32)); cbn [List.length]; lia.
Qed.

Lemma answered_longer (a b : text) (r : parse_result) :
  answered a r -> (List.length a <= List.length b)%nat -> answered b r.
Proof. destruct r; cbn; auto. lia. Qed.

Lemma parse_string_loop_length (fuel : nat) :
  forall ptr out final,
    parse_string_loop fuel ptr = Some (out, final) ->
    (List.length final <= List.length ptr)%nat.
Proof.
  induction fuel as [|fuel IH]; intros ptr out final;
    [now intros [= _ <-]|].
  cbn [parse_string_loop].
  destruct (parse_string_step ptr) as [|emitted ptr'|] eqn:E;
    [now intros [= _ <-]| |discriminate].
  apply parse_string_step_shorter in E. specialize (IH ptr').
  destruct (parse_string_loop fuel ptr') as [[out' final']|]; [|discriminate].
  intros [= _ <-]. specialize (IH _ _ eq_refl). lia.
Qed.

Lemma parse_string_answered (item : cJSON) (str : text) :
  answered str (parse_string item str).
Proof.
  unfold parse_string. destruct (negb (Ascii.eqb (deref str) dquote));
    [discriminate|].
  destruct (sizing_scan (drop 1 str)) as [len|]; [|exact I].
  destruct (unescape (drop 1 str)) as [[out ptr]|] eqn:E; [|exact I].
  destruct (List.length out <=? len)%nat; [|exact I].
  apply parse_string_loop_length in E. cbn [answered].
  rewrite length_drop in E.
  destruct (Ascii.eqb (deref ptr) dquote); rewrite ?length_drop; lia.
Qed.

Lemma digits_loop_length (num : text) :
  forall n count,
    (List.length (digits_loop num n count).2 <= List.length num)%nat.
Proof.
  induction num as [|c num IH]; intros n count; [reflexivity|].
  cbn [digits_loop]. destruct (is_digit c); [|reflexivity].
  specialize (IH (dadd (dmul n (of_int 10)) (of_int (code c - code "0")))
                 (count + 1)).
  cbn [List.length]. lia.
Qed.

Lemma subscale_loop_length (num : text) :
  forall subscale,
    (List.length (subscale_loop num subscale).2 <= List.length num)%nat.
Proof.
  induction num as [|c num IH]; intros subscale; [reflexivity|].
  cbn [subscale_loop]. destruct (is_digit c); [|reflexivity].
  specialize (IH (wrap_int (wrap_int (subscale * 10) + (code c - code "0")))).
  cbn [List.length]. lia.
Qed.

Lemma parse_number_fields_length (num : text) :
  (List.length (parse_number_fields num).2 <= List.length num)%nat.
Proof.
  unfold parse_number_fields. cbv zeta.
  repeat (match goal with
          | |- context [if ?c then _ else _] => destruct c
          | |- context [digits_loop ?a ?b ?c] =>
            let H := fresh "H" in
            pose proof (digits_loop_length a b c) as H;
            destruct (digits_loop a b c) as [[? ?] ?]; cbn [snd] in H
          | |- context [subscale_loop ?a ?b] =>
            let H := fresh "H" in
            pose proof (subscale_loop_length a b) as H;
            destruct (subscale_loop a b) as [? ?]; cbn [snd] in H
          end; cbv beta iota zeta);
    cbn [snd]; rewrite ?length_drop in *; lia.
Qed.

Lemma parse_number_answered (item : cJSON) (num : text) :
  answered num (parse_number item num).
Proof.
  unfold parse_number. pose proof (parse_number_fields_length num) as H.
  destruct (parse_number_fields num) as [[n i] rest]. exact H.
Qed.

Section AnsweredContainers.
Variable pv : cJSON -> text -> parse_result.

Lemma parse_array_loop_answered (fuel : nat) :
  forall item children value,
    (forall it v, (List.length v < List.length value)%nat ->
                  answered v (pv it v)) ->
    (List.length value < fuel)%nat ->
    answered value (parse_array_loop pv fuel item children value).
Proof.
  induction fuel as [|fuel IH]; intros item children value Hpv Hfuel; [lia|].
  cbn [parse_array_loop].
  destruct (Ascii.eqb_spec (deref value) ",") as [E|_].
  - destruct value as [|c v]; [discriminate|]. cbn [drop List.length] in *.
    rewrite drop_0. pose proof (skip_length v) as Hs.
    pose proof (Hpv cJSON_New_Item (skip v) ltac:(lia)) as Ha.
    destruct (pv cJSON_New_Item (skip v)) as [new_item rest|ep| |];
      cbn [answered] in Ha; [|exact Ha|exact Ha|exact Ha].
    pose proof (skip_length rest) as Hr.
    apply (answered_longer (skip rest)); [|cbn [List.length]; lia].
    apply IH; [|lia]. intros it v' Hv'. apply Hpv. lia.
  - destruct (Ascii.eqb (deref value) "]"); [|discriminate].
    cbn [answered]. rewrite length_drop. lia.
Qed.

Lemma parse_array_answered (fuel : nat) (item : cJSON) (value : text) :
  (forall it v, (List.length v < List.length value)%nat ->
                answered v (pv it v)) ->
  (List.length value <= fuel)%nat ->
  answered value (parse_array pv fuel item value).
Proof.
  intros Hpv Hfuel. unfold parse_array.
  destruct (Ascii.eqb_spec (deref value) "[") as [E|_]; [|discriminate].
  cbn [negb]. destruct value as [|c v]; [discriminate|].
  cbn [drop List.length] in *. rewrite drop_0.
  pose proof (skip_length v) as Hs.
  destruct (Ascii.eqb (deref (skip v)) "]").
  { cbn [answered]. rewrite length_drop. cbn [List.length]. lia. }
  pose proof (skip_length (skip v)) as Hss.
  pose proof (Hpv cJSON_New_Item (skip (skip v)) ltac:(lia)) as Ha.
  destruct (pv cJSON_New_Item (skip (skip v))) as [child0 rest|ep| |];
    cbn [answered] in Ha; [|exact Ha|exact Ha|exact Ha].
  pose proof (skip_length rest) as Hr.
  apply (answered_longer (skip rest)); [|cbn [List.length]; lia].
  apply parse_array_loop_answered; [|lia]. intros it v' Hv'. apply Hpv. lia.
Qed.

Lemma parse_member_answered (value : text) :
  (forall it v, (List.length v < List.length value)%nat ->
                answered v (pv it v)) ->
  answered value (parse_member pv value).
Proof.
  intros Hpv. unfold parse_member.
  pose proof (skip_length value) as Hs.
  pose proof (parse_string_answered cJSON_New_Item (skip value)) as Ha.
  destruct (parse_string cJSON_New_Item (skip value)) as [c rest|ep| |];
    cbn [answered] in Ha; [|exact Ha|exact Ha|exact Ha].
  cbv zeta. pose proof (skip_length rest) as Hr.
  destruct (Ascii.eqb_spec (deref (skip rest)) ":") as [E|_]; [|discriminate].
  cbn [negb].
  assert (Hd : (List.length (drop 1 (skip rest)) < List.length (skip rest))%nat).
  { destruct (skip rest); [discriminate|]. cbn [drop List.length].
    rewrite drop_0. lia. }
  pose proof (skip_length (drop 1 (skip rest))) as Hsd.
  match goal with
  | |- context [pv ?it ?v] => pose proof (Hpv it v ltac:(lia)) as Hv;
                              destruct (pv it v) as [c' rest'|ep| |]
  end; cbn [answered] in Hv; [|exact Hv|exact Hv|exact Hv].
  cbn [answered]. pose proof (skip_length rest'). lia.
Qed.

Lemma parse_object_loop_answered (fuel : nat) :
  forall item children value,
    (forall it v, (List.length v < List.length value)%nat ->
                  answered v (pv it v)) ->
    (List.length value < fuel)%nat ->
    answered value (parse_object_loop pv fuel item children value).
Proof.
  induction fuel as [|fuel IH]; intros item children value Hpv Hfuel; [lia|].
  cbn [parse_object_loop].
  destruct (Ascii.eqb_spec (deref value) ",") as [E|_].
  - destruct value as [|c v]; [discriminate|]. cbn [drop List.length] in *.
    rewrite drop_0.
    pose proof (parse_member_answered v) as Ha.
    destruct (parse_member pv v) as [new_item rest|ep| |];
      [|apply Ha; intros it v' Hv'; apply Hpv; lia
       |apply Ha; intros it v' Hv'; apply Hpv; lia
       |apply Ha; intros it v' Hv'; apply Hpv; lia].
    cbn [answered] in Ha.
    assert (Hrest : (List.length rest <= List.length v)%nat).
    { apply Ha. intros it v' Hv'. apply Hpv. lia. }
    apply (answered_longer rest); [|cbn [List.length]; lia].
    apply IH; [|lia]. intros it v' Hv'. apply Hpv. lia.
  - destruct (Ascii.eqb (deref value) "}"); [|discriminate].
    cbn [answered]. rewrite length_drop. lia.
Qed.

Lemma parse_object_answered (fuel : nat) (item : cJSON) (value : text) :
  (forall it v, (List.length v < List.length value)%nat ->
                answered v (pv it v)) ->
  (List.length value <= fuel)%nat ->
  answered value (parse_object pv fuel item value).
Proof.
  intros Hpv Hfuel. unfold parse_object.
  destruct (Ascii.eqb_spec (deref value) "{") as [E|_]; [|discriminate].
  cbn [negb]. destruct value as [|c v]; [discriminate|].
  cbn [drop List.length] in *. rewrite drop_0. cbv zeta.
  pose proof (skip_length v) as Hs.
  destruct (Ascii.eqb (deref (skip v)) "}").
  { cbn [answered]. rewrite length_drop. cbn [List.length]. lia. }
  pose proof (parse_member_answered (skip v)) as Ha.
  destruct (parse_member pv (skip v)) as [child0 rest|ep| |];
    [|apply Ha; intros it v' Hv'; apply Hpv; lia
     |apply Ha; intros it v' Hv'; apply Hpv; lia
     |apply Ha; intros it v' Hv'; apply Hpv; lia].
  cbn [answered] in Ha.
  assert (Hrest : (List.length rest <= List.length (skip v))%nat).
  { apply Ha. intros it v' Hv'. apply Hpv. lia. }
  apply (answered_longer rest); [|cbn [List.length]; lia].
  apply parse_object_loop_answered; [|lia]. intros it v' Hv'. apply Hpv. lia.
Qed.
End AnsweredContainers.

Lemma parse_value_answered (fuel : nat) :
  forall item value,
    (List.length value < fuel)%nat -> answered value (parse_value fuel item value).
Proof.
  induction fuel as [|fuel IH]; intros item value Hfuel; [lia|].
  cbn [parse_value].
  destruct (starts_with "null" value);
    [cbn [answered]; rewrite length_drop; lia|].
  destruct (starts_with "false" value);
    [cbn [answered]; rewrite length_drop; lia|].
  destruct (starts_with "true" value);
    [cbn [answered]; rewrite length_drop; lia|].
  destruct (Ascii.eqb (deref value) dquote); [apply parse_string_answered|].
  destruct (Ascii.eqb (deref value) "-" || is_digit (deref value));
    [apply parse_number_answered|].
  destruct (Ascii.eqb (deref value) "[").
  { apply parse_array_answered; [|lia]. intros it v Hv. apply IH. lia. }
  destruct (Ascii.eqb (deref value) "{"); [|discriminate].
  apply parse_object_answered; [|lia]. intros it v Hv. apply IH. lia.
Qed.

(** X20.  [cJSON_ParseWithOpts] comes to an end on every text, with an
    allocator that does not fail: it returns a tree, leaves no error
    pointer and reports where parsing ended, or it returns null with
    the error pointer set, or [parse_string] has left the memory of
    its string or of the text and the call has no defined result.
    [parse_value] never needs more nested calls and iterations than
    the text has characters. *)
Theorem parse_always_answers (value : text) (require_null_terminated : bool) :
  (exists c end_,
     cJSON_ParseWithOpts value require_null_terminated
     = mk_outcome (Some c) None (Some end_)) \/
  (exists ep,
     cJSON_ParseWithOpts value require_null_terminated
     = mk_outcome None (Some ep) None) \/
  parse_value (S (List.length value)) cJSON_New_Item (skip value) = Undefined.
Proof.
  unfold cJSON_ParseWithOpts.
  pose proof (skip_length value) as Hs.
  pose proof (parse_value_answered (S (List.length value)) cJSON_New_Item
                (skip value) ltac:(lia)) as Ha.
  destruct (parse_value _ cJSON_New_Item (skip value)) as [c rest|ep| |];
    cbn [answered] in Ha; [| |now right; right|contradiction].
  - destruct require_null_terminated; [|left; eauto].
    destruct (negb (Ascii.eqb (deref (skip rest)) NUL));
      [right; left|left]; eauto.
  - right; left. destruct ep as [ep|]; [eauto|contradiction].
Qed.

(** ** More steps change no answer *)

Section MoreSteps.
Variables pv pv' : cJSON -> text -> parse_result.
Hypothesis Hpv : forall it v, pv it v <> Unfinished -> pv' it v = pv it v.

Lemma parse_array_loop_mono (n : nat) :
  forall n' item ch v,
    (n <= n')%nat ->
    parse_array_loop pv n item ch v <> Unfinished ->
    parse_array_loop pv' n' item ch v = parse_array_loop pv n item ch v.
Proof.
  induction n as [|n IH]; intros n' item ch v Hle; [cbn; contradiction|].
  destruct n' as [|n']; [lia|]. cbn [parse_array_loop].
  destruct (Ascii.eqb (deref v) ","); [|reflexivity].
  destruct (pv cJSON_New_Item (skip (drop 1 v))) as [c rest|ep| |] eqn:E;
    [| | |contradiction].
  - rewrite Hpv by (rewrite E; discriminate). rewrite E. apply IH. lia.
  - rewrite Hpv by (rewrite E; discriminate). now rewrite E.
  - rewrite Hpv by (rewrite E; discriminate). now rewrite E.
Qed.

Lemma parse_array_mono (n n' : nat) (item : cJSON) (v : text) :
  (n <= n')%nat ->
  parse_array pv n item v <> Unfinished ->
  parse_array pv' n' item v = parse_array pv n item v.
Proof.
  intros Hle. unfold parse_array.
  destruct (negb (Ascii.eqb (deref v) "[")); [reflexivity|]. cbv zeta.
  destruct (Ascii.eqb (deref (skip (drop 1 v))) "]"); [reflexivity|].
  destruct (pv cJSON_New_Item (skip (skip (drop 1 v)))) as [c rest|ep| |] eqn:E;
    [| | |contradiction].
  - rewrite Hpv by (rewrite E; discriminate). rewrite E.
    now apply parse_array_loop_mono.
  - rewrite Hpv by (rewrite E; discriminate). now rewrite E.
  - rewrite Hpv by (rewrite E; discriminate). now rewrite E.
Qed.

Lemma parse_member_mono (v : text) :
  parse_member pv v <> Unfinished -> parse_member pv' v = parse_member pv v.
Proof.
  unfold parse_member.
  destruct (parse_string cJSON_New_Item (skip v)) as [c rest|ep| |];
    [|reflexivity|reflexivity|reflexivity].
  cbv zeta. destruct (negb (Ascii.eqb (deref (skip rest)) ":")); [reflexivity|].
  match goal with
  | |- context [pv ?it ?x] => destruct (pv it x) as [c' rest'|ep| |] eqn:E
  end; [| | |contradiction].
  - rewrite Hpv by (rewrite E; discriminate). now rewrite E.
  - rewrite Hpv by (rewrite E; discriminate). now rewrite E.
  - rewrite Hpv by (rewrite E; discriminate). now rewrite E.
Qed.

Lemma parse_object_loop_mono (n : nat) :
  forall n' item ch v,
    (n <= n')%nat ->
    parse_object_loop pv n item ch v <> Unfinished ->
    parse_object_loop pv' n' item ch v = parse_object_loop pv n item ch v.
Proof.
  induction n as [|n IH]; intros n' item ch v Hle; [cbn; contradiction|].
  destruct n' as [|n']; [lia|]. cbn [parse_object_loop].
  destruct (Ascii.eqb (deref v) ","); [|reflexivity].
  destruct (parse_member pv (drop 1 v)) as [c rest|ep| |] eqn:E;
    [| | |contradiction].
  - rewrite parse_member_mono by (rewrite E; discriminate). rewrite E.
    apply IH. lia.
  - rewrite parse_member_mono by (rewrite E; discriminate). now rewrite E.
  - rewrite parse_member_mono by (rewrite E; discriminate). now rewrite E.
Qed.

Lemma parse_object_mono (n n' : nat) (item : cJSON) (v : text) :
  (n <= n')%nat ->
  parse_object pv n item v <> Unfinished ->
  parse_object pv' n' item v = parse_object pv n item v.
Proof.
  intros Hle. unfold parse_object.
  destruct (negb (Ascii.eqb (deref v) "{")); [reflexivity|]. cbv zeta.
  destruct (Ascii.eqb (deref (skip (drop 1 v))) "}"); [reflexivity|].
  destruct (parse_member pv (skip (drop 1 v))) as [c rest|ep| |] eqn:E;
    [| | |contradiction].
  - rewrite parse_member_mono by (rewrite E; discriminate). rewrite E.
    now apply parse_object_loop_mono.
  - rewrite parse_member_mono by (rewrite E; discriminate). now rewrite E.
  - rewrite parse_member_mono by (rewrite E; discriminate). now rewrite E.
Qed.
End MoreSteps.

Lemma parse_value_mono (fuel : nat) :
  forall fuel' item v,
    (fuel <= fuel')%nat ->
    parse_value fuel item v <> Unfinished ->
    parse_value fuel' item v = parse_value fuel item v.
Proof.
  induction fuel as [|fuel IH]; intros fuel' item v Hle; [cbn; contradiction|].
  destruct fuel' as [|fuel']; [lia|]. cbn [parse_value].
  repeat match goal with
         | |- context [if ?c then _ else _] => destruct c
         end; try reflexivity.
  - apply parse_array_mono; [|lia]. intros it x Hx. apply IH; [lia|exact Hx].
  - apply parse_object_mono; [|lia]. intros it x Hx. apply IH; [lia|exact Hx].
Qed.

(** X21.  Whitespace before a text changes nothing of what
    [cJSON_ParseWithOpts] returns: the tree, the error pointer and the
    reported end are those of the text alone. *)
Theorem leading_whitespace_ignored (ws value : text)
        (require_null_terminated : bool) :
  Forall whitespace ws ->
  cJSON_ParseWithOpts (ws ++ value) require_null_terminated
  = cJSON_ParseWithOpts value require_null_terminated.
Proof.
  intros Hws. unfold cJSON_ParseWithOpts.
  rewrite (skip_app_whitespace ws value Hws).
  pose proof (skip_length value) as Hs.
  rewrite (parse_value_mono (S (List.length value)) (S (List.length (ws ++ value))));
    [reflexivity|rewrite length_app; lia|].
  pose proof (parse_value_answered (S (List.length value)) cJSON_New_Item
                (skip value) ltac:(lia)) as Ha.
  intros E. rewrite E in Ha. exact Ha.
Qed.

Lemma leading_whitespace_ignored_witness :
  cJSON_ParseWithOpts (lit "  " ++ lit "[1, x]") true
  = cJSON_ParseWithOpts (lit "[1, x]") true.
Proof.
  apply (leading_whitespace_ignored (lit "  ") (lit "[1, x]") true).
  repeat constructor; discriminate.
Defined.

(** ** Round trips *)




(** X23.  [parse_number] reads an integer literal, a sign or none and
    digits that start with a digit other than zero, exactly, as long as
    its magnitude is below 2^53; the cached [int] is the same integer
    when it fits 32 bits. *)
Theorem integer_literal_read_exactly (s : bool) (c : ascii) (tl rest : text)
        (v : positive) (item : cJSON) :
  in_range "1" "9" c = true ->
  Forall (fun c => is_digit c = true) (c :: tl) ->
  ends_number rest = true ->
  digits_value (c :: tl) 0 = Zpos v -> Zpos v < 2 ^ 53 ->
  exists i,
    parse_number item (sign_text s ++ (c :: tl) ++ rest)
    = Parsed (set_type (set_valueint
                          (set_valuedouble item (of_int (cond_Zopp s (Zpos v)))) i)
                cJSON_Number) rest /\
    (Zpos v <= INT_MAX -> i = cond_Zopp s (Zpos v)).
Proof.
  intros Hc Hd Hrest Hv Hlt.
  exists (to_int (of_int (cond_Zopp s (Zpos v)))). split.
  - unfold parse_number.
    now rewrite (parse_number_digits s c tl rest v Hc Hd Hrest Hv Hlt).
  - intros Hmax. apply to_int_of_int. unfold INT_MIN, INT_MAX in *.
    destruct s; cbn [cond_Zopp]; lia.
Qed.

Lemma integer_literal_read_exactly_witness :
  exists i,
    parse_number cJSON_New_Item (sign_text true ++ lit "907" ++ lit "]")
    = Parsed (set_type (set_valueint
                          (set_valuedouble cJSON_New_Item
                             (of_int (cond_Zopp true 907))) i)
                cJSON_Number) (lit "]") /\
    (907 <= INT_MAX -> i = cond_Zopp true 907).
Proof.
  apply (integer_literal_read_exactly true "9" (lit "07") (lit "]") 907
           cJSON_New_Item);
    [reflexivity | repeat constructor | reflexivity | reflexivity | lia].
Defined.

(** ** Arrays made from C arrays *)







(** ** Skipped escapes inside a string *)











